(** * nomad-driver-podman: task handle loops and the container stats broadcaster

    A shallow embedding of [handle.go] (the [TaskHandle] record, [taskStatus],
    [isRunning], [runExitWatcher], [runStatsEmitter], [runLogStreamer],
    [runContainerMonitor]) and of the stats broadcaster of the [api] package
    ([Subscribe], [CancelSubscription], [serve]), with the direct probe
    [ContainerStats] and the polling goroutine of [ContainerStatsStream] of
    the same package.

    Goroutines are functions in a small monad over the memory they share.
    What the environment decides (which [select] case fires, what the podman
    API answers, what the clock reads, which receivers are waiting) is an
    argument of the function; every primitive step of a goroutine is appended
    to a log together with the state it leaves behind, so that properties of
    "every point" of an execution are properties of that log.

    In [handle.go] the monitor is the only writer of [procState],
    [completedAt], [containerStats] and of what [exitResult] points to, and
    the log streamer the only writer of [logPointer]: their runs are given
    without interference.  The exit watcher and the stats emitter read what
    the others write: they take, turn by turn, what the other goroutines did
    to the handle meanwhile.  [taskStatus] is called on the states a run of
    the monitor goes through; it waits when the monitor holds the lock. *)

From Stdlib Require Import ZArith List String Bool Lia Sorted.
From Stdlib Require DecimalString.
Import ListNotations.
Local Open Scope Z_scope.
Local Open Scope string_scope.
Local Open Scope list_scope.

(** ** Goroutine monad *)

(** A goroutine run ends in one of three ways: the function returned
    ([Done]), it panicked ([Panic], e.g. a nil pointer dereference or the
    close of a closed channel), or it is suspended ([Blocked]) on something
    the environment has not delivered: a lock held by somebody else, a
    channel without a peer, or the next event of its loop. *)
Inductive Result (S A : Type) : Type :=
| Done (a : A) (s : S)
| Panic (s : S)
| Blocked (s : S).
Arguments Done {S A} a s.
Arguments Panic {S A} s.
Arguments Blocked {S A} s.

Definition M (S A : Type) : Type := S -> Result S A.

Definition ret {S A : Type} (a : A) : M S A := fun s => Done a s.

Definition bind {S A B : Type} (m : M S A) (k : A -> M S B) : M S B :=
  fun s =>
    match m s with
    | Done a s' => k a s'
    | Panic s' => Panic s'
    | Blocked s' => Blocked s'
    end.

Definition panic {S A : Type} : M S A := fun s => Panic s.

Definition block {S A : Type} : M S A := fun s => Blocked s.

(** Go's [defer]: the deferred call runs when the body returns and when it
    panics (the panic then goes on), not while the goroutine is suspended
    inside the body. *)
Definition defer {S A : Type} (deferred : M S unit) (body : M S A) : M S A :=
  fun s =>
    match body s with
    | Done a s' =>
        match deferred s' with
        | Done _ s'' => Done a s''
        | Panic s'' => Panic s''
        | Blocked s'' => Blocked s''
        end
    | Panic s' =>
        match deferred s' with
        | Done _ s'' => Panic s''
        | Panic s'' => Panic s''
        | Blocked s'' => Blocked s''
        end
    | Blocked s' => Blocked s'
    end.

Declare Scope go_scope.
Delimit Scope go_scope with go.
Notation "x <- m ;; k" := (bind m (fun x => k))
  (at level 61, m at next level, right associativity) : go_scope.
Notation "m ;; k" := (bind m (fun _ => k))
  (at level 61, right associativity) : go_scope.
Local Open Scope go_scope.

Definition state_of {S A : Type} (r : Result S A) : S :=
  match r with
  | Done _ s => s
  | Panic s => s
  | Blocked s => s
  end.

Definition returned {S A : Type} (r : Result S A) : bool :=
  match r with Done _ _ => true | _ => false end.

Definition panicked {S A : Type} (r : Result S A) : bool :=
  match r with Panic _ => true | _ => false end.

(** ** Errors *)

(** Go [error] values as this code builds and inspects them: the two
    sentinels of the [api] package, plain errors ([errors.New], [fmt.Errorf]
    without [%w]) and wrapping errors ([fmt.Errorf] with [%w]).  A sentinel is
    a constructor of its own because [errors.Is] compares by identity, not by
    message. *)
Inductive error : Type :=
| ContainerNotFound
| ContainerWrongState
| errors_New (msg : string)
| fmt_Errorf_w (msg : string) (wrapped : error).

Definition Error (e : error) : string :=
  match e with
  | ContainerNotFound => "No such Container"
  | ContainerWrongState => "Container has wrong state"
  | errors_New msg => msg
  | fmt_Errorf_w msg _ => msg
  end.

Definition error_eq_dec (a b : error) : {a = b} + {a <> b}.
Proof. decide equality; apply string_dec. Defined.

(** [errors.Is]: walks the unwrap chain looking for the target. *)
Fixpoint errors_Is (err target : error) : bool :=
  if error_eq_dec err target then true
  else match err with
       | fmt_Errorf_w _ wrapped => errors_Is wrapped target
       | _ => false
       end.

(** ** Data of the collaborating packages *)

Definition Time : Type := Z.

Module drivers.

Inductive TaskState : Type :=
| TaskStateUnknown
| TaskStateRunning
| TaskStateExited.

Definition TaskState_eqb (a b : TaskState) : bool :=
  match a, b with
  | TaskStateUnknown, TaskStateUnknown => true
  | TaskStateRunning, TaskStateRunning => true
  | TaskStateExited, TaskStateExited => true
  | _, _ => false
  end.

Record ExitResult : Type := {
  ExitCode : Z;
  Signal : Z;
  OOMKilled : bool;
  Err : option error
}.

(** The value of [&drivers.ExitResult{}]. *)
Definition zeroExitResult : ExitResult :=
  {| ExitCode := 0; Signal := 0; OOMKilled := false; Err := None |}.

Definition set_ExitCode (v : Z) (r : ExitResult) : ExitResult :=
  {| ExitCode := v; Signal := Signal r; OOMKilled := OOMKilled r; Err := Err r |}.

Definition set_Signal (v : Z) (r : ExitResult) : ExitResult :=
  {| ExitCode := ExitCode r; Signal := v; OOMKilled := OOMKilled r; Err := Err r |}.

Definition set_OOMKilled (v : bool) (r : ExitResult) : ExitResult :=
  {| ExitCode := ExitCode r; Signal := Signal r; OOMKilled := v; Err := Err r |}.

Definition set_Err (v : option error) (r : ExitResult) : ExitResult :=
  {| ExitCode := ExitCode r; Signal := Signal r; OOMKilled := OOMKilled r; Err := v |}.

Record TaskConfig : Type := {
  ID : string;
  Name : string;
  StdoutPath : string;
  StderrPath : string
}.

Record TaskStatus : Type := {
  status_ID : string;
  status_Name : string;
  State : TaskState;
  StartedAt : Time;
  CompletedAt : Time;
  status_ExitResult : option ExitResult;
  DriverAttributes : list (string * string)
}.

End drivers.

Module api.

Record ContainerStats : Type := {
  ContainerID : string;
  CPUNano : Z;
  CPUSystemNano : Z;
  MemUsage : Z;
  MemLimit : Z
}.

Definition zeroContainerStats : ContainerStats :=
  {| ContainerID := ""; CPUNano := 0; CPUSystemNano := 0; MemUsage := 0; MemLimit := 0 |}.

(** [ExitCode] is an [int32] in Go; the conversion [int(...)] the monitor
    applies to it keeps its value. *)
Record InspectContainerState : Type := {
  ExitCode : Z;
  Error : string;
  FinishedAt : Time;
  OOMKilled : bool
}.

Record InspectContainerData : Type := {
  State : InspectContainerState
}.

End api.

(** ** The task handle *)

(** [sync.RWMutex]: one writer or any number of readers. *)
Record RWMutex : Type := {
  writer : bool;
  readers : nat
}.

Definition unlockedMutex : RWMutex := {| writer := false; readers := 0 |}.

(** The fields of [TaskHandle] this file reads or writes.  [logger],
    [driver], [podmanClient] and the CPU trackers are references to
    collaborators; what they answer arrives as arguments of the loops.
    [taskConfig] and [exitResult] are pointers: [None] is nil. *)
Record TaskHandle : Type := {
  containerID : string;
  collectionInterval : Z;
  stateLock : RWMutex;
  taskConfig : option drivers.TaskConfig;
  procState : drivers.TaskState;
  startedAt : Time;
  logPointer : Time;
  completedAt : Time;
  exitResult : option drivers.ExitResult;
  containerStats : api.ContainerStats;
  removeContainerOnExit : bool;
  logStreamer : bool
}.

Definition set_collectionInterval (v : Z) (h : TaskHandle) : TaskHandle :=
  {| containerID := containerID h; collectionInterval := v;
     stateLock := stateLock h; taskConfig := taskConfig h;
     procState := procState h; startedAt := startedAt h;
     logPointer := logPointer h; completedAt := completedAt h;
     exitResult := exitResult h; containerStats := containerStats h;
     removeContainerOnExit := removeContainerOnExit h;
     logStreamer := logStreamer h |}.

Definition set_stateLock (v : RWMutex) (h : TaskHandle) : TaskHandle :=
  {| containerID := containerID h; collectionInterval := collectionInterval h;
     stateLock := v; taskConfig := taskConfig h;
     procState := procState h; startedAt := startedAt h;
     logPointer := logPointer h; completedAt := completedAt h;
     exitResult := exitResult h; containerStats := containerStats h;
     removeContainerOnExit := removeContainerOnExit h;
     logStreamer := logStreamer h |}.

Definition set_procState (v : drivers.TaskState) (h : TaskHandle) : TaskHandle :=
  {| containerID := containerID h; collectionInterval := collectionInterval h;
     stateLock := stateLock h; taskConfig := taskConfig h;
     procState := v; startedAt := startedAt h;
     logPointer := logPointer h; completedAt := completedAt h;
     exitResult := exitResult h; containerStats := containerStats h;
     removeContainerOnExit := removeContainerOnExit h;
     logStreamer := logStreamer h |}.

Definition set_logPointer (v : Time) (h : TaskHandle) : TaskHandle :=
  {| containerID := containerID h; collectionInterval := collectionInterval h;
     stateLock := stateLock h; taskConfig := taskConfig h;
     procState := procState h; startedAt := startedAt h;
     logPointer := v; completedAt := completedAt h;
     exitResult := exitResult h; containerStats := containerStats h;
     removeContainerOnExit := removeContainerOnExit h;
     logStreamer := logStreamer h |}.

Definition set_completedAt (v : Time) (h : TaskHandle) : TaskHandle :=
  {| containerID := containerID h; collectionInterval := collectionInterval h;
     stateLock := stateLock h; taskConfig := taskConfig h;
     procState := procState h; startedAt := startedAt h;
     logPointer := logPointer h; completedAt := v;
     exitResult := exitResult h; containerStats := containerStats h;
     removeContainerOnExit := removeContainerOnExit h;
     logStreamer := logStreamer h |}.

Definition set_exitResult (v : option drivers.ExitResult) (h : TaskHandle) : TaskHandle :=
  {| containerID := containerID h; collectionInterval := collectionInterval h;
     stateLock := stateLock h; taskConfig := taskConfig h;
     procState := procState h; startedAt := startedAt h;
     logPointer := logPointer h; completedAt := completedAt h;
     exitResult := v; containerStats := containerStats h;
     removeContainerOnExit := removeContainerOnExit h;
     logStreamer := logStreamer h |}.

Definition set_containerStats (v : api.ContainerStats) (h : TaskHandle) : TaskHandle :=
  {| containerID := containerID h; collectionInterval := collectionInterval h;
     stateLock := stateLock h; taskConfig := taskConfig h;
     procState := procState h; startedAt := startedAt h;
     logPointer := logPointer h; completedAt := completedAt h;
     exitResult := exitResult h; containerStats := v;
     removeContainerOnExit := removeContainerOnExit h;
     logStreamer := logStreamer h |}.

(** ** What a goroutine does, step by step *)

Inductive Field : Type :=
| FcontainerID
| FcollectionInterval
| FtaskConfig
| FprocState
| FstartedAt
| FlogPointer
| FcompletedAt
| FexitResult
| FcontainerStats
| FremoveContainerOnExit
| FlogStreamer.

(** "stateLock syncs access to all fields below": the fields declared after
    [stateLock] in the struct. *)
Definition guarded (f : Field) : bool :=
  match f with
  | FcontainerID | FcollectionInterval => false
  | _ => true
  end.

(** The CPU trackers belong to another package and keep state of their
    own; the [float64] values they return are kept as the calls that
    produce them. *)
Inductive Tracker : Type :=
| totalCPUStats
| userCPUStats
| systemCPUStats.

Inductive float64 : Type :=
| float64_of (n : Z)
| Percent (t : Tracker) (x : float64)
| TicksConsumed (t : Tracker) (x : float64).

Definition measuredCPUStats : list string := ["System Mode"; "Percent"].

Definition measuredMemStats : list string := ["Usage"; "Max Usage"].

(** [drivers.TaskResourceUsage], with its nested records flattened. *)
Record TaskResourceUsage : Type := {
  cpu_SystemMode : float64;
  cpu_TotalTicks : float64;
  cpu_Percent : float64;
  cpu_Measured : list string;
  mem_MaxUsage : Z;
  mem_Usage : Z;
  mem_RSS : Z;
  mem_Measured : list string;
  Timestamp : Time
}.

Inductive Op : Type :=
| OLock
| OUnlock
| ORLock
| ORUnlock
| ORead (f : Field)
| OWrite (f : Field)
| OLogger (level msg : string)
| OCall (fn : string)
| OTimer (d : Z)
| OSleep (d : Z)
| OContainerLogs (since : Time)
| OSendExit (result : option drivers.ExitResult)
| OCloseExit
| OSendStats (usage : TaskResourceUsage).

(** One log entry: the step and the handle as the step leaves it. *)
Record Entry : Type := {
  op : Op;
  after : TaskHandle
}.

(** The memory a goroutine of the handle works on, and its log (newest
    entry first). *)
Record World : Type := {
  handle : TaskHandle;
  log : list Entry
}.

Definition G (A : Type) : Type := M World A.

Definition step (o : Op) (f : TaskHandle -> TaskHandle) : G unit :=
  fun w =>
    let h' := f (handle w) in
    Done tt {| handle := h'; log := {| op := o; after := h' |} :: log w |}.

Definition emit (o : Op) : G unit := step o (fun h => h).

Definition read {A : Type} (f : Field) (proj : TaskHandle -> A) : G A :=
  fun w =>
    Done (proj (handle w))
         {| handle := handle w; log := {| op := ORead f; after := handle w |} :: log w |}.

Definition write (f : Field) (upd : TaskHandle -> TaskHandle) : G unit :=
  step (OWrite f) upd.

(** [h.stateLock.Lock()]: waits while anybody holds the mutex. *)
Definition Lock : G unit :=
  fun w =>
    let m := stateLock (handle w) in
    if writer m || negb (Nat.eqb (readers m) 0) then Blocked w
    else step OLock (set_stateLock {| writer := true; readers := 0 |}) w.

(** [h.stateLock.Unlock()]: a fatal error when no writer holds it. *)
Definition Unlock : G unit :=
  fun w =>
    let m := stateLock (handle w) in
    if writer m then step OUnlock (set_stateLock {| writer := false; readers := readers m |}) w
    else Panic w.

(** [h.stateLock.RLock()]: waits while a writer holds the mutex.  A
    writer that is itself waiting in [Lock] for the readers to leave
    keeps new readers out as well; this mutex has no record of such a
    writer, and there is none as long as no reader holds it: the
    properties of the readers are stated for that case. *)
Definition RLock : G unit :=
  fun w =>
    let m := stateLock (handle w) in
    if writer m then Blocked w
    else step ORLock (set_stateLock {| writer := false; readers := S (readers m) |}) w.

Definition RUnlock : G unit :=
  fun w =>
    let m := stateLock (handle w) in
    match readers m with
    | O => Panic w
    | S n => step ORUnlock (set_stateLock {| writer := writer m; readers := n |}) w
    end.

(** Dereference of a pointer read from the handle: nil panics. *)
Definition deref {A : Type} (p : option A) : G A :=
  match p with
  | Some a => ret a
  | None => panic
  end.

(** [h.exitResult.X = v]: loads the pointer and stores through it. *)
Definition store_exitResult (upd : drivers.ExitResult -> drivers.ExitResult) : G unit :=
  fun w =>
    match exitResult (handle w) with
    | None => Panic w
    | Some r => write FexitResult (set_exitResult (Some (upd r))) w
    end.

Definition logger (level msg : string) : G unit := emit (OLogger level msg).

(** What the other goroutines did to the handle while this one was
    suspended without holding the mutex; they left the mutex as it was. *)
Definition interfered (others : TaskHandle -> TaskHandle) (x : TaskHandle) : TaskHandle :=
  set_stateLock (stateLock x) (others x).

Definition meanwhile (others : TaskHandle -> TaskHandle) : G unit :=
  fun w => Done tt {| handle := interfered others (handle w); log := log w |}.

(** ** taskStatus and isRunning *)

(** The status returned holds the pointer [h.exitResult] itself; the
    [status_ExitResult] of the model is what it points to when
    [taskStatus] returns. *)

Definition taskStatus : G drivers.TaskStatus :=
  RLock ;;
  defer RUnlock
    (cfgp <- read FtaskConfig taskConfig ;;
     cfg <- deref cfgp ;;
     cfgp' <- read FtaskConfig taskConfig ;;
     cfg' <- deref cfgp' ;;
     st <- read FprocState procState ;;
     sa <- read FstartedAt startedAt ;;
     ca <- read FcompletedAt completedAt ;;
     er <- read FexitResult exitResult ;;
     ret {| drivers.status_ID := drivers.ID cfg;
            drivers.status_Name := drivers.Name cfg';
            drivers.State := st;
            drivers.StartedAt := sa;
            drivers.CompletedAt := ca;
            drivers.status_ExitResult := er;
            drivers.DriverAttributes := [] |}).

Definition isRunning : G bool :=
  RLock ;;
  defer RUnlock
    (st <- read FprocState procState ;;
     ret (drivers.TaskState_eqb st drivers.TaskStateRunning)).

(** [h.logger.X(msg, "container", h.containerID)] *)
Definition logger_c (level msg : string) : G unit :=
  _ <- read FcontainerID containerID ;;
  logger level msg.

Definition second : Z := 1000000000.

(** The case of a two-way [select] between cancellation and a timer. *)
Inductive Fired : Type :=
| ctx_Done
| timer_C.

(** ** runExitWatcher *)

(** One turn of the watcher loop as the environment shapes it: what the
    other goroutines did since the previous turn, and which [select] case
    fires if the turn gets that far. *)
Record WatcherRound : Type := {
  others : TaskHandle -> TaskHandle;
  fired : Fired
}.

(** [exitChannel <- result]: proceeds when the receiving side is there. *)
Definition send_exitChannel (receiver : bool) (result : option drivers.ExitResult) : G unit :=
  if receiver then emit (OSendExit result) else block.

Fixpoint exitWatcherLoop (rounds : list WatcherRound) : G unit :=
  match rounds with
  | [] => block
  | r :: rest =>
      meanwhile (others r) ;;
      running <- isRunning ;;
      if negb running then ret tt
      else match fired r with
           | ctx_Done => ret tt
           | timer_C => emit (OTimer second) ;; exitWatcherLoop rest
           end
  end.

(** [atExit] is what the other goroutines did between the loop's exit and
    the deferred function taking the lock. *)
Definition runExitWatcher (rounds : list WatcherRound)
    (atExit : TaskHandle -> TaskHandle) (receiver : bool) : G unit :=
  emit (OTimer 0) ;;
  logger_c "Debug" "Starting exitWatcher" ;;
  defer
    (logger_c "Debug" "Stopping exitWatcher" ;;
     meanwhile atExit ;;
     Lock ;;
     result <- read FexitResult exitResult ;;
     Unlock ;;
     send_exitChannel receiver result ;;
     emit OCloseExit)
    (exitWatcherLoop rounds).

(** ** runStatsEmitter *)

Record EmitterRound : Type := {
  e_others : TaskHandle -> TaskHandle;
  e_fired : Fired;
  e_now : Time;
  e_receiver : bool
}.

Fixpoint statsEmitterLoop (interval : Z) (rounds : list EmitterRound) : G unit :=
  match rounds with
  | [] => block
  | r :: rest =>
      match e_fired r with
      | ctx_Done => logger_c "Debug" "Stopping statsEmitter"
      | timer_C =>
          emit (OTimer interval) ;;
          meanwhile (e_others r) ;;
          Lock ;;
          let t := e_now r in
          cpuNano <- read FcontainerStats (fun h => api.CPUNano (containerStats h)) ;;
          let totalPercent := Percent totalCPUStats (float64_of cpuNano) in
          cpuSystemNano <- read FcontainerStats (fun h => api.CPUSystemNano (containerStats h)) ;;
          memLimit <- read FcontainerStats (fun h => api.MemLimit (containerStats h)) ;;
          memUsage <- read FcontainerStats (fun h => api.MemUsage (containerStats h)) ;;
          memUsage' <- read FcontainerStats (fun h => api.MemUsage (containerStats h)) ;;
          Unlock ;;
          let usage :=
            {| cpu_SystemMode := Percent systemCPUStats (float64_of cpuSystemNano);
               cpu_TotalTicks := TicksConsumed systemCPUStats totalPercent;
               cpu_Percent := totalPercent;
               cpu_Measured := measuredCPUStats;
               mem_MaxUsage := memLimit;
               mem_Usage := memUsage;
               mem_RSS := memUsage';
               mem_Measured := measuredMemStats;
               Timestamp := t |} in
          (if e_receiver r then emit (OSendStats usage) else block) ;;
          statsEmitterLoop interval rest
      end
  end.

Definition runStatsEmitter (interval : Z) (rounds : list EmitterRound) : G unit :=
  emit (OTimer (1 * second)) ;;
  logger_c "Debug" "Starting statsEmitter" ;;
  write FcollectionInterval (set_collectionInterval interval) ;;
  statsEmitterLoop interval rounds.

(** ** runLogStreamer *)

(** One turn of the streamer loop: whether the context is already
    cancelled at the [select], what [ContainerLogs] returns ([None] is nil:
    the stream ended cleanly) and what the clock reads after it. *)
Record LogRound : Type := {
  cancelled : bool;
  logsErr : option error;
  now : Time
}.

Fixpoint logStreamerLoop (init : bool) (since : Time) (rounds : list LogRound) : G unit :=
  match rounds with
  | [] => block
  | r :: rest =>
      if cancelled r then ret tt
      else
        (if negb init then emit (OSleep (2 * second)) else ret tt) ;;
        _ <- read FcontainerID containerID ;;
        emit (OContainerLogs since) ;;
        match logsErr r with
        | Some err =>
            logger "Warn" "Log stream was interrupted" ;;
            let since := now r in
            Lock ;;
            write FlogPointer (set_logPointer since) ;;
            Unlock ;;
            logStreamerLoop false since rest
        | None =>
            logger "Trace" "runLogStreamer loop exit"
        end
  end.

(** [openStdout] and [openStderr] are the errors of the two [os.OpenFile]
    calls. *)
Definition runLogStreamer (openStdout openStderr : option error)
    (rounds : list LogRound) : G unit :=
  cfgp <- read FtaskConfig taskConfig ;;
  cfg <- deref cfgp ;;
  emit (OCall "os.OpenFile") ;;
  match openStdout with
  | Some err => logger "Warn" "Unable to open stdout fifo"
  | None =>
      defer (emit (OCall "stdout.Close"))
        (cfgp' <- read FtaskConfig taskConfig ;;
         cfg' <- deref cfgp' ;;
         emit (OCall "os.OpenFile") ;;
         match openStderr with
         | Some err => logger "Warn" "Unable to open stderr fifo"
         | None =>
             defer (emit (OCall "stderr.Close"))
               (since <- read FlogPointer logPointer ;;
                logStreamerLoop true since rounds)
         end)
  end.

(** ** runContainerMonitor *)

(** What the monitor's [select] receives.  An error from the broadcaster
    comes with what the podman API answers to the questions the monitor
    then asks: the error of the direct [ContainerStats] probe ([None] is
    nil), the outcome of [ContainerInspect], and the clock. *)
Inductive MonitorEvent : Type :=
| driver_ctx_Done
| recv_statsChan (allStats : list (option api.ContainerStats))
| recv_errChan (err : option error) (statsErr : option error)
    (inspect : api.InspectContainerData + error) (now : Time).

(** The range loop over one batch: the first entry of this container is
    cached, then [break]. *)
Fixpoint cacheStats (allStats : list (option api.ContainerStats)) : G unit :=
  match allStats with
  | [] => ret tt
  | p :: rest =>
      stats <- deref p ;;
      cid <- read FcontainerID containerID ;;
      if String.eqb (api.ContainerID stats) cid
      then
        Lock ;;
        write FcontainerStats (set_containerStats stats) ;;
        Unlock
      else cacheStats rest
  end.

Definition isGone (statsErr : error) : bool :=
  if errors_Is statsErr ContainerNotFound then true
  else if errors_Is statsErr ContainerWrongState then true
  else false.

Definition oomError : error := errors_New "podman container killed by OOM killer".

Definition exitCodeError (cid : string) (err : error) : error :=
  fmt_Errorf_w
    ("Driver was unable to get the exit code. " ++ cid ++ ": " ++ Error err) err.

(** The container was stopped: get exit code and other post mortem
    infos, and move to [TaskStateExited]. *)
Definition containerDied (inspect : api.InspectContainerData + error) (now : Time) : G unit :=
  logger_c "Debug" "Container is not running anymore" ;;
  _ <- read FcontainerID containerID ;;
  emit (OCall "ContainerInspect") ;;
  Lock ;;
  write FcompletedAt (set_completedAt now) ;;
  match inspect with
  | inr err =>
      cid <- read FcontainerID containerID ;;
      store_exitResult (drivers.set_Err (Some (exitCodeError cid err))) ;;
      logger_c "Error" "Failed to inspect stopped container, can not get exit code" ;;
      store_exitResult (drivers.set_Signal 0)
  | inl inspectData =>
      let st := api.State inspectData in
      store_exitResult (drivers.set_ExitCode (api.ExitCode st)) ;;
      (if (0 <? Z.of_nat (String.length (api.Error st)))%Z
       then
         store_exitResult (drivers.set_Err (Some (errors_New (api.Error st)))) ;;
         _ <- read FcontainerID containerID ;;
         _ <- read FexitResult exitResult ;;
         logger "Error" "Container error"
       else ret tt) ;;
      write FcompletedAt (set_completedAt (api.FinishedAt st)) ;;
      (if api.OOMKilled st
       then
         store_exitResult (drivers.set_OOMKilled true) ;;
         store_exitResult (drivers.set_Err (Some oomError)) ;;
         logger_c "Error" "podman container killed by OOM killer"
       else ret tt)
  end ;;
  write FprocState (set_procState drivers.TaskStateExited) ;;
  Unlock.

Fixpoint containerMonitorLoop (events : list MonitorEvent) : G unit :=
  match events with
  | [] => block
  | driver_ctx_Done :: _ => ret tt
  | recv_statsChan allStats :: rest =>
      cacheStats allStats ;;
      containerMonitorLoop rest
  | recv_errChan err statsErr inspect now :: rest =>
      logger "Warn" "Error from container stats broadcaster" ;;
      _ <- read FcontainerID containerID ;;
      emit (OCall "ContainerStats") ;;
      match statsErr with
      | Some statsErr =>
          if isGone statsErr
          then containerDied inspect now
          else
            logger "Debug" "Could not get container stats, unknown error" ;;
            containerMonitorLoop rest
      | None => containerMonitorLoop rest
      end
  end.

(** [broadcaster] tells whether [GetStatsBroadcaster] returns one. *)
Definition runContainerMonitor (broadcaster : bool) (events : list MonitorEvent) : G unit :=
  emit (OCall "GetStatsBroadcaster") ;;
  if negb broadcaster
  then logger_c "Warn" "No container stats broadcaster available, not starting monitor"
  else
    emit (OCall "Subscribe") ;;
    containerMonitorLoop events.

(** ** The container stats broadcaster *)

Module broadcaster.

(** A channel value: nil, or a reference to the channel made by the
    [id]-th [make] of its element type. *)
Inductive chan : Type :=
| chan_nil
| chan_at (id : nat).

Definition chan_eqb (a b : chan) : bool :=
  match a, b with
  | chan_nil, chan_nil => true
  | chan_at i, chan_at j => Nat.eqb i j
  | _, _ => false
  end.

(** The listeners of one element type with the channels behind them:
    the slice of the broadcaster, the [close] calls done so far and the
    sends that went through (both newest first).  The code for stats
    listeners and for error listeners is the same text twice; it is
    embedded once, over [Hub T]. *)
Record Hub (T : Type) : Type := {
  listeners : list chan;
  closed : list chan;
  delivered : list (chan * T)
}.
Arguments listeners {T} _.
Arguments closed {T} _.
Arguments delivered {T} _.

Definition is_closed {T : Type} (c : chan) (s : Hub T) : bool :=
  existsb (chan_eqb c) (closed s).

(** [close(c)]: panics on nil and on a channel already closed. *)
Definition close {T : Type} (c : chan) : M (Hub T) unit :=
  fun s =>
    match c with
    | chan_nil => Panic s
    | chan_at _ =>
        if is_closed c s then Panic s
        else Done tt {| listeners := listeners s;
                        closed := c :: closed s;
                        delivered := delivered s |}
    end.

(** [select { case listener <- v: default: }].  [ready] tells which
    channels have a receiver waiting at that moment.  A nil channel is
    never ready; a send on a closed channel is always chosen, and
    panics. *)
Definition trySend {T : Type} (ready : chan -> bool) (listener : chan) (v : T)
  : M (Hub T) unit :=
  fun s =>
    match listener with
    | chan_nil => Done tt s
    | chan_at _ =>
        if is_closed listener s then Panic s
        else if ready listener
             then Done tt {| listeners := listeners s;
                             closed := closed s;
                             delivered := (listener, v) :: delivered s |}
             else Done tt s
    end.

(** [for _, listener := range c.listeners { select ... }] *)
Fixpoint broadcast {T : Type} (ready : chan -> bool) (ls : list chan) (v : T)
  : M (Hub T) unit :=
  match ls with
  | [] => ret tt
  | listener :: rest =>
      trySend ready listener v ;;
      broadcast ready rest v
  end.

(** [c.listeners = append(c.listeners, l)] *)
Definition addListener {T : Type} (l : chan) : M (Hub T) unit :=
  fun s =>
    Done tt {| listeners := listeners s ++ [l];
               closed := closed s;
               delivered := delivered s |}.

(** [c.listeners = append(c.listeners[:i], c.listeners[i+1:]...)] *)
Definition cutListener {T : Type} (i : nat) : M (Hub T) unit :=
  fun s =>
    Done tt {| listeners := firstn i (listeners s) ++ skipn (S i) (listeners s);
               closed := closed s;
               delivered := delivered s |}.

(** The range loop of a removal over the slice [ls] as it was when the
    loop began, from index [i]: the first listener equal to the handle
    is cut out and closed, then [break]. *)
Fixpoint removeFrom {T : Type} (i : nat) (ls : list chan) (remove : chan)
  : M (Hub T) unit :=
  match ls with
  | [] => ret tt
  | listener :: rest =>
      if chan_eqb listener remove
      then cutListener i ;; close listener
      else removeFrom (S i) rest remove
  end.

Definition removeListener {T : Type} (remove : chan) : M (Hub T) unit :=
  fun s => removeFrom 0 (listeners s) remove s.

(** The deferred function of [serve], for one of the two slices. *)
Fixpoint closeAll {T : Type} (ls : list chan) : M (Hub T) unit :=
  match ls with
  | [] => ret tt
  | l :: rest =>
      (if negb (chan_eqb l chan_nil) then close l else ret tt) ;;
      closeAll rest
  end.

Definition Batch : Type := list (option api.ContainerStats).

(** [containerStatsBroadcaster] with the channels of its listeners. *)
Record State : Type := {
  statsHub : Hub Batch;
  errHub : Hub (option error)
}.

Definition statsListeners (b : State) : list chan := listeners (statsHub b).

Definition errListeners (b : State) : list chan := listeners (errHub b).

Definition onStats {A : Type} (m : M (Hub Batch) A) : M State A :=
  fun b =>
    match m (statsHub b) with
    | Done a s => Done a {| statsHub := s; errHub := errHub b |}
    | Panic s => Panic {| statsHub := s; errHub := errHub b |}
    | Blocked s => Blocked {| statsHub := s; errHub := errHub b |}
    end.

Definition onErrs {A : Type} (m : M (Hub (option error)) A) : M State A :=
  fun b =>
    match m (errHub b) with
    | Done a s => Done a {| statsHub := statsHub b; errHub := s |}
    | Panic s => Panic {| statsHub := statsHub b; errHub := s |}
    | Blocked s => Blocked {| statsHub := statsHub b; errHub := s |}
    end.

(** [NewContainerStatsBroadcaster]: both slices empty. *)
Definition NewContainerStatsBroadcaster : State :=
  {| statsHub := {| listeners := []; closed := []; delivered := [] |};
     errHub := {| listeners := []; closed := []; delivered := [] |} |}.

(** What the [select] of [serve] receives, one constructor per case. *)
Inductive Msg : Type :=
| ctx_Done
| addStatsListener (newStatsListener : chan)
| addErrListener (newErrListener : chan)
| removeStatsListener (ch : chan)
| removeErrListener (errCh : chan)
| statsChan (stats : Batch) (ready : chan -> bool)
| errStatsChan (err : option error) (ready : chan -> bool).

(** One turn of the [for { select ... }] of [serve]. *)
Definition handleMsg (m : Msg) : M State unit :=
  match m with
  | ctx_Done => ret tt
  | addStatsListener l => onStats (addListener l)
  | addErrListener l => onErrs (addListener l)
  | removeStatsListener ch => onStats (removeListener ch)
  | removeErrListener errCh => onErrs (removeListener errCh)
  | statsChan stats ready =>
      onStats (fun s => broadcast ready (listeners s) stats s)
  | errStatsChan err ready =>
      onErrs (fun s => broadcast ready (listeners s) err s)
  end.

Fixpoint serveLoop (msgs : list Msg) : M State unit :=
  match msgs with
  | [] => block
  | ctx_Done :: _ => ret tt
  | m :: rest => handleMsg m ;; serveLoop rest
  end.

Definition serve (msgs : list Msg) : M State unit :=
  defer
    (onStats (fun s => closeAll (listeners s) s) ;;
     onErrs (fun s => closeAll (listeners s) s))
    (serveLoop msgs).

(** [Subscribe]: two fresh channels ([n] counts the subscriptions made
    so far), announced to [serve] one after the other. *)
Definition Subscribe (n : nat) : (chan * chan) * list Msg :=
  let newStatsListener := chan_at n in
  let newErrListener := chan_at n in
  ((newStatsListener, newErrListener),
   [addStatsListener newStatsListener; addErrListener newErrListener]).

Definition CancelSubscription (ch errCh : chan) : list Msg :=
  [removeStatsListener ch; removeErrListener errCh].

(** No listener is nil, closed or listed twice. *)
Definition hub_ok {T : Type} (s : Hub T) : Prop :=
  NoDup (listeners s) /\
  ~ In chan_nil (listeners s) /\
  (forall c, In c (listeners s) -> is_closed c s = false).

Definition state_ok (b : State) : Prop :=
  hub_ok (statsHub b) /\ hub_ok (errHub b).

End broadcaster.

(** ** The direct probe of the api package *)

(** What [c.Get] hands back: the status code and what [io.ReadAll] makes
    of the body. *)
Record Response : Type := {
  StatusCode : Z;
  Body : string + error
}.

(** [%d] of [fmt]. *)
Definition itoa (n : Z) : string :=
  DecimalString.NilZero.string_of_int (Z.to_int n).

(** [defer ignoreClose(res.Body)]; the state is the list of the calls
    made, newest first. *)
Definition ignoreClose : M (list string) unit :=
  fun calls => Done tt ("Body.Close" :: calls).

Section Probe.

(** [Stats] and [encoding/json] are not of this file: the decoder is
    given by what it leaves in [errResponse.Cause] (the code drops its
    error) and by what [json.Unmarshal(body, &stats)] returns. *)
Variable Stats : Type.
Variable zeroStats : Stats.
Variable unmarshalCause : string -> string.
Variable unmarshalStats : string -> Stats * option error.

(** The method [ContainerStats] of [API], for the outcome [get] of
    [c.Get]. *)
Definition API_ContainerStats (get : Response + error)
  : M (list string) (Stats * option error) :=
  let stats := zeroStats in
  match get with
  | inr err => ret (stats, Some err)
  | inl res =>
      defer ignoreClose
        (if (StatusCode res =? 404)%Z then ret (stats, Some ContainerNotFound)
         else if (StatusCode res =? 409)%Z then ret (stats, Some ContainerWrongState)
         else if negb (StatusCode res =? 200)%Z
         then ret (stats,
                   Some (errors_New ("cannot get stats of container, status code: "
                                     ++ itoa (StatusCode res))))
         else
           match Body res with
           | inr err => ret (stats, Some err)
           | inl body =>
               if (String.length body =? 0)%nat then ret (stats, Some ContainerNotFound)
               else if String.eqb (unmarshalCause body) "container is stopped"
               then ret (stats, Some ContainerNotFound)
               else
                 let (stats', err) := unmarshalStats body in
                 match err with
                 | Some err => ret (stats', Some err)
                 | None => ret (stats', None)
                 end
           end)
  end.

End Probe.

(** ** The poller of ContainerStatsStream *)

Module poller.

(** What one poll gives: [c.Get] fails, the decoder fails, or a batch
    is decoded. *)
Inductive Answer : Type :=
| get_failed (err : error)
| decode_failed (err : error)
| decoded (stats : broadcaster.Batch).

(** What the [select] of the goroutine receives.  A tick comes with the
    answer to the poll and with what the receiving side does meanwhile:
    whether it has taken what was buffered in [errChan], and whether it
    is waiting on [statsChan] at the inner [select]. *)
Inductive Event : Type :=
| ctx_Done
| timer_C (answer : Answer) (errTaken statsReady : bool).

(** The two channels [ContainerStatsStream] makes and the calls of the
    goroutine.  [errChan] has a buffer of one value: [pending] tells
    whether it is full.  [errs] and [batches] are the values sent so far,
    [closed] the channels closed and [calls] the other calls, all newest
    first. *)
Record State : Type := {
  pending : bool;
  errs : list error;
  batches : list broadcaster.Batch;
  closed : list string;
  calls : list string
}.

Definition start : State :=
  {| pending := false; errs := []; batches := []; closed := [];
     calls := ["time.NewTicker"] |}.

Definition call (fn : string) : M State unit :=
  fun s => Done tt {| pending := pending s; errs := errs s; batches := batches s;
                      closed := closed s; calls := fn :: calls s |}.

(** [close(c)]: panics on a closed channel. *)
Definition close (c : string) : M State unit :=
  fun s =>
    if existsb (String.eqb c) (closed s) then Panic s
    else Done tt {| pending := pending s; errs := errs s; batches := batches s;
                    closed := c :: closed s; calls := calls s |}.

(** [errChan <- err]: goes into the buffer when there is room, and
    waits otherwise. *)
Definition send_errChan (errTaken : bool) (err : error) : M State unit :=
  fun s =>
    if existsb (String.eqb "errChan") (closed s) then Panic s
    else if pending s && negb errTaken then Blocked s
    else Done tt {| pending := true; errs := err :: errs s; batches := batches s;
                    closed := closed s; calls := calls s |}.

(** [select { case statsChan <- stats.Stats: default: }] *)
Definition trySend_statsChan (statsReady : bool) (stats : broadcaster.Batch) : M State unit :=
  fun s =>
    if existsb (String.eqb "statsChan") (closed s) then Panic s
    else if statsReady
         then Done tt {| pending := pending s; errs := errs s; batches := stats :: batches s;
                         closed := closed s; calls := calls s |}
         else Done tt s.

Fixpoint loop (events : list Event) : M State unit :=
  match events with
  | [] => block
  | ctx_Done :: _ =>
      call "timer.Stop" ;;
      close "statsChan" ;;
      close "errChan"
  | timer_C answer errTaken statsReady :: rest =>
      call "timer.Reset" ;;
      call "c.Get" ;;
      match answer with
      | get_failed err =>
          call "logger.Error: Error getting container stats" ;;
          send_errChan errTaken err ;;
          loop rest
      | decode_failed err =>
          call "dec.Decode" ;;
          call "logger.Error: Error decoding container stats" ;;
          send_errChan errTaken err ;;
          loop rest
      | decoded stats =>
          call "dec.Decode" ;;
          trySend_statsChan statsReady stats ;;
          loop rest
      end
  end.

(** The errors the polls before the cancellation run into, and the
    batches decoded while a receiver was waiting, oldest first. *)
Fixpoint errorsOf (events : list Event) : list error :=
  match events with
  | [] => []
  | ctx_Done :: _ => []
  | timer_C (get_failed err) _ _ :: rest => err :: errorsOf rest
  | timer_C (decode_failed err) _ _ :: rest => err :: errorsOf rest
  | timer_C (decoded _) _ _ :: rest => errorsOf rest
  end.

Fixpoint takenOf (events : list Event) : list broadcaster.Batch :=
  match events with
  | [] => []
  | ctx_Done :: _ => []
  | timer_C (decoded stats) _ true :: rest => stats :: takenOf rest
  | timer_C _ _ _ :: rest => takenOf rest
  end.

End poller.

(** ** Reading a run *)

(** A goroutine started on handle [h] with an empty log. *)
Definition start (h : TaskHandle) : World := {| handle := h; log := [] |}.

(** The steps of a run, oldest first. *)
Definition trace {A : Type} (r : Result World A) : list Entry :=
  rev (log (state_of r)).

Definition ops {A : Type} (r : Result World A) : list Op :=
  map op (trace r).

(** Every point of a run started on [h0]: the handle before the first
    step and after each step. *)
Definition states {A : Type} (h0 : TaskHandle) (r : Result World A) : list TaskHandle :=
  h0 :: map after (trace r).

Definition isState (s : drivers.TaskState) (h : TaskHandle) : bool :=
  drivers.TaskState_eqb (procState h) s.

(** How many times a list of successive handle states goes from
    [TaskStateRunning] to [TaskStateExited]. *)
Fixpoint transitions (hs : list TaskHandle) : nat :=
  match hs with
  | a :: (b :: _) as rest =>
      (if isState drivers.TaskStateRunning a && isState drivers.TaskStateExited b
       then 1 else 0)%nat + transitions rest
  | _ => 0%nat
  end.

(** What went over the exit channel: the sends and the close, in order. *)
Definition exitChannelOps (os : list Op) : list Op :=
  filter (fun o => match o with OSendExit _ | OCloseExit => true | _ => false end) os.

(** The [since] arguments of the [ContainerLogs] calls, in order. *)
Fixpoint sinces (os : list Op) : list Time :=
  match os with
  | [] => []
  | OContainerLogs since :: rest => since :: sinces rest
  | _ :: rest => sinces rest
  end.

(** The lock a goroutine holds itself. *)
Inductive Held : Type :=
| NotHeld
| HeldShared
| HeldExclusive.

(** The discipline of [stateLock] on the steps of one goroutine: a
    guarded field is read only while the goroutine holds the mutex, and
    written only while it holds it exclusively. *)
Fixpoint disciplined (held : Held) (os : list Op) : bool :=
  match os with
  | [] => true
  | OLock :: rest => disciplined HeldExclusive rest
  | ORLock :: rest => disciplined HeldShared rest
  | OUnlock :: rest => disciplined NotHeld rest
  | ORUnlock :: rest => disciplined NotHeld rest
  | ORead f :: rest =>
      (negb (guarded f) || match held with NotHeld => false | _ => true end)
      && disciplined held rest
  | OWrite f :: rest =>
      (negb (guarded f) || match held with HeldExclusive => true | _ => false end)
      && disciplined held rest
  | _ :: rest => disciplined held rest
  end.

(** ** Assertions on runs *)

(** [hoare P g Q E]: started in a world satisfying [P], the goroutine [g]
    returns in a world satisfying [Q], or panics or is suspended in one
    satisfying [E]. *)
Definition hoare {A : Type} (P : World -> Prop) (g : G A)
    (Q : A -> World -> Prop) (E : World -> Prop) : Prop :=
  forall w, P w ->
    match g w with
    | Done a w' => Q a w'
    | Panic w' => E w'
    | Blocked w' => E w'
    end.

(** [s] shows the status fields of [b]. *)
Definition sameStatus (b s : TaskHandle) : Prop :=
  taskConfig s = taskConfig b /\ procState s = procState b /\
  startedAt s = startedAt b /\ completedAt s = completedAt b /\
  exitResult s = exitResult b.

(** A state of the monitor before it has left [b]'s task state: outside
    the critical sections every status field is still [b]'s. *)
Definition beforeExit (b s : TaskHandle) : Prop :=
  taskConfig s = taskConfig b /\ procState s = procState b /\
  startedAt s = startedAt b /\
  (writer (stateLock s) = false ->
   completedAt s = completedAt b /\ exitResult s = exitResult b).

Definition afterExit (b s : TaskHandle) : Prop :=
  taskConfig s = taskConfig b /\ startedAt s = startedAt b /\
  procState s = drivers.TaskStateExited /\ exitResult s <> None.

Definition quietly (b : TaskHandle) (w : World) : Prop :=
  Forall (fun e => beforeExit b (after e)) (log w).

Definition at_ (b : TaskHandle) (P : TaskHandle -> Prop) (w : World) : Prop :=
  P (handle w) /\ quietly b w.

(** Between two critical sections. *)
Definition restingH (b s : TaskHandle) : Prop :=
  stateLock s = unlockedMutex /\ sameStatus b s.

(** Inside the critical section of the death path, before and after the
    first store through [h.exitResult]. *)
Definition dyingH (b s : TaskHandle) : Prop :=
  stateLock s = {| writer := true; readers := 0 |} /\
  taskConfig s = taskConfig b /\ procState s = procState b /\
  startedAt s = startedAt b.

Definition dying1H (b s : TaskHandle) : Prop :=
  dyingH b s /\ exitResult s <> None.

(** The run has made the transition: its last two steps are the write of
    [procState] and the unlock, and everything before is [beforeExit]. *)
Definition exited (b : TaskHandle) {A : Type} (r : Result World A) : Prop :=
  exists a w' eU eE l,
    r = Done a w' /\ log w' = eU :: eE :: l /\ handle w' = after eU /\
    Forall (fun e => beforeExit b (after e)) l /\
    afterExit b (after eE) /\ afterExit b (after eU) /\
    op eE = OWrite FprocState /\ op eU = OUnlock /\
    writer (stateLock (after eE)) = true /\
    stateLock (after eU) = unlockedMutex.

Definition monitored (b : TaskHandle) {A : Type} (r : Result World A) : Prop :=
  quietly b (state_of r) \/ exited b r.

(** The snapshot [taskStatus] takes of a handle. *)
Definition snapshot (cfg : drivers.TaskConfig) (s : TaskHandle) : drivers.TaskStatus :=
  {| drivers.status_ID := drivers.ID cfg;
     drivers.status_Name := drivers.Name cfg;
     drivers.State := procState s;
     drivers.StartedAt := startedAt s;
     drivers.CompletedAt := completedAt s;
     drivers.status_ExitResult := exitResult s;
     drivers.DriverAttributes := [] |}.

(** A handle as the driver creates it for a started task: running, with
    an allocated, still empty exit result. *)
Definition handle0 : TaskHandle :=
  {| containerID := "c1";
     collectionInterval := 0;
     stateLock := unlockedMutex;
     taskConfig := Some {| drivers.ID := "task1"; drivers.Name := "web";
                           drivers.StdoutPath := "/alloc/web.stdout";
                           drivers.StderrPath := "/alloc/web.stderr" |};
     procState := drivers.TaskStateRunning;
     startedAt := 100;
     logPointer := 100;
     completedAt := 0;
     exitResult := Some drivers.zeroExitResult;
     containerStats := api.zeroContainerStats;
     removeContainerOnExit := false;
     logStreamer := true |}.

(** A broadcast error answered by "no such container" on the direct
    probe, with [ContainerInspect] failing as well. *)
Definition deathEvents : list MonitorEvent :=
  [recv_errChan None (Some ContainerNotFound) (inr (errors_New "inspect failed")) 500].

(** What a run needs to know of a handle to tell its exit result. *)
Definition facts (m : RWMutex) (r : option drivers.ExitResult) (c : Time)
    (p : drivers.TaskState) (cid : string) (h : TaskHandle) : Prop :=
  stateLock h = m /\ exitResult h = r /\ completedAt h = c /\
  procState h = p /\ containerID h = cid.

Definition exactly (P : TaskHandle -> Prop) : World -> Prop :=
  fun w => P (handle w).

Definition nowhere : World -> Prop := fun _ => False.

Definition lockedMutex : RWMutex := {| writer := true; readers := 0 |}.

(** The exit result is allocated and the mutex is [m]. *)
Definition allocated (m : RWMutex) (h : TaskHandle) : Prop :=
  stateLock h = m /\ exitResult h <> None.

(** [waits P g Q B]: started in a world satisfying [P], the goroutine [g]
    does not panic; it returns in a world satisfying [Q] or is suspended
    in one satisfying [B]. *)
Definition waits {A : Type} (P : World -> Prop) (g : G A)
    (Q : A -> World -> Prop) (B : World -> Prop) : Prop :=
  forall w, P w ->
    match g w with
    | Done a w' => Q a w'
    | Panic _ => False
    | Blocked w' => B w'
    end.

(** The exit channel operations logged so far, newest first. *)
Definition channelLog (w : World) : list Op :=
  exitChannelOps (map op (log w)).

(** The goroutine is at handle [x], outside any critical section, and
    the exit channel log is [cl]. *)
Definition standing (x : TaskHandle) (cl : list Op) (w : World) : Prop :=
  handle w = x /\ stateLock x = unlockedMutex /\ channelLog w = cl.

(** The handle the watcher stands at after the turns [rounds]. *)
Fixpoint seen (x : TaskHandle) (rounds : list WatcherRound) : TaskHandle :=
  match rounds with
  | [] => x
  | r :: rest => seen (interfered (others r) x) rest
  end.

(** In each of the turns [rounds] the watcher found the task running and
    the timer fired: it is still in its loop. *)
Fixpoint keptWatching (x : TaskHandle) (rounds : list WatcherRound) : Prop :=
  match rounds with
  | [] => True
  | r :: rest =>
      isState drivers.TaskStateRunning (interfered (others r) x) = true /\
      fired r = timer_C /\
      keptWatching (interfered (others r) x) rest
  end.

(** One cancellation while the container is running. *)
Definition cancelRound : WatcherRound :=
  {| others := fun h => h; fired := ctx_Done |}.

(** The goroutine holds the mutex of handle [x] for writing. *)
Definition holding (x : TaskHandle) (cl : list Op) (w : World) : Prop :=
  handle w = set_stateLock lockedMutex x /\ stateLock x = unlockedMutex /\
  channelLog w = cl.

(** A [ContainerLogs] call passes the cursor as the handle holds it. *)
Definition usesCursor (e : Entry) : Prop :=
  match op e with
  | OContainerLogs since => since = logPointer (after e)
  | _ => True
  end.

(** The log of a log streamer started with cursor [p0], for an order [R]
    on clock readings: newer entries carry later cursors, all between
    [p0] and the cursor of the handle. *)
Definition cursorLog (R : Time -> Time -> Prop) (p0 : Time) (w : World) : Prop :=
  StronglySorted (fun e1 e2 => R (logPointer (after e2)) (logPointer (after e1))) (log w) /\
  Forall (fun e => R p0 (logPointer (after e)) /\
                   R (logPointer (after e)) (logPointer (handle w))) (log w) /\
  R p0 (logPointer (handle w)) /\
  Forall usesCursor (log w).

(** In the loop, between two steps: the local [since] is the cursor of the
    handle and [uses] are the cursors passed so far, newest first. *)
Definition streamingAt (m : RWMutex) (R : Time -> Time -> Prop) (p0 cur : Time)
    (uses : list Time) (w : World) : Prop :=
  stateLock (handle w) = m /\ logPointer (handle w) = cur /\
  sinces (map op (log w)) = uses /\ cursorLog R p0 w.

Definition streaming : (Time -> Time -> Prop) -> Time -> Time -> list Time -> World -> Prop :=
  streamingAt unlockedMutex.


(** Two interruptions, then the stream ends. *)
Definition twoInterruptions : list LogRound :=
  [{| cancelled := false; logsErr := Some (errors_New "EOF"); now := 200 |};
   {| cancelled := false; logsErr := Some (errors_New "EOF"); now := 205 |};
   {| cancelled := false; logsErr := None; now := 300 |}].

(** A broadcaster with three subscribers. *)
Definition threeListeners : broadcaster.State :=
  {| broadcaster.statsHub :=
       {| broadcaster.listeners :=
            [broadcaster.chan_at 0; broadcaster.chan_at 1; broadcaster.chan_at 2];
          broadcaster.closed := [];
          broadcaster.delivered := [] |};
     broadcaster.errHub :=
       {| broadcaster.listeners :=
            [broadcaster.chan_at 0; broadcaster.chan_at 1; broadcaster.chan_at 2];
          broadcaster.closed := [];
          broadcaster.delivered := [] |} |}.

(** Only the second subscriber is waiting on its channels. *)
Definition onlySecondReady (c : broadcaster.chan) : bool :=
  broadcaster.chan_eqb c (broadcaster.chan_at 1).

(** The goroutine only adds to its log. *)
Definition growing {A : Type} (g : G A) : Prop :=
  forall w, exists new, log (state_of (g w)) = new ++ log w.

(** The lock a goroutine holds after one more step. *)
Definition nextHeld (held : Held) (o : Op) : Held :=
  match o with
  | OLock => HeldExclusive
  | ORLock => HeldShared
  | OUnlock | ORUnlock => NotHeld
  | _ => held
  end.

(** The steps logged so far, oldest first, respect the discipline and
    leave the goroutine holding [held]. *)
Definition orderly (held : Held) (w : World) : Prop :=
  disciplined NotHeld (rev (map op (log w))) = true /\
  fold_left nextHeld (rev (map op (log w))) NotHeld = held.

Definition orderlyEnd (w : World) : Prop := exists held, orderly held w.

(** The context is cancelled before the first turn of the streamer. *)
Definition cancelledAtOnce : list LogRound :=
  [{| cancelled := true; logsErr := None; now := 200 |}].

(** What [Subscribe] guarantees of the channels it announces: they
    were just made, so they are not nil, not listed and not closed. *)
Definition freshListener (m : broadcaster.Msg) (b : broadcaster.State) : Prop :=
  match m with
  | broadcaster.addStatsListener l =>
      l <> broadcaster.chan_nil /\ ~ In l (broadcaster.statsListeners b) /\
      broadcaster.is_closed l (broadcaster.statsHub b) = false
  | broadcaster.addErrListener l =>
      l <> broadcaster.chan_nil /\ ~ In l (broadcaster.errListeners b) /\
      broadcaster.is_closed l (broadcaster.errHub b) = false
  | _ => True
  end.

(** ** More assertions *)

(** The chain [errors.Is] walks: an error and, through [%w], what it
    wraps. *)
Fixpoint unwrapChain (e : error) : list error :=
  e :: match e with
       | fmt_Errorf_w _ wrapped => unwrapChain wrapped
       | _ => []
       end.

(** The event makes the monitor take the death path. *)
Definition confirmsDeath (ev : MonitorEvent) : bool :=
  match ev with
  | recv_errChan _ (Some statsErr) _ _ => isGone statsErr
  | _ => false
  end.

(** [s] is [b] but for the mutex and the cached stats. *)
Definition untouched (b s : TaskHandle) : Prop :=
  containerID s = containerID b /\ collectionInterval s = collectionInterval b /\
  taskConfig s = taskConfig b /\ procState s = procState b /\
  startedAt s = startedAt b /\ logPointer s = logPointer b /\
  completedAt s = completedAt b /\ exitResult s = exitResult b /\
  removeContainerOnExit s = removeContainerOnExit b /\ logStreamer s = logStreamer b.

(** The monitor is between two critical sections and every step so far
    left the handle [untouched]. *)
Definition calm (b : TaskHandle) (w : World) : Prop :=
  stateLock (handle w) = unlockedMutex /\ untouched b (handle w) /\
  Forall (fun e => untouched b (after e)) (log w).

(** Stats of this container and of another one. *)
Definition statsOfC1 : api.ContainerStats :=
  {| api.ContainerID := "c1"; api.CPUNano := 7; api.CPUSystemNano := 3;
     api.MemUsage := 4096; api.MemLimit := 8192 |}.

Definition statsOfC2 : api.ContainerStats :=
  {| api.ContainerID := "c2"; api.CPUNano := 9; api.CPUSystemNano := 1;
     api.MemUsage := 1024; api.MemLimit := 2048 |}.

(** A batch, a broadcast error whose probe fails for another reason, one
    whose probe succeeds, then the driver shuts down. *)
Definition quietEvents : list MonitorEvent :=
  [recv_statsChan [Some statsOfC2; Some statsOfC1];
   recv_errChan (Some (errors_New "EOF")) (Some (errors_New "connection refused"))
                (inr (errors_New "unused")) 500;
   recv_errChan (Some (errors_New "EOF")) None (inr (errors_New "unused")) 600;
   driver_ctx_Done].

(** The inspected state of a container that ended by itself with code 3. *)
Definition exitedWith3 : api.InspectContainerData :=
  {| api.State := {| api.ExitCode := 3; api.Error := ""; api.FinishedAt := 450;
                     api.OOMKilled := false |} |}.

(** The watcher's turn in which it sees what the monitor fed with
    [deathEvents] left of [handle0]. *)
Definition afterDeathRound : WatcherRound :=
  {| others := fun _ => handle (state_of (runContainerMonitor true deathEvents (start handle0)));
     fired := timer_C |}.

(** The task never got to run. *)
Definition unknownRound : WatcherRound :=
  {| others := set_procState drivers.TaskStateUnknown; fired := timer_C |}.

(** The calls to the collaborators and the pauses among the steps [os]. *)
Definition callsOf (os : list Op) : list string :=
  flat_map (fun o => match o with OCall fn => [fn] | _ => [] end) os.

Definition sleepsOf (os : list Op) : list Z :=
  flat_map (fun o => match o with OSleep d => [d] | _ => [] end) os.

(** The turn in which the streamer leaves its loop: the context is
    cancelled, or [ContainerLogs] ends without error. *)
Definition lastTurn (r : LogRound) : bool :=
  cancelled r || match logsErr r with None => true | Some _ => false end.

(** The streamer is outside any critical section, its task config is
    [cfg] and the calls logged so far are [calls], newest first. *)
Definition opened (cfg : drivers.TaskConfig) (calls : list string) (w : World) : Prop :=
  stateLock (handle w) = unlockedMutex /\ taskConfig (handle w) = Some cfg /\
  callsOf (map op (log w)) = calls.

(** The pauses and the [ContainerLogs] calls among the steps [os], in
    order. *)
Definition rhythm (os : list Op) : list Op :=
  filter (fun o => match o with OSleep _ | OContainerLogs _ => true | _ => false end) os.

(** Calls with the cursors [cs], one after the other, with a pause of
    two seconds before each of them but the first. *)
Definition paces (cs : list Time) : list Op :=
  match cs with
  | [] => []
  | c :: rest =>
      OContainerLogs c
      :: flat_map (fun c' => [OSleep (2 * second); OContainerLogs c']) rest
  end.

(** The pauses and calls so far are [paces] of the cursors passed,
    followed by [tail]; [init] tells whether no call was made yet. *)
Definition pacing (init : bool) (tail : list Op) (w : World) : Prop :=
  rhythm (rev (map op (log w))) = paces (sinces (rev (map op (log w)))) ++ tail /\
  (sinces (rev (map op (log w))) = [] <-> init = true).

Definition paced (w : World) : Prop :=
  exists init, pacing init [] w.

(** What the stats emitter may log, for the clock readings [nows] and the
    collection interval [interval]: timers of one second or of the
    interval, no write but that of [collectionInterval], and samples
    computed from the stats the handle holds at that step. *)
Definition sampleOk (nows : list Time) (interval : Z) (e : Entry) : Prop :=
  match op e with
  | OSendStats u =>
      let cs := containerStats (after e) in
      cpu_Percent u = Percent totalCPUStats (float64_of (api.CPUNano cs)) /\
      cpu_SystemMode u = Percent systemCPUStats (float64_of (api.CPUSystemNano cs)) /\
      cpu_TotalTicks u = TicksConsumed systemCPUStats (cpu_Percent u) /\
      mem_MaxUsage u = api.MemLimit cs /\
      mem_Usage u = api.MemUsage cs /\
      mem_RSS u = mem_Usage u /\
      cpu_Measured u = measuredCPUStats /\
      mem_Measured u = measuredMemStats /\
      In (Timestamp u) nows
  | OTimer d => d = 1 * second \/ d = interval
  | OWrite f => f = FcollectionInterval
  | OSleep _ | OContainerLogs _ | OSendExit _ | OCloseExit | OCall _ => False
  | _ => True
  end.

Definition sampling (nows : list Time) (interval : Z) (w : World) : Prop :=
  Forall (sampleOk nows interval) (log w).

(** The listeners announced in [msgs] are fresh when they come in, as
    those [Subscribe] makes are. *)
Fixpoint wellFed (msgs : list broadcaster.Msg) (b : broadcaster.State) : Prop :=
  match msgs with
  | [] => True
  | m :: rest =>
      freshListener m b /\
      match broadcaster.handleMsg m b with
      | Done _ b' => wellFed rest b'
      | _ => True
      end
  end.

(** No channel was closed twice. *)
Definition closedOnce (b : broadcaster.State) : Prop :=
  NoDup (broadcaster.closed (broadcaster.statsHub b)) /\
  NoDup (broadcaster.closed (broadcaster.errHub b)).

(** What went through to the receiver of [c], newest first. *)
Definition sentTo {T : Type} (c : broadcaster.chan) (s : broadcaster.Hub T) : list T :=
  map snd (filter (fun d => broadcaster.chan_eqb (fst d) c) (broadcaster.delivered s)).

(** Two batches while the second subscriber leaves, then shutdown. *)
Definition busyMsgs : list broadcaster.Msg :=
  [broadcaster.statsChan [] onlySecondReady;
   broadcaster.removeStatsListener (broadcaster.chan_at 1);
   broadcaster.addStatsListener (broadcaster.chan_at 3);
   broadcaster.statsChan [None] onlySecondReady;
   broadcaster.ctx_Done].

(** What one turn of the serve loop does to the listeners of one element
    type: nothing, one more listener that was fresh, a listener cut out
    and closed, or deliveries to the listeners that were ready. *)
Inductive hubTurn {T : Type} (s s' : broadcaster.Hub T) : Prop :=
| turn_none : s' = s -> hubTurn s s'
| turn_add l :
    l <> broadcaster.chan_nil -> broadcaster.is_closed l s = false ->
    s' = {| broadcaster.listeners := broadcaster.listeners s ++ [l];
            broadcaster.closed := broadcaster.closed s;
            broadcaster.delivered := broadcaster.delivered s |} ->
    hubTurn s s'
| turn_remove c l1 l2 :
    broadcaster.listeners s = l1 ++ c :: l2 ->
    broadcaster.is_closed c s = false ->
    s' = {| broadcaster.listeners := l1 ++ l2;
            broadcaster.closed := c :: broadcaster.closed s;
            broadcaster.delivered := broadcaster.delivered s |} ->
    hubTurn s s'
| turn_broadcast ready v :
    s' = {| broadcaster.listeners := broadcaster.listeners s;
            broadcaster.closed := broadcaster.closed s;
            broadcaster.delivered :=
              rev (map (fun l => (l, v)) (filter ready (broadcaster.listeners s)))
              ++ broadcaster.delivered s |} ->
    hubTurn s s'.

(** What the broadcaster receives after a cancellation: a new
    subscriber, a batch while the receiver of channel 1 is waiting, and
    the shutdown. *)
Definition laterMsgs : list broadcaster.Msg :=
  [broadcaster.addStatsListener (broadcaster.chan_at 3);
   broadcaster.statsChan [None] onlySecondReady;
   broadcaster.ctx_Done].

(** The probe says the container is gone. *)
Definition saysGone (err : option error) : bool :=
  match err with
  | Some e => isGone e
  | None => false
  end.

(** A podman that answers 200 with [cause: container is stopped]. *)
Definition stoppedAnswer : Response + error :=
  inl {| StatusCode := 200; Body := inl "{cause: container is stopped}" |}.

(** Two failing polls while nobody reads the errors, then the
    cancellation. *)
Definition twoErrors : list poller.Event :=
  [poller.timer_C (poller.get_failed (errors_New "connection refused")) false false;
   poller.timer_C (poller.decode_failed (errors_New "unexpected EOF")) false false;
   poller.ctx_Done].

(** The listeners announced in [msgs] are those successive calls of
    [Subscribe] make: the next stats channel is the [ns]-th, the next
    error channel the [ne]-th. *)
Fixpoint madeBySubscribe (ns ne : nat) (msgs : list broadcaster.Msg) : Prop :=
  match msgs with
  | [] => True
  | broadcaster.addStatsListener l :: rest =>
      l = broadcaster.chan_at ns /\ madeBySubscribe (S ns) ne rest
  | broadcaster.addErrListener l :: rest =>
      l = broadcaster.chan_at ne /\ madeBySubscribe ns (S ne) rest
  | _ :: rest => madeBySubscribe ns ne rest
  end.

(** Every channel the hub knows of, listed or closed, was made before
    the [n]-th. *)
Definition below {T : Type} (n : nat) (s : broadcaster.Hub T) : Prop :=
  forall i, In (broadcaster.chan_at i) (broadcaster.listeners s ++ broadcaster.closed s) ->
            (i < n)%nat.

(** Two subscribers; the first cancels twice over, a batch comes in
    between, then the shutdown. *)
Definition twoSubscribers : list broadcaster.Msg :=
  snd (broadcaster.Subscribe 0) ++ snd (broadcaster.Subscribe 1)
  ++ broadcaster.CancelSubscription (broadcaster.chan_at 0) (broadcaster.chan_at 0)
  ++ [broadcaster.statsChan [Some statsOfC1] (fun _ => true)]
  ++ broadcaster.CancelSubscription (broadcaster.chan_at 0) (broadcaster.chan_at 0)
  ++ [broadcaster.ctx_Done].

(** [l1] is [l2] with some elements left out. *)
Inductive subseq {A : Type} : list A -> list A -> Prop :=
| subseq_nil l : subseq [] l
| subseq_skip x l1 l2 : subseq l1 l2 -> subseq l1 (x :: l2)
| subseq_take x l1 l2 : subseq l1 l2 -> subseq (x :: l1) (x :: l2).

(** The batches and the errors [serve] receives before the cancellation,
    oldest first. *)
Fixpoint statsOf (msgs : list broadcaster.Msg) : list broadcaster.Batch :=
  match msgs with
  | [] => []
  | broadcaster.ctx_Done :: _ => []
  | broadcaster.statsChan stats _ :: rest => stats :: statsOf rest
  | _ :: rest => statsOf rest
  end.

Fixpoint errsOf (msgs : list broadcaster.Msg) : list (option error) :=
  match msgs with
  | [] => []
  | broadcaster.ctx_Done :: _ => []
  | broadcaster.errStatsChan err _ :: rest => err :: errsOf rest
  | _ :: rest => errsOf rest
  end.

(** Three batches for [threeListeners]; the receiver of channel 1 misses
    the second one. *)
Definition threeBatches : list broadcaster.Msg :=
  [broadcaster.statsChan [Some statsOfC1] onlySecondReady;
   broadcaster.statsChan [Some statsOfC2] (fun _ => false);
   broadcaster.statsChan [] onlySecondReady;
   broadcaster.ctx_Done].


(** The timers set and the samples sent among the steps [os], in order:
    [Some d] for a timer set to [d], [None] for a sample. *)
Definition ticks (os : list Op) : list (option Z) :=
  flat_map (fun o => match o with
                     | OTimer d => [Some d]
                     | OSendStats _ => [None]
                     | _ => []
                     end) os.

(** The timer set to one second, then [k] turns, each of which resets
    the timer to [interval] and sends a sample. *)
Definition beats (interval : Z) (k : nat) : list (option Z) :=
  Some (1 * second) :: List.concat (repeat [Some interval; None] k).

(** The emitter has made [k] whole turns; [pending] tells whether it has
    reset the timer for one more, whose sample is not sent yet. *)
Definition beating (interval : Z) (k : nat) (pending : bool) (w : World) : Prop :=
  ticks (rev (map op (log w))) =
  beats interval k ++ (if pending then [Some interval] else []).

(** Two ticks with a receiver waiting, then the cancellation. *)
Definition twoTicks : list EmitterRound :=
  [{| e_others := fun h => h; e_fired := timer_C; e_now := 1000; e_receiver := true |};
   {| e_others := set_containerStats statsOfC1; e_fired := timer_C; e_now := 2000;
      e_receiver := true |};
   {| e_others := fun h => h; e_fired := ctx_Done; e_now := 3000; e_receiver := true |}].

(** * Properties *)

(** ** Assertions through the monad *)

Lemma hoare_bind A B (P : World -> Prop) (Q : A -> World -> Prop)
    (R : B -> World -> Prop) (E : World -> Prop) (m : G A) (k : A -> G B) :
  hoare P m Q E -> (forall a, hoare (Q a) (k a) R E) -> hoare P (bind m k) R E.
Proof.
  intros Hm Hk w Hw. unfold bind. specialize (Hm w Hw).
  destruct (m w) as [a w'| |]; auto. apply Hk, Hm.
Qed.

Lemma hoare_ret A (P : World -> Prop) (E : World -> Prop) (a : A) :
  hoare P (ret a) (fun _ => P) E.
Proof. intros w H. exact H. Qed.

(** ** The monitor keeps the handle's status until it dies *)

Section Monitor.

Variable b : TaskHandle.

Local Abbreviation keeps P g := (hoare (at_ b P) g (fun _ => at_ b P) (quietly b)).

Lemma hoare_step (P Q : TaskHandle -> Prop) o f :
  (forall h, P h -> Q (f h) /\ beforeExit b (f h)) ->
  hoare (at_ b P) (step o f) (fun _ => at_ b Q) (quietly b).
Proof.
  intros H w [HP Hq]. destruct (H _ HP) as [HQ Hb]. cbn.
  split; [exact HQ | constructor; [exact Hb | exact Hq]].
Qed.

Lemma keeps_emit (P : TaskHandle -> Prop) o :
  (forall h, P h -> beforeExit b h) -> keeps P (emit o).
Proof. intros H. apply hoare_step. auto. Qed.

Lemma keeps_read A (P : TaskHandle -> Prop) f (proj : TaskHandle -> A) :
  (forall h, P h -> beforeExit b h) -> keeps P (read f proj).
Proof.
  intros H w [HP Hq]. cbn. split; [exact HP | constructor; [apply H, HP | exact Hq]].
Qed.

Lemma keeps_logger_c (P : TaskHandle -> Prop) lvl msg :
  (forall h, P h -> beforeExit b h) -> keeps P (logger_c lvl msg).
Proof.
  intros H. eapply hoare_bind; [apply keeps_read, H | intros; apply keeps_emit, H].
Qed.

Lemma keeps_deref A (P : TaskHandle -> Prop) (p : option A) : keeps P (deref p).
Proof. destruct p; intros w H; [exact H | apply H]. Qed.

Lemma keeps_when (P : TaskHandle -> Prop) (c : bool) (g : G unit) :
  keeps P g -> keeps P (if c then g else ret tt).
Proof. destruct c; [auto | intros _; apply hoare_ret]. Qed.

Lemma resting_before h : restingH b h -> beforeExit b h.
Proof. unfold restingH, sameStatus, beforeExit. intuition. Qed.

Lemma dying_before h : dyingH b h -> beforeExit b h.
Proof.
  unfold dyingH, beforeExit. intros (Hm & ? & ? & ?). rewrite Hm. cbn.
  intuition discriminate.
Qed.

Lemma dying1_before h : dying1H b h -> beforeExit b h.
Proof. intros [H _]. apply dying_before, H. Qed.

Lemma keeps_cache stats :
  keeps (restingH b) (Lock ;; write FcontainerStats (set_containerStats stats) ;; Unlock).
Proof.
  intros w [[Hm Hs] Hq]. unfold bind, Lock, write, Unlock, step. rewrite Hm. cbn.
  split; [split; [reflexivity | exact Hs]|].
  destruct Hs as (H1 & H2 & H3 & H4 & H5).
  repeat (constructor;
          [unfold beforeExit; cbn; repeat split; intros;
           first [assumption | discriminate] |]).
  exact Hq.
Qed.

Lemma keeps_cacheStats allStats : keeps (restingH b) (cacheStats allStats).
Proof.
  induction allStats as [|p rest IH]; cbn [cacheStats].
  - apply hoare_ret.
  - eapply hoare_bind; [apply keeps_deref|]. intros stats.
    eapply hoare_bind; [apply keeps_read, resting_before|]. intros cid.
    destruct (String.eqb _ _); [apply keeps_cache | exact IH].
Qed.

Lemma hoare_Lock :
  hoare (at_ b (restingH b)) Lock (fun _ => at_ b (dyingH b)) (quietly b).
Proof.
  intros w [[Hm Hs] Hq]. unfold Lock. rewrite Hm. cbn.
  assert (Hd : dyingH b (set_stateLock {| writer := true; readers := 0 |} (handle w))).
  { destruct Hs as (H1 & H2 & H3 & _). unfold dyingH. cbn. auto. }
  split; [exact Hd | constructor; [apply dying_before, Hd | exact Hq]].
Qed.

Lemma hoare_store upd (P : TaskHandle -> Prop) :
  (forall h, P h -> dyingH b h) ->
  hoare (at_ b P) (store_exitResult upd) (fun _ => at_ b (dying1H b)) (quietly b).
Proof.
  intros HP w [Hh Hq]. unfold store_exitResult.
  destruct (exitResult (handle w)) as [r|]; [|exact Hq].
  apply (hoare_step P); [|split; assumption].
  intros h H. apply HP in H.
  assert (Hd : dying1H b (set_exitResult (Some (upd r)) h)).
  { split; [exact H | discriminate]. }
  split; [exact Hd | apply dying1_before, Hd].
Qed.

Lemma keeps_completedAt_dying v :
  keeps (dyingH b) (write FcompletedAt (set_completedAt v)).
Proof.
  apply hoare_step. intros h H.
  assert (Hd : dyingH b (set_completedAt v h)) by exact H.
  split; [exact Hd | apply dying_before, Hd].
Qed.

Lemma keeps_completedAt_dying1 v :
  keeps (dying1H b) (write FcompletedAt (set_completedAt v)).
Proof.
  apply hoare_step. intros h H.
  assert (Hd : dying1H b (set_completedAt v h)) by exact H.
  split; [exact Hd | apply dying1_before, Hd].
Qed.

(** The post mortem block between the first write of [completedAt] and
    the write of [procState]. *)
Lemma hoare_postMortem (inspect : api.InspectContainerData + error) :
  hoare (at_ b (dyingH b))
    (match inspect with
     | inr err =>
         cid <- read FcontainerID containerID ;;
         store_exitResult (drivers.set_Err (Some (exitCodeError cid err))) ;;
         logger_c "Error" "Failed to inspect stopped container, can not get exit code" ;;
         store_exitResult (drivers.set_Signal 0)
     | inl inspectData =>
         let st := api.State inspectData in
         store_exitResult (drivers.set_ExitCode (api.ExitCode st)) ;;
         (if (0 <? Z.of_nat (String.length (api.Error st)))%Z
          then
            store_exitResult (drivers.set_Err (Some (errors_New (api.Error st)))) ;;
            _ <- read FcontainerID containerID ;;
            _ <- read FexitResult exitResult ;;
            logger "Error" "Container error"
          else ret tt) ;;
         write FcompletedAt (set_completedAt (api.FinishedAt st)) ;;
         (if api.OOMKilled st
          then
            store_exitResult (drivers.set_OOMKilled true) ;;
            store_exitResult (drivers.set_Err (Some oomError)) ;;
            logger_c "Error" "podman container killed by OOM killer"
          else ret tt)
     end)
    (fun _ => at_ b (dying1H b)) (quietly b).
Proof.
  assert (H1 : forall h, dying1H b h -> dyingH b h) by (intros h [H _]; exact H).
  destruct inspect as [d|err].
  - cbn zeta.
    eapply hoare_bind; [apply hoare_store; auto|]. intros ?; cbv beta.
    eapply hoare_bind.
    { apply keeps_when.
      eapply hoare_bind; [apply hoare_store, H1|]. intros ?; cbv beta.
      eapply hoare_bind; [apply keeps_read, dying1_before|]. intros ?; cbv beta.
      eapply hoare_bind; [apply keeps_read, dying1_before|]. intros ?; cbv beta.
      apply keeps_emit, dying1_before. }
    intros ?; cbv beta.
    eapply hoare_bind; [apply keeps_completedAt_dying1|]. intros ?; cbv beta.
    apply keeps_when.
    eapply hoare_bind; [apply hoare_store, H1|]. intros ?; cbv beta.
    eapply hoare_bind; [apply hoare_store, H1|]. intros ?; cbv beta.
    apply keeps_logger_c, dying1_before.
  - eapply hoare_bind; [apply keeps_read, dying_before|]. intros cid.
    eapply hoare_bind; [apply hoare_store; auto|]. intros ?; cbv beta.
    eapply hoare_bind; [apply keeps_logger_c, dying1_before|]. intros ?; cbv beta.
    apply hoare_store, H1.
Qed.

(** The last two steps of the death path. *)
Lemma finish_exited w :
  at_ b (dying1H b) w ->
  exited b ((write FprocState (set_procState drivers.TaskStateExited) ;; Unlock) w).
Proof.
  intros [[(Hm & H1 & H2 & H3) Hne] Hq].
  unfold bind, write, Unlock, step. cbn. rewrite Hm. cbn.
  do 5 eexists. split; [reflexivity|]. cbn.
  split; [reflexivity|]. split; [reflexivity|]. cbn.
  split; [exact Hq|]. unfold afterExit. cbn. rewrite Hm. cbn. intuition.
Qed.

(** Sequencing for a continuation that may make the transition. *)
Lemma monitored_bind A B (P : World -> Prop) (Q : A -> World -> Prop)
    (m : G A) (k : A -> G B) :
  hoare P m Q (quietly b) ->
  (forall a w, Q a w -> monitored b (k a w)) ->
  forall w, P w -> monitored b (bind m k w).
Proof.
  intros Hm Hk w Hw. unfold bind. specialize (Hm w Hw).
  destruct (m w) as [a w'| |]; [apply Hk, Hm | left; exact Hm | left; exact Hm].
Qed.

Lemma containerDied_monitored inspect now w :
  at_ b (restingH b) w -> monitored b (containerDied inspect now w).
Proof.
  revert w. unfold containerDied.
  eapply monitored_bind; [apply keeps_logger_c, resting_before|]. intros ?; cbv beta.
  eapply monitored_bind; [apply keeps_read, resting_before|]. intros ?; cbv beta.
  eapply monitored_bind; [apply keeps_emit, resting_before|]. intros ?; cbv beta.
  eapply monitored_bind; [apply hoare_Lock|]. intros ?; cbv beta.
  eapply monitored_bind; [apply keeps_completedAt_dying|]. intros ?; cbv beta.
  eapply monitored_bind; [apply hoare_postMortem|]. intros ? w Hw; cbv beta in *.
  right. apply finish_exited, Hw.
Qed.

Lemma containerMonitorLoop_monitored : forall events w,
  at_ b (restingH b) w -> monitored b (containerMonitorLoop events w).
Proof.
  induction events as [|ev rest IH]; intros w Hw.
  - left. apply Hw.
  - destruct ev as [|allStats|err statsErr inspect now]; cbn [containerMonitorLoop].
    + left. apply Hw.
    + revert w Hw. eapply monitored_bind; [apply keeps_cacheStats|]. intros ?; cbv beta. exact IH.
    + revert w Hw.
      eapply monitored_bind; [apply keeps_emit, resting_before|]. intros ?; cbv beta.
      eapply monitored_bind; [apply keeps_read, resting_before|]. intros ?; cbv beta.
      eapply monitored_bind; [apply keeps_emit, resting_before|]. intros ? w Hw; cbv beta in *.
      destruct statsErr as [statsErr|]; [|apply IH, Hw].
      destruct (isGone statsErr).
      * apply containerDied_monitored, Hw.
      * revert w Hw.
        eapply monitored_bind; [apply keeps_emit, resting_before|]. intros ?; cbv beta. exact IH.
Qed.

Lemma runContainerMonitor_monitored broadcaster events w :
  at_ b (restingH b) w -> monitored b (runContainerMonitor broadcaster events w).
Proof.
  revert w. unfold runContainerMonitor.
  eapply monitored_bind; [apply keeps_emit, resting_before|]. intros ? w Hw; cbv beta in *.
  destruct broadcaster; cbn [negb].
  - revert w Hw.
    eapply monitored_bind; [apply keeps_emit, resting_before|]. intros ?; cbv beta.
    apply containerMonitorLoop_monitored.
  - left.
    pose proof (keeps_logger_c (restingH b) "Warn"
      "No container stats broadcaster available, not starting monitor"
      resting_before w Hw) as H.
    destruct (logger_c _ _ w); apply H.
Qed.

End Monitor.

(** ** Lists of handle states *)

Lemma transitions_cons a c rest :
  transitions (a :: c :: rest) =
  ((if isState drivers.TaskStateRunning a && isState drivers.TaskStateExited c
    then 1 else 0) + transitions (c :: rest))%nat.
Proof. reflexivity. Qed.

Lemma transitions_const p : forall hs,
  Forall (fun s => procState s = p) hs -> transitions hs = 0%nat.
Proof.
  induction hs as [|a [|c rest] IH]; intros H; try reflexivity.
  apply Forall_cons_iff in H. destruct H as [Ha Hrest].
    pose proof (proj1 (proj1 (Forall_cons_iff _ _ _) Hrest)) as Hc. cbv beta in Hc.
  rewrite transitions_cons, (IH Hrest). unfold isState. rewrite Ha, Hc.
  destruct p; reflexivity.
Qed.

Lemma transitions_exit : forall hs sE sU,
  hs <> [] ->
  Forall (fun s => procState s = drivers.TaskStateRunning) hs ->
  procState sE = drivers.TaskStateExited ->
  procState sU = drivers.TaskStateExited ->
  transitions (hs ++ [sE; sU]) = 1%nat.
Proof.
  induction hs as [|a [|c rest] IH]; intros sE sU Hne H HE HU.
  - contradiction.
  - apply Forall_cons_iff in H. destruct H as [Ha _]. cbn. unfold isState. rewrite Ha, HE, HU. reflexivity.
  - apply Forall_cons_iff in H. destruct H as [Ha Hrest].
    pose proof (proj1 (proj1 (Forall_cons_iff _ _ _) Hrest)) as Hc. cbv beta in Hc.
    change ((a :: c :: rest) ++ [sE; sU]) with (a :: c :: (rest ++ [sE; sU])).
    rewrite transitions_cons.
    change (c :: rest ++ [sE; sU]) with ((c :: rest) ++ [sE; sU]).
    rewrite (IH sE sU); auto; [|discriminate].
    unfold isState. rewrite Ha, Hc. reflexivity.
Qed.

Lemma exited_trace b A (r : Result World A) :
  exited b r ->
  returned r = true /\
  exists pre eE eU,
    trace r = pre ++ [eE; eU] /\
    Forall (fun e => beforeExit b (after e)) pre /\
    afterExit b (after eE) /\ afterExit b (after eU) /\
    op eE = OWrite FprocState /\ op eU = OUnlock /\
    writer (stateLock (after eE)) = true /\
    stateLock (after eU) = unlockedMutex /\
    handle (state_of r) = after eU.
Proof.
  intros (a & w' & eU & eE & l & -> & Hl & Hh & Hq & HE & HU & HoE & HoU & HwE & HmU).
  split; [reflexivity|]. exists (rev l), eE, eU.
  unfold trace. cbn [state_of]. rewrite Hl. cbn [rev]. rewrite <- app_assoc.
  repeat split; try assumption; try apply HE; try apply HU.
  apply Forall_rev, Hq.
Qed.

Lemma quietly_trace b A (r : Result World A) :
  quietly b (state_of r) -> Forall (fun e => beforeExit b (after e)) (trace r).
Proof. intros H. apply Forall_rev, H. Qed.

Lemma start_resting h :
  stateLock h = unlockedMutex -> at_ h (restingH h) (start h).
Proof.
  intros Hm. split; [|constructor].
  split; [exact Hm | repeat split].
Qed.

(** ** taskStatus at a given state *)

Lemma taskStatus_free s cfg :
  writer (stateLock s) = false -> taskConfig s = Some cfg ->
  exists w', taskStatus (start s) = Done (snapshot cfg s) w'.
Proof.
  intros Hw Hc. unfold taskStatus, bind, defer, RLock, RUnlock, read, deref, step, start.
  cbn. rewrite Hw. cbn. rewrite Hc. cbn. rewrite Hc. cbn. eexists. reflexivity.
Qed.

Lemma taskStatus_locked s :
  writer (stateLock s) = true -> taskStatus (start s) = Blocked (start s).
Proof.
  intros Hw. unfold taskStatus, bind, RLock, start. cbn. rewrite Hw. reflexivity.
Qed.

(** ** The monitor makes the transition at most once *)

(** C2, as amended.  For every sequence of events fed to the monitor of a
    running handle, the state goes from Running to Exited at most once;
    at every point of the run a state Exited comes with a non-nil exit
    result; and once a point is Exited the function has returned, the
    write of [procState] and the unlock being its last two steps. *)
Theorem monitor_transitions_at_most_once broadcaster events h :
  stateLock h = unlockedMutex ->
  procState h = drivers.TaskStateRunning ->
  let r := runContainerMonitor broadcaster events (start h) in
  (transitions (states h r) <= 1)%nat /\
  Forall (fun s => procState s = drivers.TaskStateExited -> exitResult s <> None)
         (states h r) /\
  ((exists s, In s (states h r) /\ procState s = drivers.TaskStateExited) ->
   returned r = true /\
   exists pre eE eU,
     trace r = pre ++ [eE; eU] /\
     Forall (fun e => procState (after e) = drivers.TaskStateRunning) pre /\
     op eE = OWrite FprocState /\ procState (after eE) = drivers.TaskStateExited /\
     op eU = OUnlock /\ procState (after eU) = drivers.TaskStateExited).
Proof.
  intros Hm Hrun r.
  destruct (runContainerMonitor_monitored h broadcaster events (start h)
              (start_resting h Hm)) as [Hq | Hx]; fold r in Hq || fold r in Hx.
  - apply quietly_trace in Hq.
    assert (Hall : Forall (fun s => procState s = drivers.TaskStateRunning) (states h r)).
    { unfold states. constructor; [exact Hrun|]. apply Forall_map.
      eapply Forall_impl; [|exact Hq]. intros e (_ & Hp & _). congruence. }
    split; [rewrite (transitions_const _ _ Hall); lia|].
    split.
    + eapply Forall_impl; [|exact Hall]. cbv beta. intros s Hs He. congruence.
    + intros (s & Hin & He). rewrite Forall_forall in Hall.
      specialize (Hall s Hin). congruence.
  - apply exited_trace in Hx.
    destruct Hx as (Hret & pre & eE & eU & Ht & Hpre & HE & HU & HoE & HoU & _).
    assert (Hrunning : Forall (fun e => procState (after e) = drivers.TaskStateRunning) pre).
    { eapply Forall_impl; [|exact Hpre]. intros e (_ & Hp & _). congruence. }
    destruct HE as (_ & _ & HEp & HEr). destruct HU as (_ & _ & HUp & HUr).
    assert (Hst : states h r = (h :: map after pre) ++ [after eE; after eU]).
    { unfold states. rewrite Ht, map_app. reflexivity. }
    split; [|split].
    + rewrite Hst, transitions_exit; auto; [discriminate|].
      constructor; [exact Hrun | apply Forall_map, Hrunning].
    + rewrite Hst. apply Forall_app. split.
      * constructor; [congruence|]. apply Forall_map.
        eapply Forall_impl; [|exact Hrunning]. cbv beta. intros e He1 He2. congruence.
      * repeat constructor; auto.
    + intros _. split; [exact Hret|]. exists pre, eE, eU. auto 10.
Qed.

Lemma deathEvents_final_state :
  In (handle (state_of (runContainerMonitor true deathEvents (start handle0))))
     (states handle0 (runContainerMonitor true deathEvents (start handle0))).
Proof.
  vm_compute. repeat (first [left; reflexivity | right]).
Qed.

Lemma monitor_transitions_at_most_once_witness :
  (transitions (states handle0 (runContainerMonitor true deathEvents (start handle0)))
   <= 1)%nat /\
  returned (runContainerMonitor true deathEvents (start handle0)) = true.
Proof.
  pose proof (monitor_transitions_at_most_once true deathEvents handle0
                eq_refl eq_refl) as H.
  cbv zeta in H. destruct H as (H1 & _ & H3).
  split; [exact H1|]. apply H3.
  exists (handle (state_of (runContainerMonitor true deathEvents (start handle0)))).
  split; [exact deathEvents_final_state | vm_compute; reflexivity].
Defined.

(** C2, as stated, fails: the handle the monitor works on is Running with
    a non-nil exit result from the first point of the run on, so "non-nil
    if and only if Exited" does not hold at every point.  The same run
    does end Exited; started with a nil exit result it panics at the
    first store of the death path instead. *)
Lemma monitor_running_with_exit_result :
  let events := [recv_errChan None (Some ContainerNotFound)
                   (inr (errors_New "inspect failed")) 500] in
  let r := runContainerMonitor true events (start handle0) in
  ~ Forall (fun s => exitResult s <> None <-> procState s = drivers.TaskStateExited)
           (states handle0 r) /\
  returned r = true /\
  procState (handle (state_of r)) = drivers.TaskStateExited /\
  panicked (runContainerMonitor true events (start (set_exitResult None handle0))) = true.
Proof.
  cbv zeta. split; [|repeat split].
  intros H. apply Forall_inv in H. cbn in H.
  destruct H as [H _]. specialize (H ltac:(discriminate)). discriminate.
Qed.

(** ** taskStatus against the monitor *)

(** C3, as amended.  Called at any point of a monitor run on a running
    handle with an allocated exit result, [taskStatus] either waits
    (exactly when the monitor holds the lock for writing) or returns the
    snapshot of that point.  The snapshot never has a nil exit result: it
    is either Running with the handle's initial exit result and
    completion time, or Exited with the final ones. *)
Theorem taskStatus_consistent_snapshot broadcaster events h cfg r0 s :
  stateLock h = unlockedMutex ->
  taskConfig h = Some cfg ->
  procState h = drivers.TaskStateRunning ->
  exitResult h = Some r0 ->
  let r := runContainerMonitor broadcaster events (start h) in
  In s (states h r) ->
  (writer (stateLock s) = true /\ taskStatus (start s) = Blocked (start s)) \/
  (writer (stateLock s) = false /\
   exists snap w',
     taskStatus (start s) = Done snap w' /\
     drivers.status_ExitResult snap <> None /\
     ((drivers.State snap = drivers.TaskStateRunning /\
       drivers.status_ExitResult snap = Some r0 /\
       drivers.CompletedAt snap = completedAt h) \/
      (drivers.State snap = drivers.TaskStateExited /\
       drivers.status_ExitResult snap = exitResult (handle (state_of r)) /\
       drivers.CompletedAt snap = completedAt (handle (state_of r))))).
Proof.
  intros Hm Hc Hrun Her r Hin. unfold r in *. clear r.
  set (r := runContainerMonitor broadcaster events (start h)) in *.
  destruct (writer (stateLock s)) eqn:Hw.
  { left. split; [reflexivity | apply taskStatus_locked, Hw]. }
  right. split; [reflexivity|].
  assert (Hbefore : beforeExit h s ->
    exists snap w',
      taskStatus (start s) = Done snap w' /\
      drivers.status_ExitResult snap <> None /\
      ((drivers.State snap = drivers.TaskStateRunning /\
        drivers.status_ExitResult snap = Some r0 /\
        drivers.CompletedAt snap = completedAt h) \/
       (drivers.State snap = drivers.TaskStateExited /\
        drivers.status_ExitResult snap = exitResult (handle (state_of r)) /\
        drivers.CompletedAt snap = completedAt (handle (state_of r))))).
  { intros (H1 & H2 & _ & H4). destruct (H4 Hw) as [H5 H6].
    destruct (taskStatus_free s cfg Hw) as [w' Hs]; [congruence|].
    exists (snapshot cfg s), w'. split; [exact Hs|]. cbn.
    split; [congruence|]. left. repeat split; congruence. }
  destruct (runContainerMonitor_monitored h broadcaster events (start h)
              (start_resting h Hm)) as [Hq | Hx]; fold r in Hq || fold r in Hx.
  - apply quietly_trace in Hq. rewrite Forall_forall in Hq.
    destruct Hin as [<- | Hin].
    + apply Hbefore. repeat split.
    + apply in_map_iff in Hin. destruct Hin as (e & <- & He). apply Hbefore, Hq, He.
  - apply exited_trace in Hx.
    destruct Hx as (_ & pre & eE & eU & Ht & Hpre & HE & HU & _ & _ & HwE & _ & Hfin).
    rewrite Forall_forall in Hpre.
    unfold states in Hin. rewrite Ht in Hin.
    destruct Hin as [<- | Hin]; [apply Hbefore; repeat split|].
    apply in_map_iff in Hin. destruct Hin as (e & <- & He).
    apply in_app_or in He. destruct He as [He | [He | [He | []]]].
    + apply Hbefore, Hpre, He.
    + subst e. congruence.
    + subst e. destruct HU as (HU1 & _ & HU3 & HU4).
      destruct (taskStatus_free (after eU) cfg Hw) as [w' Hs]; [congruence|].
      exists (snapshot cfg (after eU)), w'. split; [exact Hs|]. clearbody r. cbn.
      split; [exact HU4|]. right. rewrite Hfin. auto.
Qed.

Lemma taskStatus_consistent_snapshot_witness :
  exists s,
    In s (states handle0 (runContainerMonitor true deathEvents (start handle0))) /\
    procState s = drivers.TaskStateExited /\
    writer (stateLock s) = false /\
    exists snap w',
      taskStatus (start s) = Done snap w' /\
      drivers.status_ExitResult snap <> None.
Proof.
  exists (handle (state_of (runContainerMonitor true deathEvents (start handle0)))).
  split; [exact deathEvents_final_state|].
  split; [vm_compute; reflexivity|]. split; [vm_compute; reflexivity|].
  destruct (taskStatus_consistent_snapshot true deathEvents handle0
              {| drivers.ID := "task1"; drivers.Name := "web";
                 drivers.StdoutPath := "/alloc/web.stdout";
                 drivers.StderrPath := "/alloc/web.stderr" |}
              drivers.zeroExitResult _
              eq_refl eq_refl eq_refl eq_refl deathEvents_final_state)
    as [[Hw _] | (_ & snap & w' & Hs & Hne & _)].
  - vm_compute in Hw. discriminate Hw.
  - exists snap, w'. split; assumption.
Defined.

(** C3, as stated, fails: on the running handle [taskStatus] returns a
    snapshot with state Running and a non-nil exit result. *)
Lemma taskStatus_running_with_exit_result :
  exists snap w',
    taskStatus (start handle0) = Done snap w' /\
    drivers.State snap = drivers.TaskStateRunning /\
    drivers.status_ExitResult snap <> None.
Proof.
  do 2 eexists. split; [reflexivity|]. split; [reflexivity | discriminate].
Qed.

(** ** The death path, step by step *)

Section DeathPath.

Variables (c : Time) (p : drivers.TaskState) (cid : string).

Local Abbreviation sure P g Q := (hoare (exactly P) g (fun _ => exactly Q) nowhere).

Lemma sure_emit P o : sure P (emit o) P.
Proof. intros w H. exact H. Qed.

Lemma sure_read A P f (proj : TaskHandle -> A) : sure P (read f proj) P.
Proof. intros w H. exact H. Qed.

Lemma sure_logger_c P lvl msg : sure P (logger_c lvl msg) P.
Proof. eapply hoare_bind; [apply sure_read | intros; apply sure_emit]. Qed.

Lemma sure_containerID m r c0 p0 :
  hoare (exactly (facts m r c0 p0 cid)) (read FcontainerID containerID)
        (fun a w => a = cid /\ exactly (facts m r c0 p0 cid) w) nowhere.
Proof. intros w H. split; [apply H | exact H]. Qed.

Lemma sure_Lock r c0 p0 :
  sure (facts unlockedMutex r c0 p0 cid) Lock (facts lockedMutex r c0 p0 cid).
Proof.
  intros w (Hm & H). unfold Lock. rewrite Hm. cbn. split; [reflexivity | exact H].
Qed.

Lemma sure_Unlock r c0 p0 :
  sure (facts lockedMutex r c0 p0 cid) Unlock (facts unlockedMutex r c0 p0 cid).
Proof.
  intros w (Hm & H). unfold Unlock. rewrite Hm. cbn. split; [reflexivity | exact H].
Qed.

Lemma sure_completedAt m r c0 p0 v :
  sure (facts m r c0 p0 cid) (write FcompletedAt (set_completedAt v))
       (facts m r v p0 cid).
Proof.
  intros w (Hm & Hr & Hc & Hp & Hi). cbn. unfold exactly, facts. cbn. auto.
Qed.

Lemma sure_procState m r c0 p0 v :
  sure (facts m r c0 p0 cid) (write FprocState (set_procState v))
       (facts m r c0 v cid).
Proof.
  intros w (Hm & Hr & Hc & Hp & Hi). cbn. unfold exactly, facts. cbn. auto.
Qed.

Lemma sure_store m r c0 p0 upd :
  sure (facts m (Some r) c0 p0 cid) (store_exitResult upd)
       (facts m (Some (upd r)) c0 p0 cid).
Proof.
  intros w (Hm & Hr & Hc & Hp & Hi). unfold store_exitResult. rewrite Hr.
  cbn. unfold exactly, facts. cbn. auto.
Qed.

(** [ContainerInspect] failed. *)
Lemma sure_inspect_failed err now r0 :
  sure (facts unlockedMutex (Some r0) c p cid)
       (containerDied (inr err) now)
       (facts unlockedMutex
          (Some {| drivers.ExitCode := drivers.ExitCode r0;
                   drivers.Signal := 0;
                   drivers.OOMKilled := drivers.OOMKilled r0;
                   drivers.Err := Some (exitCodeError cid err) |})
          now drivers.TaskStateExited cid).
Proof.
  unfold containerDied.
  eapply hoare_bind; [apply sure_logger_c|]. intros ?; cbv beta.
  eapply hoare_bind; [apply sure_read|]. intros ?; cbv beta.
  eapply hoare_bind; [apply sure_emit|]. intros ?; cbv beta.
  eapply hoare_bind; [apply sure_Lock|]. intros ?; cbv beta.
  eapply hoare_bind; [apply sure_completedAt|]. intros ?; cbv beta.
  eapply hoare_bind.
  { eapply hoare_bind; [apply sure_containerID|]. intros cid'.
    intros w [-> Hw]. revert w Hw.
    eapply hoare_bind; [apply sure_store|]. intros ?; cbv beta.
    eapply hoare_bind; [apply sure_logger_c|]. intros ?; cbv beta.
    apply sure_store. }
  intros ?; cbv beta.
  eapply hoare_bind; [apply sure_procState|]. intros ?; cbv beta.
  apply sure_Unlock.
Qed.

(** [ContainerInspect] succeeded and reports an out-of-memory kill. *)
Lemma sure_oom d now r0 :
  api.OOMKilled (api.State d) = true ->
  sure (facts unlockedMutex (Some r0) c p cid)
       (containerDied (inl d) now)
       (facts unlockedMutex
          (Some {| drivers.ExitCode := api.ExitCode (api.State d);
                   drivers.Signal := drivers.Signal r0;
                   drivers.OOMKilled := true;
                   drivers.Err := Some oomError |})
          (api.FinishedAt (api.State d)) drivers.TaskStateExited cid).
Proof.
  intros Hoom. unfold containerDied. cbv zeta. rewrite Hoom.
  eapply hoare_bind; [apply sure_logger_c|]. intros ?; cbv beta.
  eapply hoare_bind; [apply sure_read|]. intros ?; cbv beta.
  eapply hoare_bind; [apply sure_emit|]. intros ?; cbv beta.
  eapply hoare_bind; [apply sure_Lock|]. intros ?; cbv beta.
  eapply hoare_bind; [apply sure_completedAt|]. intros ?; cbv beta.
  destruct (0 <? Z.of_nat (String.length (api.Error (api.State d))))%Z.
  - eapply hoare_bind.
    { eapply hoare_bind; [apply sure_store|]. intros ?; cbv beta.
      eapply hoare_bind.
      { eapply hoare_bind; [apply sure_store|]. intros ?; cbv beta.
        eapply hoare_bind; [apply sure_read|]. intros ?; cbv beta.
        eapply hoare_bind; [apply sure_read|]. intros ?; cbv beta.
        apply sure_emit. }
      intros ?; cbv beta.
      eapply hoare_bind; [apply sure_completedAt|]. intros ?; cbv beta.
      eapply hoare_bind; [apply sure_store|]. intros ?; cbv beta.
      eapply hoare_bind; [apply sure_store|]. intros ?; cbv beta.
      apply sure_logger_c. }
    intros ?; cbv beta.
    eapply hoare_bind; [apply sure_procState|]. intros ?; cbv beta.
    apply sure_Unlock.
  - eapply hoare_bind.
    { eapply hoare_bind; [apply sure_store|]. intros ?; cbv beta.
      eapply hoare_bind; [apply hoare_ret|]. intros ?; cbv beta.
      eapply hoare_bind; [apply sure_completedAt|]. intros ?; cbv beta.
      eapply hoare_bind; [apply sure_store|]. intros ?; cbv beta.
      eapply hoare_bind; [apply sure_store|]. intros ?; cbv beta.
      apply sure_logger_c. }
    intros ?; cbv beta.
    eapply hoare_bind; [apply sure_procState|]. intros ?; cbv beta.
    apply sure_Unlock.
Qed.

End DeathPath.

(** ** With an allocated exit result the death path returns *)

Section Allocated.

Local Abbreviation sure P g Q := (hoare (exactly P) g (fun _ => exactly Q) nowhere).

Lemma allocated_step m o f :
  (forall h, allocated m h -> allocated m (f h)) ->
  sure (allocated m) (step o f) (allocated m).
Proof. intros H w Hw. apply H, Hw. Qed.

Lemma allocated_store m upd :
  sure (allocated m) (store_exitResult upd) (allocated m).
Proof.
  intros w [Hm Hr]. unfold store_exitResult.
  destruct (exitResult (handle w)) as [r|]; [|contradiction].
  cbn. split; [exact Hm | discriminate].
Qed.

Lemma allocated_Lock :
  sure (allocated unlockedMutex) Lock (allocated lockedMutex).
Proof.
  intros w [Hm Hr]. unfold Lock. rewrite Hm. cbn. split; [reflexivity | exact Hr].
Qed.

Lemma allocated_Unlock :
  sure (allocated lockedMutex) Unlock (allocated unlockedMutex).
Proof.
  intros w [Hm Hr]. unfold Unlock. rewrite Hm. cbn. split; [reflexivity | exact Hr].
Qed.

Lemma allocated_when m (cond : bool) (g : G unit) :
  sure (allocated m) g (allocated m) ->
  sure (allocated m) (if cond then g else ret tt) (allocated m).
Proof. destruct cond; [auto | intros _; apply hoare_ret]. Qed.

Lemma containerDied_allocated inspect now :
  sure (allocated unlockedMutex) (containerDied inspect now) (allocated unlockedMutex).
Proof.
  assert (Hw : forall m f v, sure (allocated m) (write f (set_completedAt v)) (allocated m)).
  { intros m f v. apply allocated_step. intros h H. exact H. }
  unfold containerDied.
  eapply hoare_bind; [apply sure_logger_c|]. intros ?; cbv beta.
  eapply hoare_bind; [apply sure_read|]. intros ?; cbv beta.
  eapply hoare_bind; [apply sure_emit|]. intros ?; cbv beta.
  eapply hoare_bind; [apply allocated_Lock|]. intros ?; cbv beta.
  eapply hoare_bind; [apply Hw|]. intros ?; cbv beta.
  eapply hoare_bind.
  { destruct inspect as [d|err]; cbv zeta.
    - eapply hoare_bind; [apply allocated_store|]. intros ?; cbv beta.
      eapply hoare_bind.
      { apply allocated_when.
        eapply hoare_bind; [apply allocated_store|]. intros ?; cbv beta.
        eapply hoare_bind; [apply sure_read|]. intros ?; cbv beta.
        eapply hoare_bind; [apply sure_read|]. intros ?; cbv beta.
        apply sure_emit. }
      intros ?; cbv beta.
      eapply hoare_bind; [apply Hw|]. intros ?; cbv beta.
      apply allocated_when.
      eapply hoare_bind; [apply allocated_store|]. intros ?; cbv beta.
      eapply hoare_bind; [apply allocated_store|]. intros ?; cbv beta.
      apply sure_logger_c.
    - eapply hoare_bind; [apply sure_read|]. intros ?; cbv beta.
      eapply hoare_bind; [apply allocated_store|]. intros ?; cbv beta.
      eapply hoare_bind; [apply sure_logger_c|]. intros ?; cbv beta.
      apply allocated_store. }
  intros ?; cbv beta.
  eapply hoare_bind.
  { apply allocated_step. intros h H. exact H. }
  intros ?; cbv beta.
  apply allocated_Unlock.
Qed.

End Allocated.

Lemma containerDied_nil inspect now w :
  stateLock (handle w) = unlockedMutex ->
  exitResult (handle w) = None ->
  panicked (containerDied inspect now w) = true.
Proof.
  intros Hm He. unfold containerDied.
  unfold logger_c, logger, emit, write, Lock, read, step, bind.
  cbn. rewrite Hm. cbn.
  destruct inspect as [d|err]; unfold store_exitResult; cbn; rewrite He; reflexivity.
Qed.

(** On a broadcast error whose direct probe says the container is gone,
    the monitor takes three steps that leave the handle alone and then
    runs the death path. *)
Lemma errChan_gone err statsErr inspect now rest w :
  isGone statsErr = true ->
  exists w0,
    handle w0 = handle w /\
    containerMonitorLoop (recv_errChan err (Some statsErr) inspect now :: rest) w =
    containerDied inspect now w0.
Proof.
  intros Hg. cbn [containerMonitorLoop]. rewrite Hg.
  exists {| handle := handle w;
            log := {| op := OCall "ContainerStats"; after := handle w |}
                   :: {| op := ORead FcontainerID; after := handle w |}
                   :: {| op := OLogger "Warn" "Error from container stats broadcaster";
                         after := handle w |}
                   :: log w |}.
  split; reflexivity.
Qed.

Lemma hoare_returns A (P : TaskHandle -> Prop) (Q : TaskHandle -> Prop) (g : G A) w :
  hoare (exactly P) g (fun _ => exactly Q) nowhere ->
  P (handle w) ->
  exists a w', g w = Done a w' /\ Q (handle w').
Proof.
  intros H Hw. specialize (H w Hw). destruct (g w) as [a w'| |]; try contradiction.
  exists a, w'. split; [reflexivity | exact H].
Qed.

Lemma errors_Is_refl e : errors_Is e e = true.
Proof.
  destruct e; cbn [errors_Is];
    match goal with |- context [error_eq_dec ?a ?b] => destruct (error_eq_dec a b) end;
    congruence.
Qed.

Lemma errors_Is_wrapped msg e : errors_Is (fmt_Errorf_w msg e) e = true.
Proof.
  cbn [errors_Is].
  match goal with |- context [error_eq_dec ?a ?b] => destruct (error_eq_dec a b) end;
    [reflexivity | apply errors_Is_refl].
Qed.

Lemma prefix_append p : forall s, String.prefix p (p ++ s) = true.
Proof.
  induction p as [|ch p IH]; intros s; cbn.
  - destruct s; reflexivity.
  - destruct (Ascii.ascii_dec ch ch) as [_|Hn]; [apply IH | contradiction].
Qed.

(** ** Out-of-memory kills *)

(** C4.  When the monitor, on a handle with an allocated exit result,
    confirms the container dead, [ContainerInspect] succeeds and the
    inspected state reports [OOMKilled], the monitor returns with an exit
    result that has the OOM flag and the OOM-killer error, whatever error
    string was reported; the exit code is the one of the inspected state
    and the completion time is the reported finish time. *)
Theorem monitor_oom_precedence err statsErr d now rest w r0 :
  stateLock (handle w) = unlockedMutex ->
  exitResult (handle w) = Some r0 ->
  isGone statsErr = true ->
  api.OOMKilled (api.State d) = true ->
  exists w',
    containerMonitorLoop (recv_errChan err (Some statsErr) (inl d) now :: rest) w
      = Done tt w' /\
    exitResult (handle w') =
      Some {| drivers.ExitCode := api.ExitCode (api.State d);
              drivers.Signal := drivers.Signal r0;
              drivers.OOMKilled := true;
              drivers.Err := Some oomError |} /\
    Error oomError = "podman container killed by OOM killer" /\
    completedAt (handle w') = api.FinishedAt (api.State d) /\
    procState (handle w') = drivers.TaskStateExited.
Proof.
  intros Hm He Hg Hoom.
  destruct (errChan_gone err statsErr (inl d) now rest w Hg) as (w0 & Hh & ->).
  rewrite <- Hh in Hm, He.
  destruct (hoare_returns _ _ _ _ w0
              (sure_oom (completedAt (handle w0)) (procState (handle w0))
                        (containerID (handle w0)) d now r0 Hoom))
    as ([] & w' & Hr & _ & H1 & H2 & H3 & _).
  { repeat split; assumption. }
  exists w'. auto.
Qed.

Lemma monitor_oom_precedence_witness :
  exists w',
    containerMonitorLoop
      [recv_errChan (Some (errors_New "connection reset")) (Some ContainerWrongState)
         (inl {| api.State := {| api.ExitCode := 137; api.Error := "runtime error";
                                 api.FinishedAt := 777; api.OOMKilled := true |} |})
         500]
      (start handle0) = Done tt w' /\
    exitResult (handle w') =
      Some {| drivers.ExitCode := 137; drivers.Signal := 0;
              drivers.OOMKilled := true; drivers.Err := Some oomError |} /\
    completedAt (handle w') = 777.
Proof.
  destruct (monitor_oom_precedence (Some (errors_New "connection reset"))
              ContainerWrongState
              {| api.State := {| api.ExitCode := 137; api.Error := "runtime error";
                                 api.FinishedAt := 777; api.OOMKilled := true |} |}
              500 [] (start handle0) drivers.zeroExitResult
              eq_refl eq_refl eq_refl eq_refl)
    as (w' & Hr & He & _ & Hc & _).
  exists w'. auto.
Defined.

(** ** Inspect failures *)

(** C5.  When the monitor, on a handle with an allocated exit result,
    confirms the container dead and [ContainerInspect] fails, it returns
    with the state Exited, the error "Driver was unable to get the exit
    code. ..." wrapping the inspect error, signal 0, the completion time
    set to the current time, and the exit code left as it was: 0 for the
    exit result the handle was created with. *)
Theorem monitor_inspect_failure err statsErr inspectErr now rest w r0 :
  stateLock (handle w) = unlockedMutex ->
  exitResult (handle w) = Some r0 ->
  isGone statsErr = true ->
  exists w' e,
    containerMonitorLoop (recv_errChan err (Some statsErr) (inr inspectErr) now :: rest) w
      = Done tt w' /\
    exitResult (handle w') =
      Some {| drivers.ExitCode := drivers.ExitCode r0;
              drivers.Signal := 0;
              drivers.OOMKilled := drivers.OOMKilled r0;
              drivers.Err := Some e |} /\
    (drivers.ExitCode r0 = 0 ->
     option_map drivers.ExitCode (exitResult (handle w')) = Some 0) /\
    e = exitCodeError (containerID (handle w)) inspectErr /\
    String.prefix "Driver was unable to get the exit code. " (Error e) = true /\
    errors_Is e inspectErr = true /\
    completedAt (handle w') = now /\
    procState (handle w') = drivers.TaskStateExited.
Proof.
  intros Hm He Hg.
  destruct (errChan_gone err statsErr (inr inspectErr) now rest w Hg) as (w0 & Hh & ->).
  rewrite <- Hh in Hm, He. rewrite <- Hh.
  destruct (hoare_returns _ _ _ _ w0
              (sure_inspect_failed (completedAt (handle w0)) (procState (handle w0))
                        (containerID (handle w0)) inspectErr now r0))
    as ([] & w' & Hr & _ & H1 & H2 & H3 & _).
  { repeat split; assumption. }
  exists w', (exitCodeError (containerID (handle w0)) inspectErr).
  split; [exact Hr|]. split; [exact H1|].
  split; [intros H0; rewrite H1; cbn; rewrite H0; reflexivity|].
  split; [reflexivity|].
  split; [apply prefix_append|].
  split; [|auto].
  apply errors_Is_wrapped.
Qed.

Lemma monitor_inspect_failure_witness :
  exists w',
    containerMonitorLoop deathEvents (start handle0) = Done tt w' /\
    option_map drivers.ExitCode (exitResult (handle w')) = Some 0 /\
    option_map drivers.Signal (exitResult (handle w')) = Some 0 /\
    completedAt (handle w') = 500 /\
    procState (handle w') = drivers.TaskStateExited.
Proof.
  destruct (monitor_inspect_failure None ContainerNotFound (errors_New "inspect failed")
              500 [] (start handle0) drivers.zeroExitResult
              eq_refl eq_refl eq_refl)
    as (w' & e & Hr & He & H0 & _ & _ & _ & Hc & Hp).
  exists w'. split; [exact Hr|]. split; [apply H0; reflexivity|].
  split; [rewrite He; reflexivity|]. split; assumption.
Defined.

(** ** The exit result must be allocated *)

(** C9.  The death path stores through [h.exitResult] without a nil
    check: when the monitor confirms the container dead it panics if and
    only if the exit result of the handle is nil, and returns if and only
    if it is allocated. *)
Theorem monitor_death_needs_exit_result err statsErr inspect now rest w :
  stateLock (handle w) = unlockedMutex ->
  isGone statsErr = true ->
  let r := containerMonitorLoop (recv_errChan err (Some statsErr) inspect now :: rest) w in
  (panicked r = true <-> exitResult (handle w) = None) /\
  (returned r = true <-> exitResult (handle w) <> None).
Proof.
  intros Hm Hg r. subst r.
  destruct (errChan_gone err statsErr inspect now rest w Hg) as (w0 & Hh & ->).
  rewrite <- Hh in *.
  destruct (exitResult (handle w0)) as [r0|] eqn:He.
  - destruct (hoare_returns _ _ _ _ w0 (containerDied_allocated inspect now))
      as (a & w' & -> & _).
    { split; [exact Hm | congruence]. }
    cbn. split; split; intros; congruence.
  - pose proof (containerDied_nil inspect now w0 Hm He) as Hp.
    destruct (containerDied inspect now w0); cbn in *; try discriminate.
    split; split; intros; congruence.
Qed.

Lemma monitor_death_needs_exit_result_witness :
  panicked (containerMonitorLoop deathEvents (start (set_exitResult None handle0))) = true /\
  returned (containerMonitorLoop deathEvents (start handle0)) = true.
Proof.
  split.
  - apply (monitor_death_needs_exit_result None ContainerNotFound
             (inr (errors_New "inspect failed")) 500 []
             (start (set_exitResult None handle0)) eq_refl eq_refl).
    reflexivity.
  - apply (monitor_death_needs_exit_result None ContainerNotFound
             (inr (errors_New "inspect failed")) 500 []
             (start handle0) eq_refl eq_refl).
    discriminate.
Defined.

(** ** The exit watcher *)

Lemma waits_bind A B (P : World -> Prop) (Q : A -> World -> Prop)
    (R : B -> World -> Prop) (Bl : World -> Prop) (m : G A) (k : A -> G B) :
  waits P m Q Bl -> (forall a, waits (Q a) (k a) R Bl) -> waits P (bind m k) R Bl.
Proof.
  intros Hm Hk w Hw. unfold bind. specialize (Hm w Hw).
  destruct (m w) as [a w'| |]; auto. apply Hk, Hm.
Qed.

Lemma waits_defer A (P : World -> Prop) (Q : A -> World -> Prop)
    (R : A -> World -> Prop) (Bl : World -> Prop) (d : G unit) (body : G A) :
  waits P body Q Bl -> (forall a, waits (Q a) d (fun _ => R a) Bl) ->
  waits P (defer d body) R Bl.
Proof.
  intros Hb Hd w Hw. unfold defer. specialize (Hb w Hw).
  destruct (body w) as [a w'| |]; [| contradiction | exact Hb].
  specialize (Hd a w' Hb). destruct (d w'); auto.
Qed.

Lemma set_stateLock_same h m : stateLock h = m -> set_stateLock m h = h.
Proof. destruct h; cbn; intros <-; reflexivity. Qed.

Section ExitWatcher.

Variable Bl : World -> Prop.

Lemma standing_emit x cl o :
  exitChannelOps [o] = [] ->
  waits (standing x cl) (emit o) (fun _ => standing x cl) Bl.
Proof.
  intros Ho w (Hh & Hm & Hc). cbn. repeat split; try assumption.
  unfold channelLog in *. cbn [log map]. unfold exitChannelOps in *. cbn [filter].
  cbn [filter] in Ho. destruct o; try discriminate Ho; exact Hc.
Qed.

Lemma standing_read A x cl f (proj : TaskHandle -> A) :
  waits (standing x cl) (read f proj) (fun a w => a = proj x /\ standing x cl w) Bl.
Proof.
  intros w (Hh & Hm & Hc). cbn. rewrite Hh. repeat split; assumption.
Qed.

Lemma standing_logger_c x cl lvl msg :
  waits (standing x cl) (logger_c lvl msg) (fun _ => standing x cl) Bl.
Proof.
  eapply waits_bind; [apply standing_read|]. intros a w [_ Hw]. revert w Hw.
  apply standing_emit. reflexivity.
Qed.

Lemma standing_meanwhile x cl others :
  waits (standing x cl) (meanwhile others) (fun _ => standing (interfered others x) cl) Bl.
Proof.
  intros w (Hh & Hm & Hc). cbn. rewrite Hh. repeat split; assumption.
Qed.

Lemma standing_isRunning x cl :
  waits (standing x cl) isRunning
        (fun a w => a = isState drivers.TaskStateRunning x /\ standing x cl w) Bl.
Proof.
  intros w (Hh & Hm & Hc). unfold isRunning, bind, defer, RLock, RUnlock, read, step.
  rewrite Hh, Hm. cbn. split; [reflexivity|]. split; [|split; assumption].
  transitivity (set_stateLock unlockedMutex x); [reflexivity | apply set_stateLock_same, Hm].
Qed.

Lemma standing_Lock x cl :
  waits (standing x cl) Lock (fun _ => holding x cl) Bl.
Proof.
  intros w (Hh & Hm & Hc). unfold Lock. rewrite Hh, Hm. cbn.
  split; [rewrite Hh; reflexivity|]. split; [exact Hm | exact Hc].
Qed.

Lemma holding_read A x cl f (proj : TaskHandle -> A) :
  waits (holding x cl) (read f proj)
        (fun a w => a = proj (set_stateLock lockedMutex x) /\ holding x cl w) Bl.
Proof.
  intros w (Hh & Hm & Hc). cbn. rewrite Hh. repeat split; assumption.
Qed.

Lemma holding_Unlock x cl :
  waits (holding x cl) Unlock (fun _ => standing x cl) Bl.
Proof.
  intros w (Hh & Hm & Hc). unfold Unlock. rewrite Hh. cbn.
  split; [|split; assumption]. rewrite Hh.
  transitivity (set_stateLock unlockedMutex x); [reflexivity | apply set_stateLock_same, Hm].
Qed.

Lemma standing_send receiver x cl v :
  waits (standing x cl) (send_exitChannel receiver v)
        (fun _ w => receiver = true /\ standing x (OSendExit v :: cl) w)
        (fun w => receiver = false /\ channelLog w = cl).
Proof.
  intros w (Hh & Hm & Hc). destruct receiver; cbn; [|auto].
  split; [reflexivity|]. split; [exact Hh|]. split; [exact Hm|].
  exact (f_equal (cons (OSendExit v)) Hc).
Qed.

Lemma standing_close x cl :
  waits (standing x cl) (emit OCloseExit) (fun _ => standing x (OCloseExit :: cl)) Bl.
Proof.
  intros w (Hh & Hm & Hc). cbn.
  split; [exact Hh|]. split; [exact Hm|].
  exact (f_equal (cons OCloseExit) Hc).
Qed.

End ExitWatcher.

Lemma exitWatcherLoop_silent : forall rounds x,
  waits (standing x []) (exitWatcherLoop rounds)
        (fun _ w => exists x', standing x' [] w) (fun w => channelLog w = []).
Proof.
  induction rounds as [|r rest IH]; intros x; cbn [exitWatcherLoop].
  - intros w (_ & _ & Hc). exact Hc.
  - eapply waits_bind; [apply standing_meanwhile|]. intros ?; cbv beta.
    eapply waits_bind; [apply standing_isRunning|]. intros running w [_ Hw]. revert w Hw.
    destruct (negb running).
    + intros w Hw. eexists. exact Hw.
    + destruct (fired r).
      * intros w Hw. eexists. exact Hw.
      * eapply waits_bind; [apply standing_emit; reflexivity|]. intros ?; cbv beta.
        apply IH.
Qed.

Lemma exitWatcherLoop_cancelled r rest x :
  fired r = ctx_Done ->
  waits (standing x []) (exitWatcherLoop (r :: rest))
        (fun _ => standing (interfered (others r) x) []) (fun _ => False).
Proof.
  intros Hf. cbn [exitWatcherLoop]. rewrite Hf.
  eapply waits_bind; [apply standing_meanwhile|]. intros ?; cbv beta.
  eapply waits_bind; [apply standing_isRunning|]. intros running w [_ Hw].
  destruct (negb running); exact Hw.
Qed.

Lemma exitWatcherLoop_kept (Q : unit -> World -> Prop) (Bl : World -> Prop) post :
  forall pre x,
    keptWatching x pre ->
    waits (standing (seen x pre) []) (exitWatcherLoop post) Q Bl ->
    waits (standing x []) (exitWatcherLoop (pre ++ post)) Q Bl.
Proof.
  induction pre as [|r pre IH]; intros x Hk Hpost; [exact Hpost|].
  destruct Hk as (Hrun & Hf & Hk). cbn [app exitWatcherLoop]. rewrite Hf.
  eapply waits_bind; [apply standing_meanwhile|]. intros ?; cbv beta.
  eapply waits_bind; [apply standing_isRunning|]. intros running w [-> Hw].
  revert w Hw. rewrite Hrun. cbn [negb].
  eapply waits_bind; [apply standing_emit; reflexivity|]. intros ?; cbv beta.
  apply IH; assumption.
Qed.

(** The deferred function of the watcher. *)
Lemma exitWatcher_deferred atExit receiver x :
  waits (standing x [])
    (logger_c "Debug" "Stopping exitWatcher" ;;
     meanwhile atExit ;;
     Lock ;;
     result <- read FexitResult exitResult ;;
     Unlock ;;
     send_exitChannel receiver result ;;
     emit OCloseExit)
    (fun _ w =>
       receiver = true /\
       channelLog w = [OCloseExit; OSendExit (exitResult (atExit x))] /\
       exitResult (handle w) = exitResult (atExit x))
    (fun w => receiver = false /\ channelLog w = []).
Proof.
  eapply waits_bind; [apply standing_logger_c|]. intros ?; cbv beta.
  eapply waits_bind; [apply standing_meanwhile|]. intros ?; cbv beta.
  eapply waits_bind; [apply standing_Lock|]. intros ?; cbv beta.
  eapply waits_bind; [apply holding_read|]. intros result w [-> Hw]. revert w Hw.
  eapply waits_bind; [apply holding_Unlock|]. intros ?; cbv beta.
  eapply waits_bind; [apply standing_send|]. intros ? w [Hr Hw].
  pose proof (standing_close (fun w => receiver = false /\ channelLog w = []) _ _ w Hw) as H.
  cbn in H |- *. destruct H as (Hh & _ & Hc). cbn in Hh. rewrite Hh. auto.
Qed.

Lemma channel_ops_in_order A (r : Result World A) :
  exitChannelOps (ops r) = rev (channelLog (state_of r)).
Proof.
  unfold ops, trace, channelLog, exitChannelOps. rewrite map_rev. apply filter_rev.
Qed.

Lemma start_standing h : stateLock h = unlockedMutex -> standing h [] (start h).
Proof. intros H. repeat split. exact H. Qed.

(** C1, as amended.  The watcher never panics.  Whenever it returns, by
    either way out of its loop, its deferred function has sent exactly
    one value on the exit channel, the exit result the handle holds at
    that moment, and then closed the channel; while it has not returned
    nothing went over the channel.  In particular, when cancellation is
    selected in a turn that follows turns in which the task was found
    running, whatever the state in that turn (also Running), the watcher
    returns as soon as the receiver takes the value, which is the exit
    result as it stands. *)
Theorem exitWatcher_sends_on_every_return rounds atExit receiver h :
  stateLock h = unlockedMutex ->
  let r := runExitWatcher rounds atExit receiver (start h) in
  match r with
  | Done _ w' =>
      exitChannelOps (ops r) = [OSendExit (exitResult (handle w')); OCloseExit]
  | Blocked _ => exitChannelOps (ops r) = []
  | Panic _ => False
  end /\
  (forall pre r1 rest,
     rounds = pre ++ r1 :: rest -> keptWatching h pre ->
     fired r1 = ctx_Done -> receiver = true ->
     returned r = true /\
     exitChannelOps (ops r) =
       [OSendExit (exitResult (atExit (interfered (others r1) (seen h pre))));
        OCloseExit]).
Proof.
  intros Hm r. split.
  - assert (H : waits (standing h []) (runExitWatcher rounds atExit receiver)
                  (fun _ w => channelLog w = [OCloseExit; OSendExit (exitResult (handle w))])
                  (fun w => channelLog w = [])).
    { unfold runExitWatcher.
      eapply waits_bind; [apply standing_emit; reflexivity|]. intros ?; cbv beta.
      eapply waits_bind; [apply standing_logger_c|]. intros ?; cbv beta.
      eapply waits_defer; [apply exitWatcherLoop_silent|].
      intros ? w [x' Hw]. pose proof (exitWatcher_deferred atExit receiver x' w Hw) as Hd.
      cbv beta in Hd.
      destruct (bind _ _ w) as [a' w'| |]; [|exact Hd | apply Hd].
      destruct Hd as (_ & Hc & He). rewrite He. exact Hc. }
    specialize (H (start h) (start_standing h Hm)). fold r in H.
    rewrite channel_ops_in_order.
    destruct r as [a w'| |]; cbn [state_of]; [|exact H|].
    + rewrite H. reflexivity.
    + rewrite H. reflexivity.
  - intros pre r1 rest -> Hk Hf ->.
    assert (H : waits (standing h []) (runExitWatcher (pre ++ r1 :: rest) atExit true)
                  (fun _ w => channelLog w =
                     [OCloseExit;
                      OSendExit (exitResult (atExit (interfered (others r1) (seen h pre))))])
                  (fun _ => False)).
    { unfold runExitWatcher.
      eapply waits_bind; [apply standing_emit; reflexivity|]. intros ?; cbv beta.
      eapply waits_bind; [apply standing_logger_c|]. intros ?; cbv beta.
      eapply waits_defer;
        [apply exitWatcherLoop_kept; [exact Hk | apply exitWatcherLoop_cancelled, Hf]|].
      intros ? w Hw.
      pose proof (exitWatcher_deferred atExit true _ w Hw) as Hd. cbv beta in Hd.
      destruct (bind _ _ w) as [a' w'| |]; [|exact Hd | destruct Hd; discriminate].
      destruct Hd as (_ & Hc & _). exact Hc. }
    specialize (H (start h) (start_standing h Hm)). fold r in H.
    rewrite channel_ops_in_order.
    destruct r as [a w'| |]; cbn [state_of returned]; try contradiction.
    rewrite H. split; reflexivity.
Qed.

Lemma exitWatcher_sends_on_every_return_witness :
  returned (runExitWatcher [cancelRound] (fun h => h) true (start handle0)) = true /\
  exitChannelOps (ops (runExitWatcher [cancelRound] (fun h => h) true (start handle0)))
  = [OSendExit (exitResult (interfered (others cancelRound) handle0)); OCloseExit].
Proof.
  pose proof (exitWatcher_sends_on_every_return [cancelRound] (fun h => h) true
                handle0 eq_refl) as H.
  cbv zeta in H. destruct H as [_ H].
  specialize (H [] cancelRound [] eq_refl I eq_refl eq_refl).
  vm_compute in H |- *. exact H.
Defined.

(** C1, as stated, fails: the handle is Running, cancellation is selected
    in the first turn, and the watcher still sends a value on the exit
    channel (the allocated, empty exit result) before it closes it. *)
Lemma exitWatcher_sends_after_cancellation :
  let r := runExitWatcher [cancelRound] (fun h => h) true (start handle0) in
  procState handle0 = drivers.TaskStateRunning /\
  returned r = true /\
  exitChannelOps (ops r) = [OSendExit (Some drivers.zeroExitResult); OCloseExit] /\
  exitChannelOps (ops r) <> [OCloseExit] /\
  exitChannelOps (ops r) <> [].
Proof.
  vm_compute. repeat split; discriminate.
Qed.

(** ** The log streamer *)

Lemma hoare_consequence A (P P' : World -> Prop) (Q Q' : A -> World -> Prop)
    (E E' : World -> Prop) (g : G A) :
  hoare P g Q E ->
  (forall w, P' w -> P w) -> (forall a w, Q a w -> Q' a w) -> (forall w, E w -> E' w) ->
  hoare P' g Q' E'.
Proof.
  intros H HP HQ HE w Hw. specialize (H w (HP w Hw)).
  destruct (g w); auto.
Qed.

Lemma hoare_defer A (P : World -> Prop) (Q R : A -> World -> Prop) (E : World -> Prop)
    (d : G unit) (body : G A) :
  hoare P body Q E ->
  (forall a, hoare (Q a) d (fun _ => R a) E) ->
  hoare E d (fun _ => E) E ->
  hoare P (defer d body) R E.
Proof.
  intros Hb Hd He w Hw. unfold defer. specialize (Hb w Hw).
  destruct (body w) as [a w'|w'|w'].
  - specialize (Hd a w' Hb). destruct (d w'); auto.
  - specialize (He w' Hb). destruct (d w'); auto.
  - exact Hb.
Qed.

Lemma sinces_app a : forall c, sinces (a ++ c) = sinces a ++ sinces c.
Proof.
  induction a as [|o a IH]; intros c; [reflexivity|].
  destruct o; cbn; rewrite ?IH; reflexivity.
Qed.





Section Cursor.

Variable R : Time -> Time -> Prop.
Hypothesis R_refl : forall a, R a a.
Hypothesis R_trans : forall a b c, R a b -> R b c -> R a c.
Variable p0 : Time.
Variable E : World -> Prop.

(** A step that moves the cursor forward, or not at all. *)
Lemma cursorLog_step o f w :
  usesCursor {| op := o; after := f (handle w) |} ->
  R (logPointer (handle w)) (logPointer (f (handle w))) ->
  cursorLog R p0 w ->
  cursorLog R p0 {| handle := f (handle w);
                    log := {| op := o; after := f (handle w) |} :: log w |}.
Proof.
  intros Hu Hr (Hs & Hf & Hp & Hc). unfold cursorLog. cbn [handle log].
  split; [|split; [|split]].
  - constructor; [exact Hs|].
    eapply Forall_impl; [|exact Hf]. cbv beta. cbn [after].
    intros e [_ He]. eapply R_trans; eassumption.
  - constructor.
    + cbn [after]. split; [eapply R_trans; eassumption | apply R_refl].
    + eapply Forall_impl; [|exact Hf]. cbv beta.
      intros e [He1 He2]. split; [exact He1 | eapply R_trans; eassumption].
  - eapply R_trans; eassumption.
  - constructor; assumption.
Qed.




Lemma streaming_Lock cur uses :
  hoare (streaming R p0 cur uses) Lock (fun _ => streamingAt lockedMutex R p0 cur uses) E.
Proof.
  intros w (Hm & Hc & Hu & Hl). unfold Lock. rewrite Hm. cbn.
  split; [reflexivity|]. split; [exact Hc|]. split; [exact Hu|].
  exact (cursorLog_step OLock (set_stateLock {| writer := true; readers := 0 |}) w
           I (R_refl _) Hl).
Qed.

Lemma streaming_Unlock cur uses :
  hoare (streamingAt lockedMutex R p0 cur uses) Unlock (fun _ => streaming R p0 cur uses) E.
Proof.
  intros w (Hm & Hc & Hu & Hl). unfold Unlock. rewrite Hm. cbn.
  split; [reflexivity|]. split; [exact Hc|]. split; [exact Hu|].
  exact (cursorLog_step OUnlock (set_stateLock {| writer := false; readers := 0 |}) w
           I (R_refl _) Hl).
Qed.

Lemma streaming_write m cur uses v :
  R cur v ->
  hoare (streamingAt m R p0 cur uses) (write FlogPointer (set_logPointer v))
        (fun _ => streamingAt m R p0 v uses) E.
Proof.
  intros Hr w (Hm & Hc & Hu & Hl). cbn.
  split; [exact Hm|]. split; [reflexivity|]. split; [exact Hu|].
  apply (cursorLog_step (OWrite FlogPointer) (set_logPointer v) w I); [|exact Hl].
  cbn. rewrite Hc. exact Hr.
Qed.

(** [h.stateLock.Lock(); h.logPointer = since; h.stateLock.Unlock()] *)
Lemma streaming_advance cur uses v :
  R cur v ->
  hoare (streaming R p0 cur uses)
        (Lock ;; write FlogPointer (set_logPointer v) ;; Unlock)
        (fun _ => streaming R p0 v uses) E.
Proof.
  intros Hr.
  eapply hoare_bind; [apply streaming_Lock|]. intros ?; cbv beta.
  eapply hoare_bind; [apply streaming_write, Hr|]. intros ?; cbv beta.
  apply streaming_Unlock.
Qed.

End Cursor.

Section CursorLoop.

Variable R : Time -> Time -> Prop.
Hypothesis R_refl : forall a, R a a.
Hypothesis R_trans : forall a b c, R a b -> R b c -> R a c.
Variable p0 : Time.








End CursorLoop.

Lemma hoare_state A (P Q : World -> Prop) (g : G A) w :
  hoare P g (fun _ => Q) Q -> P w -> Q (state_of (g w)).
Proof.
  intros H Hw. specialize (H w Hw). destruct (g w); exact H.
Qed.






(** ** The broadcaster: fan-out *)

Lemma chan_eqb_eq a c : broadcaster.chan_eqb a c = true <-> a = c.
Proof.
  destruct a as [|i], c as [|j]; cbn; split; intros H;
    try reflexivity; try discriminate.
  - apply Nat.eqb_eq in H. congruence.
  - injection H as ->. apply Nat.eqb_refl.
Qed.

Lemma chan_eqb_refl a : broadcaster.chan_eqb a a = true.
Proof. apply chan_eqb_eq. reflexivity. Qed.

Lemma chan_eqb_neq a c : a <> c -> broadcaster.chan_eqb a c = false.
Proof.
  intros H. destruct (broadcaster.chan_eqb a c) eqn:E; [|reflexivity].
  apply chan_eqb_eq in E. contradiction.
Qed.

(** The range loop of a broadcast: every listener is tried once, in
    order; the ready ones get the value, nothing else changes, and the
    loop runs to its end whatever [ready] says. *)
Lemma broadcast_delivers T (ready : broadcaster.chan -> bool) (v : T) :
  forall ls s,
    ~ In broadcaster.chan_nil ls ->
    (forall c, In c ls -> broadcaster.is_closed c s = false) ->
    broadcaster.broadcast ready ls v s =
    Done tt {| broadcaster.listeners := broadcaster.listeners s;
               broadcaster.closed := broadcaster.closed s;
               broadcaster.delivered :=
                 rev (map (fun l => (l, v)) (filter ready ls)) ++ broadcaster.delivered s |}.
Proof.
  induction ls as [|l rest IH]; intros s Hnil Hopen.
  - destruct s; reflexivity.
  - cbn [broadcaster.broadcast]. unfold bind, broadcaster.trySend.
    destruct l as [|i]; [exfalso; apply Hnil; left; reflexivity|].
    rewrite (Hopen (broadcaster.chan_at i) (or_introl eq_refl)).
    cbn [filter]. destruct (ready (broadcaster.chan_at i)).
    + rewrite IH.
      * cbn [broadcaster.listeners broadcaster.closed broadcaster.delivered map rev].
        rewrite <- app_assoc. reflexivity.
      * intros H. apply Hnil. right. exact H.
      * intros c Hc. unfold broadcaster.is_closed. cbn [broadcaster.closed].
        apply (Hopen c). right. exact Hc.
    + apply IH.
      * intros H. apply Hnil. right. exact H.
      * intros c Hc. apply Hopen. right. exact Hc.
Qed.

(** C6.  For every stats batch and every error the serve loop receives,
    in a state where no listener is nil, closed or listed twice, the turn
    of the loop returns whatever channels are ready: each listener of the
    list whose channel is ready has received the event, in list order,
    each other listener is skipped, and neither the listener lists nor
    the closed channels change. *)
Theorem serve_broadcast_never_waits b ready :
  broadcaster.state_ok b ->
  (forall stats,
     exists b',
       broadcaster.handleMsg (broadcaster.statsChan stats ready) b = Done tt b' /\
       broadcaster.statsListeners b' = broadcaster.statsListeners b /\
       broadcaster.closed (broadcaster.statsHub b') = broadcaster.closed (broadcaster.statsHub b) /\
       broadcaster.errHub b' = broadcaster.errHub b /\
       broadcaster.delivered (broadcaster.statsHub b') =
         rev (map (fun l => (l, stats)) (filter ready (broadcaster.statsListeners b)))
         ++ broadcaster.delivered (broadcaster.statsHub b)) /\
  (forall err,
     exists b',
       broadcaster.handleMsg (broadcaster.errStatsChan err ready) b = Done tt b' /\
       broadcaster.errListeners b' = broadcaster.errListeners b /\
       broadcaster.closed (broadcaster.errHub b') = broadcaster.closed (broadcaster.errHub b) /\
       broadcaster.statsHub b' = broadcaster.statsHub b /\
       broadcaster.delivered (broadcaster.errHub b') =
         rev (map (fun l => (l, err)) (filter ready (broadcaster.errListeners b)))
         ++ broadcaster.delivered (broadcaster.errHub b)).
Proof.
  intros [(_ & Hn1 & Ho1) (_ & Hn2 & Ho2)]. split.
  - intros stats. cbn [broadcaster.handleMsg]. unfold broadcaster.onStats.
    rewrite (broadcast_delivers _ ready stats _ _ Hn1 Ho1).
    eexists. split; [reflexivity|]. repeat split.
  - intros err. cbn [broadcaster.handleMsg]. unfold broadcaster.onErrs.
    rewrite (broadcast_delivers _ ready err _ _ Hn2 Ho2).
    eexists. split; [reflexivity|]. repeat split.
Qed.

Lemma threeListeners_ok : broadcaster.state_ok threeListeners.
Proof.
  assert (H : forall T, @broadcaster.hub_ok T
            {| broadcaster.listeners :=
                 [broadcaster.chan_at 0; broadcaster.chan_at 1; broadcaster.chan_at 2];
               broadcaster.closed := [];
               broadcaster.delivered := [] |}).
  { intros T. split; [|split].
    - repeat constructor; cbn; intuition discriminate.
    - cbn. intuition discriminate.
    - reflexivity. }
  split; apply H.
Qed.

Lemma serve_broadcast_never_waits_witness :
  exists b',
    broadcaster.handleMsg (broadcaster.statsChan [] onlySecondReady) threeListeners
      = Done tt b' /\
    broadcaster.delivered (broadcaster.statsHub b') = [(broadcaster.chan_at 1, [])].
Proof.
  destruct (proj1 (serve_broadcast_never_waits threeListeners onlySecondReady
                     threeListeners_ok) []) as (b' & Hr & _ & _ & _ & Hd).
  exists b'. split; [exact Hr | exact Hd].
Defined.

(** ** The broadcaster: cancelling a subscription *)

Lemma cut_middle A (x : A) (l2 : list A) : forall L : list A,
  firstn (List.length L) (L ++ x :: l2) ++ skipn (S (List.length L)) (L ++ x :: l2) = L ++ l2.
Proof.
  induction L as [|y L IH]; cbn; [reflexivity|]. f_equal. exact IH.
Qed.

Lemma removeFrom_absent T remove : forall ls i (s : broadcaster.Hub T),
  ~ In remove ls -> broadcaster.removeFrom i ls remove s = Done tt s.
Proof.
  induction ls as [|l rest IH]; intros i s Hn; cbn [broadcaster.removeFrom].
  - reflexivity.
  - rewrite chan_eqb_neq.
    + apply IH. intros H. apply Hn. right. exact H.
    + intros ->. apply Hn. left. reflexivity.
Qed.

Lemma removeFrom_present T remove l2 : forall l1 pre (s : broadcaster.Hub T),
  ~ In remove l1 ->
  broadcaster.listeners s = pre ++ l1 ++ remove :: l2 ->
  remove <> broadcaster.chan_nil ->
  broadcaster.is_closed remove s = false ->
  broadcaster.removeFrom (List.length pre) (l1 ++ remove :: l2) remove s =
  Done tt {| broadcaster.listeners := pre ++ l1 ++ l2;
             broadcaster.closed := remove :: broadcaster.closed s;
             broadcaster.delivered := broadcaster.delivered s |}.
Proof.
  induction l1 as [|x l1 IH]; intros pre s Hn Hl Hnil Hopen.
  - cbn [app broadcaster.removeFrom]. rewrite chan_eqb_refl.
    unfold bind, broadcaster.cutListener, broadcaster.close.
    destruct remove as [|i]; [contradiction|].
    unfold broadcaster.is_closed in *. cbn [broadcaster.closed]. rewrite Hopen.
    cbn [broadcaster.listeners broadcaster.closed broadcaster.delivered].
    rewrite Hl. cbn [app]. rewrite cut_middle. reflexivity.
  - cbn [app broadcaster.removeFrom]. rewrite chan_eqb_neq.
    + replace (S (List.length pre)) with (List.length (pre ++ [x]))
        by (rewrite length_app; cbn; lia).
      rewrite (IH (pre ++ [x]) s); auto.
      * rewrite <- app_assoc. reflexivity.
      * intros H. apply Hn. right. exact H.
      * rewrite Hl, <- app_assoc. reflexivity.
    + intros ->. apply Hn. left. reflexivity.
Qed.

(** Removing a listener of a well-formed hub. *)
Lemma removeListener_present T remove (s : broadcaster.Hub T) :
  broadcaster.hub_ok s -> In remove (broadcaster.listeners s) ->
  exists l1 l2,
    broadcaster.listeners s = l1 ++ remove :: l2 /\
    ~ In remove (l1 ++ l2) /\
    broadcaster.is_closed remove s = false /\
    broadcaster.removeListener remove s =
      Done tt {| broadcaster.listeners := l1 ++ l2;
                 broadcaster.closed := remove :: broadcaster.closed s;
                 broadcaster.delivered := broadcaster.delivered s |} /\
    broadcaster.hub_ok {| broadcaster.listeners := l1 ++ l2;
                          broadcaster.closed := remove :: broadcaster.closed s;
                          broadcaster.delivered := broadcaster.delivered s |}.
Proof.
  intros (Hd & Hnil & Hopen) Hin.
  destruct (in_split _ _ Hin) as (l1 & l2 & Hl).
  rewrite Hl in Hd, Hnil.
  pose proof (NoDup_remove_1 _ _ _ Hd) as Hd1.
  pose proof (NoDup_remove_2 _ _ _ Hd) as Hd2.
  exists l1, l2. split; [exact Hl|]. split; [exact Hd2|].
  split; [apply Hopen, Hin|]. split.
  - unfold broadcaster.removeListener. rewrite Hl.
    apply (removeFrom_present T remove l2 l1 [] s).
    + intros H. apply Hd2, in_or_app. left. exact H.
    + exact Hl.
    + intros ->. apply Hnil, in_or_app. right. left. reflexivity.
    + apply Hopen, Hin.
  - split; [exact Hd1|]. split.
    + cbn. intros H. apply Hnil. apply in_app_or in H. apply in_or_app.
      destruct H as [H|H]; [left | right; right]; exact H.
    + cbn [broadcaster.listeners]. intros c Hc.
      unfold broadcaster.is_closed. cbn [broadcaster.closed existsb].
      rewrite chan_eqb_neq; [|intros ->; contradiction].
      apply Hopen. rewrite Hl. apply in_app_or in Hc. apply in_or_app.
      destruct Hc as [H|H]; [left | right; right]; exact H.
Qed.

Lemma removeListener_absent T remove (s : broadcaster.Hub T) :
  ~ In remove (broadcaster.listeners s) ->
  broadcaster.removeListener remove s = Done tt s.
Proof. intros H. apply removeFrom_absent, H. Qed.

Lemma cancel_unknown ch errCh rest b :
  ~ In ch (broadcaster.statsListeners b) ->
  ~ In errCh (broadcaster.errListeners b) ->
  broadcaster.serveLoop (broadcaster.CancelSubscription ch errCh ++ rest) b =
  broadcaster.serveLoop rest b.
Proof.
  intros H1 H2. cbn [broadcaster.CancelSubscription app broadcaster.serveLoop
                     broadcaster.handleMsg].
  unfold bind, broadcaster.onStats, broadcaster.onErrs.
  rewrite (removeListener_absent _ ch _ H1). cbn [broadcaster.errHub].
  rewrite (removeListener_absent _ errCh _ H2). destruct b; reflexivity.
Qed.

(** C7.  [CancelSubscription] on channels that are not in the listener
    lists (never registered, or cancelled before) changes nothing at all
    and closes nothing: the state [serve] is left in after the two
    messages is the state it was in.  On a registered subscription, in a
    state where no listener is nil, closed or listed twice, the state
    [serve] is left in has both channels taken out of the lists, the
    other listeners kept in order, and each of the two channels closed
    once (they were open before); cancelling the same subscription again
    then leaves that state as it is. *)
Theorem CancelSubscription_idempotent b ch errCh rest :
  (~ In ch (broadcaster.statsListeners b) ->
   ~ In errCh (broadcaster.errListeners b) ->
   state_of (broadcaster.serveLoop (broadcaster.CancelSubscription ch errCh) b) = b /\
   broadcaster.serveLoop (broadcaster.CancelSubscription ch errCh ++ rest) b =
   broadcaster.serveLoop rest b) /\
  (broadcaster.state_ok b ->
   In ch (broadcaster.statsListeners b) ->
   In errCh (broadcaster.errListeners b) ->
   let b' := state_of (broadcaster.serveLoop (broadcaster.CancelSubscription ch errCh) b) in
   exists s1 s2 e1 e2,
     broadcaster.serveLoop (broadcaster.CancelSubscription ch errCh ++ rest) b =
     broadcaster.serveLoop rest b' /\
     broadcaster.statsListeners b = s1 ++ ch :: s2 /\
     broadcaster.statsListeners b' = s1 ++ s2 /\
     ~ In ch (broadcaster.statsListeners b') /\
     broadcaster.errListeners b = e1 ++ errCh :: e2 /\
     broadcaster.errListeners b' = e1 ++ e2 /\
     ~ In errCh (broadcaster.errListeners b') /\
     broadcaster.is_closed ch (broadcaster.statsHub b) = false /\
     broadcaster.closed (broadcaster.statsHub b') =
       ch :: broadcaster.closed (broadcaster.statsHub b) /\
     broadcaster.is_closed errCh (broadcaster.errHub b) = false /\
     broadcaster.closed (broadcaster.errHub b') =
       errCh :: broadcaster.closed (broadcaster.errHub b) /\
     broadcaster.delivered (broadcaster.statsHub b') =
       broadcaster.delivered (broadcaster.statsHub b) /\
     broadcaster.delivered (broadcaster.errHub b') =
       broadcaster.delivered (broadcaster.errHub b) /\
     broadcaster.state_ok b' /\
     state_of (broadcaster.serveLoop (broadcaster.CancelSubscription ch errCh) b') = b' /\
     forall rest',
       broadcaster.serveLoop (broadcaster.CancelSubscription ch errCh ++ rest') b' =
       broadcaster.serveLoop rest' b').
Proof.
  assert (Hnoop : forall b0,
            ~ In ch (broadcaster.statsListeners b0) ->
            ~ In errCh (broadcaster.errListeners b0) ->
            state_of (broadcaster.serveLoop (broadcaster.CancelSubscription ch errCh) b0)
            = b0).
  { intros b0 H1 H2.
    rewrite <- (app_nil_r (broadcaster.CancelSubscription ch errCh)).
    rewrite (cancel_unknown ch errCh [] b0 H1 H2). reflexivity. }
  split; [intros H1 H2; split; [apply Hnoop | apply cancel_unknown]; assumption|].
  intros [Hs He] H1 H2.
  destruct (removeListener_present _ ch _ Hs H1) as (s1 & s2 & Hl1 & Hn1 & Ho1 & Hr1 & Hk1).
  destruct (removeListener_present _ errCh _ He H2) as (e1 & e2 & Hl2 & Hn2 & Ho2 & Hr2 & Hk2).
  assert (Hrun : forall rest0,
            broadcaster.serveLoop (broadcaster.CancelSubscription ch errCh ++ rest0) b =
            broadcaster.serveLoop rest0
              {| broadcaster.statsHub :=
                   {| broadcaster.listeners := s1 ++ s2;
                      broadcaster.closed := ch :: broadcaster.closed (broadcaster.statsHub b);
                      broadcaster.delivered := broadcaster.delivered (broadcaster.statsHub b) |};
                 broadcaster.errHub :=
                   {| broadcaster.listeners := e1 ++ e2;
                      broadcaster.closed := errCh :: broadcaster.closed (broadcaster.errHub b);
                      broadcaster.delivered := broadcaster.delivered (broadcaster.errHub b) |} |}).
  { intros rest0.
    cbn [broadcaster.CancelSubscription app broadcaster.serveLoop broadcaster.handleMsg].
    unfold bind, broadcaster.onStats, broadcaster.onErrs.
    rewrite Hr1. cbn [broadcaster.errHub]. rewrite Hr2. reflexivity. }
  assert (Hb' : state_of (broadcaster.serveLoop (broadcaster.CancelSubscription ch errCh) b) =
                {| broadcaster.statsHub :=
                     {| broadcaster.listeners := s1 ++ s2;
                        broadcaster.closed := ch :: broadcaster.closed (broadcaster.statsHub b);
                        broadcaster.delivered := broadcaster.delivered (broadcaster.statsHub b) |};
                   broadcaster.errHub :=
                     {| broadcaster.listeners := e1 ++ e2;
                        broadcaster.closed := errCh :: broadcaster.closed (broadcaster.errHub b);
                        broadcaster.delivered := broadcaster.delivered (broadcaster.errHub b) |} |}).
  { rewrite <- (app_nil_r (broadcaster.CancelSubscription ch errCh)), Hrun. reflexivity. }
  cbv zeta. rewrite Hb'. exists s1, s2, e1, e2.
  split; [apply Hrun|].
  cbn [broadcaster.statsListeners broadcaster.errListeners broadcaster.statsHub
       broadcaster.errHub broadcaster.listeners broadcaster.closed broadcaster.delivered].
  unfold broadcaster.statsListeners, broadcaster.errListeners.
  cbn [broadcaster.statsHub broadcaster.errHub broadcaster.listeners].
  repeat (split; [first [assumption | reflexivity]|]).
  split; [split; assumption|].
  split; [apply Hnoop; assumption|].
  intros rest'. apply cancel_unknown; assumption.
Qed.

Lemma CancelSubscription_idempotent_witness :
  let b' := state_of (broadcaster.serveLoop
                        (broadcaster.CancelSubscription (broadcaster.chan_at 1)
                                                        (broadcaster.chan_at 1))
                        threeListeners) in
  broadcaster.statsListeners b' = [broadcaster.chan_at 0; broadcaster.chan_at 2] /\
  ~ In (broadcaster.chan_at 1) (broadcaster.statsListeners b') /\
  broadcaster.closed (broadcaster.statsHub b') = [broadcaster.chan_at 1] /\
  state_of (broadcaster.serveLoop
              (broadcaster.CancelSubscription (broadcaster.chan_at 1) (broadcaster.chan_at 1))
              b') = b'.
Proof.
  destruct (proj2 (CancelSubscription_idempotent threeListeners
                     (broadcaster.chan_at 1) (broadcaster.chan_at 1) [])
              threeListeners_ok
              (or_intror (or_introl eq_refl)) (or_intror (or_introl eq_refl)))
    as (s1 & s2 & e1 & e2 & _ & _ & _ & Hn & _ & _ & _ & _ & Hc & _ & _ & _ & _ & _ & Hi & _).
  cbv zeta. split; [vm_compute; reflexivity|]. split; [exact Hn|].
  split; [exact Hc | exact Hi].
Defined.

(** ** The discipline of stateLock *)

Lemma growing_ret A (a : A) : growing (ret a).
Proof. intros w. exists []. reflexivity. Qed.

Lemma growing_panic A : growing (@panic World A).
Proof. intros w. exists []. reflexivity. Qed.

Lemma growing_block A : growing (@block World A).
Proof. intros w. exists []. reflexivity. Qed.

Lemma growing_bind A B (m : G A) (k : A -> G B) :
  growing m -> (forall a, growing (k a)) -> growing (bind m k).
Proof.
  intros Hm Hk w. unfold bind. destruct (Hm w) as [n1 H1].
  destruct (m w) as [a w1| |]; cbn [state_of] in *; try (exists n1; exact H1).
  destruct (Hk a w1) as [n2 H2]. exists (n2 ++ n1). rewrite H2, H1. apply app_assoc.
Qed.

Lemma growing_defer A (d : G unit) (body : G A) :
  growing body -> growing d -> growing (defer d body).
Proof.
  intros Hb Hd w. unfold defer. destruct (Hb w) as [n1 H1].
  destruct (body w) as [a w1|w1|w1]; cbn [state_of] in *; try (exists n1; exact H1).
  - destruct (Hd w1) as [n2 H2]. exists (n2 ++ n1).
    destruct (d w1); cbn [state_of] in *; rewrite H2, H1; apply app_assoc.
  - destruct (Hd w1) as [n2 H2]. exists (n2 ++ n1).
    destruct (d w1); cbn [state_of] in *; rewrite H2, H1; apply app_assoc.
Qed.

Lemma growing_step o f : growing (step o f).
Proof. intros w. eexists [_]. reflexivity. Qed.

Lemma growing_read A f (proj : TaskHandle -> A) : growing (read f proj).
Proof. intros w. eexists [_]. reflexivity. Qed.

Lemma growing_deref A (p : option A) : growing (deref p).
Proof. destruct p; [apply growing_ret | apply growing_panic]. Qed.

Lemma growing_Lock : growing Lock.
Proof.
  intros w. unfold Lock. destruct (_ || _); [exists []; reflexivity | apply growing_step].
Qed.

Lemma growing_Unlock : growing Unlock.
Proof.
  intros w. unfold Unlock. destruct (writer _); [apply growing_step | exists []; reflexivity].
Qed.

Ltac growing :=
  repeat first
    [ apply growing_ret | apply growing_block | apply growing_panic
    | apply growing_step | apply growing_read | apply growing_deref
    | apply growing_Lock | apply growing_Unlock
    | apply growing_bind; [|intros]
    | apply growing_defer
    | assumption
    | match goal with
      | |- growing (match ?x with _ => _ end) => destruct x
      end ].

Lemma growing_logStreamerLoop : forall rounds init since,
  growing (logStreamerLoop init since rounds).
Proof.
  induction rounds as [|r rest IH]; intros init since; cbn [logStreamerLoop].
  - apply growing_block.
  - destruct (cancelled r); [apply growing_ret|].
    unfold logger, emit, write. cbv zeta. growing. apply IH.
Qed.

(** C10 fails on the log streamer.  Whatever the environment does, the
    first step of [runLogStreamer] reads [taskConfig], a field guarded
    by [stateLock], without holding the lock: no run of it respects the
    discipline. *)
Theorem logStreamer_reads_without_lock openStdout openStderr rounds h :
  exists rest,
    ops (runLogStreamer openStdout openStderr rounds (start h)) =
      ORead FtaskConfig :: rest /\
    disciplined NotHeld (ops (runLogStreamer openStdout openStderr rounds (start h)))
      = false.
Proof.
  pose (k := fun cfgp : option drivers.TaskConfig =>
    cfg <- deref cfgp ;;
    emit (OCall "os.OpenFile") ;;
    match openStdout with
    | Some err => logger "Warn" "Unable to open stdout fifo"
    | None =>
        defer (emit (OCall "stdout.Close"))
          (cfgp' <- read FtaskConfig taskConfig ;;
           cfg' <- deref cfgp' ;;
           emit (OCall "os.OpenFile") ;;
           match openStderr with
           | Some err => logger "Warn" "Unable to open stderr fifo"
           | None =>
               defer (emit (OCall "stderr.Close"))
                 (since <- read FlogPointer logPointer ;;
                  logStreamerLoop true since rounds)
           end)
    end).
  assert (Hg : forall cfgp, growing (k cfgp)).
  { intros cfgp. unfold k, logger, emit. growing. apply growing_logStreamerLoop. }
  assert (Hrun : runLogStreamer openStdout openStderr rounds (start h) =
                 k (taskConfig h)
                   {| handle := h; log := [{| op := ORead FtaskConfig; after := h |}] |})
    by reflexivity.
  rewrite Hrun.
  destruct (Hg (taskConfig h)
              {| handle := h; log := [{| op := ORead FtaskConfig; after := h |}] |})
    as [new Hnew].
  cbn [log] in Hnew. unfold ops, trace. rewrite Hnew.
  rewrite rev_app_distr. cbn [rev app map op]. eexists. split; reflexivity.
Qed.

(** The same at one input: both FIFOs open, the context is cancelled
    before the first turn.  The streamer reads [taskConfig] twice and
    [logPointer] once, never taking the lock. *)
Lemma logStreamer_reads_without_lock_run :
  ops (runLogStreamer None None cancelledAtOnce (start handle0)) =
    [ORead FtaskConfig; OCall "os.OpenFile"; ORead FtaskConfig; OCall "os.OpenFile";
     ORead FlogPointer; OCall "stderr.Close"; OCall "stdout.Close"] /\
  disciplined NotHeld (ops (runLogStreamer None None cancelledAtOnce (start handle0)))
    = false.
Proof. vm_compute. split; reflexivity. Qed.

Lemma disciplined_snoc o : forall l held,
  disciplined held (l ++ [o]) =
  disciplined held l && disciplined (fold_left nextHeld l held) [o].
Proof.
  induction l as [|x l IH]; intros held.
  - cbn [app fold_left disciplined]. destruct o; cbn; rewrite ?andb_true_r; reflexivity.
  - destruct x; cbn [app disciplined fold_left nextHeld]; rewrite IH;
      rewrite ?andb_assoc; reflexivity.
Qed.

Lemma orderly_push held w o h' :
  orderly held w -> disciplined held [o] = true ->
  orderly (nextHeld held o) {| handle := h'; log := {| op := o; after := h' |} :: log w |}.
Proof.
  intros [Hd Hh] Ho. unfold orderly. cbn [log map op rev]. split.
  - rewrite disciplined_snoc, Hd, Hh, Ho. reflexivity.
  - rewrite fold_left_app, Hh. reflexivity.
Qed.

Lemma orderly_end held w : orderly held w -> orderlyEnd w.
Proof. intros H. exists held. exact H. Qed.

Lemma orderly_step held o f :
  disciplined held [o] = true ->
  hoare (orderly held) (step o f) (fun _ => orderly (nextHeld held o)) orderlyEnd.
Proof. intros Ho w Hw. cbn. apply orderly_push; assumption. Qed.

Lemma orderly_read A held f (proj : TaskHandle -> A) :
  disciplined held [ORead f] = true ->
  hoare (orderly held) (read f proj) (fun _ => orderly held) orderlyEnd.
Proof. intros Ho w Hw. cbn. apply (orderly_push held w (ORead f)); assumption. Qed.

Lemma orderly_ret A held (a : A) :
  hoare (orderly held) (ret a) (fun _ => orderly held) orderlyEnd.
Proof. apply hoare_ret. Qed.

Lemma orderly_block A held (Q : A -> World -> Prop) :
  hoare (orderly held) block Q orderlyEnd.
Proof. intros w Hw. eapply orderly_end, Hw. Qed.

Lemma orderly_deref A held (p : option A) :
  hoare (orderly held) (deref p) (fun _ => orderly held) orderlyEnd.
Proof. destruct p; intros w Hw; [exact Hw | eapply orderly_end, Hw]. Qed.

Lemma orderly_meanwhile held others :
  hoare (orderly held) (meanwhile others) (fun _ => orderly held) orderlyEnd.
Proof. intros w Hw. exact Hw. Qed.

Lemma orderly_Lock held :
  hoare (orderly held) Lock (fun _ => orderly HeldExclusive) orderlyEnd.
Proof.
  intros w Hw. unfold Lock. destruct (_ || _); [eapply orderly_end, Hw|].
  apply (orderly_step held OLock _ eq_refl w Hw).
Qed.

Lemma orderly_RLock held :
  hoare (orderly held) RLock (fun _ => orderly HeldShared) orderlyEnd.
Proof.
  intros w Hw. unfold RLock. destruct (writer _); [eapply orderly_end, Hw|].
  apply (orderly_step held ORLock _ eq_refl w Hw).
Qed.

Lemma orderly_Unlock held :
  hoare (orderly held) Unlock (fun _ => orderly NotHeld) orderlyEnd.
Proof.
  intros w Hw. unfold Unlock. destruct (writer _); [|eapply orderly_end, Hw].
  apply (orderly_step held OUnlock _ eq_refl w Hw).
Qed.

Lemma orderly_RUnlock held :
  hoare (orderly held) RUnlock (fun _ => orderly NotHeld) orderlyEnd.
Proof.
  intros w Hw. unfold RUnlock. destruct (readers _); [eapply orderly_end, Hw|].
  apply (orderly_step held ORUnlock _ eq_refl w Hw).
Qed.

Lemma orderly_store upd :
  hoare (orderly HeldExclusive) (store_exitResult upd)
        (fun _ => orderly HeldExclusive) orderlyEnd.
Proof.
  intros w Hw. unfold store_exitResult.
  destruct (exitResult (handle w)); [|eapply orderly_end, Hw].
  apply (orderly_step HeldExclusive (OWrite FexitResult) _ eq_refl w Hw).
Qed.

(** From a deferred call that is orderly whatever lock is held to one
    that can run after a panic. *)
Lemma orderly_anyway (d : G unit) :
  (forall held, hoare (orderly held) d (fun _ => orderly NotHeld) orderlyEnd) ->
  hoare orderlyEnd d (fun _ => orderlyEnd) orderlyEnd.
Proof.
  intros H w [held Hw]. specialize (H held w Hw).
  destruct (d w); [eapply orderly_end, H | exact H | exact H].
Qed.

Lemma orderly_defer A held held' (d : G unit) (body : G A) :
  hoare (orderly held) body (fun _ => orderly held') orderlyEnd ->
  (forall m, hoare (orderly m) d (fun _ => orderly NotHeld) orderlyEnd) ->
  hoare (orderly held) (defer d body) (fun _ => orderly NotHeld) orderlyEnd.
Proof.
  intros Hb Hd.
  apply hoare_defer with (Q := fun _ => orderly held');
    [exact Hb | intros _; apply Hd | apply orderly_anyway, Hd].
Qed.

Ltac orderly :=
  unfold logger_c, logger, emit, write;
  repeat first
    [ apply orderly_ret | apply orderly_block | apply orderly_deref
    | apply orderly_meanwhile
    | apply orderly_Lock | apply orderly_Unlock
    | apply orderly_RLock | apply orderly_RUnlock
    | apply orderly_store
    | apply orderly_read; reflexivity
    | apply orderly_step; reflexivity
    | eapply hoare_bind; [|intros ?; cbv beta]
    | assumption
    | match goal with
      | |- hoare _ (match ?x with _ => _ end) _ _ => destruct x
      end ].

Lemma orderly_taskStatus :
  hoare (orderly NotHeld) taskStatus (fun _ => orderly NotHeld) orderlyEnd.
Proof.
  unfold taskStatus. eapply hoare_bind; [apply orderly_RLock|]. intros ?; cbv beta.
  apply orderly_defer with (held' := HeldShared); [orderly | intros m; apply orderly_RUnlock].
Qed.

Lemma orderly_isRunning :
  hoare (orderly NotHeld) isRunning (fun _ => orderly NotHeld) orderlyEnd.
Proof.
  unfold isRunning. eapply hoare_bind; [apply orderly_RLock|]. intros ?; cbv beta.
  apply orderly_defer with (held' := HeldShared); [orderly | intros m; apply orderly_RUnlock].
Qed.

Lemma orderly_exitWatcherLoop : forall rounds,
  hoare (orderly NotHeld) (exitWatcherLoop rounds) (fun _ => orderly NotHeld) orderlyEnd.
Proof.
  induction rounds as [|r rest IH]; cbn [exitWatcherLoop].
  - apply orderly_block.
  - eapply hoare_bind; [apply orderly_meanwhile|]. intros ?; cbv beta.
    eapply hoare_bind; [apply orderly_isRunning|]. intros running; cbv beta.
    destruct (negb running); [apply orderly_ret|].
    destruct (fired r); orderly.
Qed.

Lemma orderly_runExitWatcher rounds atExit receiver :
  hoare (orderly NotHeld) (runExitWatcher rounds atExit receiver)
        (fun _ => orderly NotHeld) orderlyEnd.
Proof.
  unfold runExitWatcher.
  eapply hoare_bind; [orderly|]. intros ?; cbv beta.
  eapply hoare_bind; [orderly|]. intros ?; cbv beta.
  apply orderly_defer with (held' := NotHeld); [apply orderly_exitWatcherLoop|].
  intros m. unfold send_exitChannel. destruct receiver; orderly.
Qed.

Lemma orderly_statsEmitterLoop interval : forall rounds,
  hoare (orderly NotHeld) (statsEmitterLoop interval rounds)
        (fun _ => orderly NotHeld) orderlyEnd.
Proof.
  induction rounds as [|r rest IH]; cbn [statsEmitterLoop].
  - apply orderly_block.
  - destruct (e_fired r); [orderly|]. cbv zeta.
    destruct (e_receiver r); orderly.
Qed.

Lemma orderly_runStatsEmitter interval rounds :
  hoare (orderly NotHeld) (runStatsEmitter interval rounds)
        (fun _ => orderly NotHeld) orderlyEnd.
Proof.
  unfold runStatsEmitter. pose proof (orderly_statsEmitterLoop interval rounds). orderly.
Qed.

Lemma orderly_cacheStats : forall allStats,
  hoare (orderly NotHeld) (cacheStats allStats) (fun _ => orderly NotHeld) orderlyEnd.
Proof.
  induction allStats as [|p rest IH]; cbn [cacheStats]; [apply orderly_ret|].
  eapply hoare_bind; [apply orderly_deref|]. intros stats; cbv beta.
  eapply hoare_bind; [apply orderly_read; reflexivity|]. intros cid; cbv beta.
  destruct (String.eqb _ _); orderly.
Qed.

Lemma orderly_containerDied inspect now :
  hoare (orderly NotHeld) (containerDied inspect now) (fun _ => orderly NotHeld) orderlyEnd.
Proof.
  unfold containerDied. destruct inspect as [d|err]; cbv zeta.
  - destruct (0 <? _)%Z; destruct (api.OOMKilled _); orderly.
  - orderly.
Qed.

Lemma orderly_containerMonitorLoop : forall events,
  hoare (orderly NotHeld) (containerMonitorLoop events)
        (fun _ => orderly NotHeld) orderlyEnd.
Proof.
  induction events as [|ev rest IH]; cbn [containerMonitorLoop].
  - apply orderly_block.
  - destruct ev as [|allStats|err statsErr inspect now].
    + apply orderly_ret.
    + eapply hoare_bind; [apply orderly_cacheStats | intros ?; exact IH].
    + pose proof (orderly_containerDied inspect now).
      destruct statsErr as [statsErr|]; [destruct (isGone statsErr)|]; orderly.
Qed.

Lemma orderly_runContainerMonitor broadcaster events :
  hoare (orderly NotHeld) (runContainerMonitor broadcaster events)
        (fun _ => orderly NotHeld) orderlyEnd.
Proof.
  unfold runContainerMonitor. pose proof (orderly_containerMonitorLoop events).
  destruct broadcaster; cbn [negb]; orderly.
Qed.

Lemma orderly_ops A (g : G A) (Q : A -> World -> Prop) h :
  hoare (orderly NotHeld) g Q orderlyEnd ->
  (forall a w, Q a w -> orderlyEnd w) ->
  disciplined NotHeld (ops (g (start h))) = true.
Proof.
  intros H HQ. specialize (H (start h) (conj eq_refl eq_refl)).
  unfold ops, trace. rewrite map_rev.
  destruct (g (start h)) as [a w| |]; cbn [state_of].
  - destruct (HQ a w H) as [m [Hd _]]. exact Hd.
  - destruct H as [m [Hd _]]. exact Hd.
  - destruct H as [m [Hd _]]. exact Hd.
Qed.

(** Everywhere else the discipline is kept: [taskStatus], [isRunning],
    the exit watcher, the stats emitter and the container monitor read
    the guarded fields only under the lock and write them only under the
    exclusive lock, in every run. *)
Theorem stateLock_discipline_elsewhere h :
  disciplined NotHeld (ops (taskStatus (start h))) = true /\
  disciplined NotHeld (ops (isRunning (start h))) = true /\
  (forall rounds atExit receiver,
     disciplined NotHeld (ops (runExitWatcher rounds atExit receiver (start h))) = true) /\
  (forall interval rounds,
     disciplined NotHeld (ops (runStatsEmitter interval rounds (start h))) = true) /\
  (forall broadcaster events,
     disciplined NotHeld (ops (runContainerMonitor broadcaster events (start h))) = true).
Proof.
  assert (He : forall A (a : A) w, orderly NotHeld w -> orderlyEnd w)
    by (intros A a w Hw; eapply orderly_end, Hw).
  split; [eapply orderly_ops; [apply orderly_taskStatus | apply He]|].
  split; [eapply orderly_ops; [apply orderly_isRunning | apply He]|].
  split; [intros; eapply orderly_ops; [apply orderly_runExitWatcher | apply He]|].
  split; [intros; eapply orderly_ops; [apply orderly_runStatsEmitter | apply He]|].
  intros; eapply orderly_ops; [apply orderly_runContainerMonitor | apply He].
Qed.

(** ** The states the serve loop goes through *)

Lemma chan_in_dec (c : broadcaster.chan) (l : list broadcaster.chan) :
  {In c l} + {~ In c l}.
Proof.
  apply in_dec. intros a a'.
  destruct (broadcaster.chan_eqb a a') eqn:E.
  - left. apply chan_eqb_eq, E.
  - right. intros ->. rewrite chan_eqb_refl in E. discriminate.
Qed.

Lemma hub_ok_add T l (s : broadcaster.Hub T) :
  broadcaster.hub_ok s ->
  l <> broadcaster.chan_nil -> ~ In l (broadcaster.listeners s) ->
  broadcaster.is_closed l s = false ->
  broadcaster.hub_ok {| broadcaster.listeners := broadcaster.listeners s ++ [l];
                        broadcaster.closed := broadcaster.closed s;
                        broadcaster.delivered := broadcaster.delivered s |}.
Proof.
  intros (Hd & Hnil & Hopen) Hl Hn Hc. split; [|split]; cbn [broadcaster.listeners].
  - apply NoDup_app; [exact Hd | repeat constructor; intros [] |].
    intros a Ha [<- | []]. contradiction.
  - intros H. apply in_app_or in H. destruct H as [H | [H | []]];
      [contradiction | congruence].
  - intros c Hin. apply in_app_or in Hin. destruct Hin as [H | [<- | []]].
    + apply (Hopen c H).
    + exact Hc.
Qed.

Lemma hub_ok_remove T remove (s : broadcaster.Hub T) :
  broadcaster.hub_ok s ->
  exists s', broadcaster.removeListener remove s = Done tt s' /\ broadcaster.hub_ok s'.
Proof.
  intros Hs. destruct (chan_in_dec remove (broadcaster.listeners s)) as [Hin | Hn].
  - destruct (removeListener_present T remove s Hs Hin) as (l1 & l2 & _ & _ & _ & Hr & Hk).
    eexists. split; [exact Hr | exact Hk].
  - exists s. split; [apply removeListener_absent, Hn | exact Hs].
Qed.

Lemma hub_ok_broadcast T ready (v : T) (s : broadcaster.Hub T) :
  broadcaster.hub_ok s ->
  exists s',
    broadcaster.broadcast ready (broadcaster.listeners s) v s = Done tt s' /\
    broadcaster.hub_ok s'.
Proof.
  intros (Hd & Hnil & Hopen). rewrite (broadcast_delivers T ready v _ s Hnil Hopen).
  eexists. split; [reflexivity|]. split; [exact Hd | split; [exact Hnil | exact Hopen]].
Qed.

Lemma new_broadcaster_ok : broadcaster.state_ok broadcaster.NewContainerStatsBroadcaster.
Proof.
  split; (split; [constructor | split; [intros [] | intros c []]]).
Qed.

(** Every turn of the serve loop on a well-formed state returns in a
    well-formed state, provided the listeners announced are fresh. *)
Lemma serve_turn_ok m b :
  broadcaster.state_ok b -> freshListener m b ->
  exists b', broadcaster.handleMsg m b = Done tt b' /\ broadcaster.state_ok b'.
Proof.
  intros [Hs He] Hf. destruct m as [|l|l|ch|errCh|stats ready|err ready];
    cbn [broadcaster.handleMsg freshListener] in *.
  - exists b. split; [reflexivity | split; assumption].
  - destruct Hf as (H1 & H2 & H3). eexists. split; [reflexivity|].
    split; [apply hub_ok_add; assumption | exact He].
  - destruct Hf as (H1 & H2 & H3). eexists. split; [reflexivity|].
    split; [exact Hs | apply hub_ok_add; assumption].
  - destruct (hub_ok_remove _ ch _ Hs) as (s' & Hr & Hk).
    unfold broadcaster.onStats. rewrite Hr. eexists. split; [reflexivity|].
    split; assumption.
  - destruct (hub_ok_remove _ errCh _ He) as (s' & Hr & Hk).
    unfold broadcaster.onErrs. rewrite Hr. eexists. split; [reflexivity|].
    split; assumption.
  - destruct (hub_ok_broadcast _ ready stats _ Hs) as (s' & Hr & Hk).
    unfold broadcaster.onStats. rewrite Hr. eexists. split; [reflexivity|].
    split; assumption.
  - destruct (hub_ok_broadcast _ ready err _ He) as (s' & Hr & Hk).
    unfold broadcaster.onErrs. rewrite Hr. eexists. split; [reflexivity|].
    split; assumption.
Qed.

(** * Further properties of the code *)

(** ** errors.Is and the probe errors *)

Lemma errors_Is_chain target : forall err,
  errors_Is err target = true <-> In target (unwrapChain err).
Proof.
  induction err as [| |msg|msg wrapped IH]; cbn [errors_Is unwrapChain];
    match goal with |- context [error_eq_dec ?a ?b] => destruct (error_eq_dec a b) as [He|He] end;
    split; intros H; try reflexivity; try (left; exact He); try discriminate;
    try (destruct H as [H | H]; [contradiction | contradiction]).
  - right. apply IH, H.
  - destruct H as [H | H]; [contradiction | apply IH, H].
Qed.

(** X1.  The monitor takes a probe error for "container gone" exactly
    when one of the two sentinels of the [api] package is in its unwrap
    chain: wrapping with [%w] keeps the verdict, and an error that only
    carries the same message does not count. *)
Theorem isGone_unwraps e :
  (isGone e = true <->
   In ContainerNotFound (unwrapChain e) \/ In ContainerWrongState (unwrapChain e)) /\
  (forall msg, isGone (fmt_Errorf_w msg e) = isGone e) /\
  (forall msg, isGone (errors_New msg) = false).
Proof.
  assert (Hiff : forall x, isGone x = true <->
            In ContainerNotFound (unwrapChain x) \/ In ContainerWrongState (unwrapChain x)).
  { intros x. unfold isGone.
    destruct (errors_Is x ContainerNotFound) eqn:E1.
    - split; [intros _; left; apply errors_Is_chain, E1 | reflexivity].
    - destruct (errors_Is x ContainerWrongState) eqn:E2.
      + split; [intros _; right; apply errors_Is_chain, E2 | reflexivity].
      + split; [discriminate|]. intros [H|H]; apply errors_Is_chain in H; congruence. }
  split; [apply Hiff|]. split.
  - intros msg. destruct (isGone e) eqn:E.
    + apply Hiff. apply Hiff in E. cbn [unwrapChain].
      destruct E as [E|E]; [left | right]; right; exact E.
    + destruct (isGone (fmt_Errorf_w msg e)) eqn:E'; [|reflexivity].
      apply Hiff in E'. cbn [unwrapChain] in E'.
      assert (isGone e = true); [|congruence].
      apply Hiff. destruct E' as [[E'|E']|[E'|E']]; try discriminate; auto.
  - intros msg. destruct (isGone (errors_New msg)) eqn:E; [|reflexivity].
    apply Hiff in E. cbn in E. destruct E as [[E|[]]|[E|[]]]; discriminate.
Qed.

(** ** The readers of the handle *)

(** X2.  On a mutex that no reader holds (no writer can then be
    waiting for readers to leave), [taskStatus] and [isRunning] leave the
    handle exactly as they found it, the mutex included, however they
    end.  [isRunning] waits exactly when a writer holds the mutex, never
    panics, and answers true only for the state Running (not for Unknown
    or Exited).  [taskStatus] waits exactly when a writer holds the
    mutex, panics when [taskConfig] is nil, the deferred unlock still
    giving the read lock back, and otherwise returns the fields of the
    handle. *)
Theorem readers_leave_the_handle w :
  readers (stateLock (handle w)) = 0%nat ->
  handle (state_of (taskStatus w)) = handle w /\
  handle (state_of (isRunning w)) = handle w /\
  match isRunning w with
  | Done running _ =>
      writer (stateLock (handle w)) = false /\
      running = match procState (handle w) with
                | drivers.TaskStateRunning => true
                | _ => false
                end
  | Blocked _ => writer (stateLock (handle w)) = true
  | Panic _ => False
  end /\
  match taskStatus w with
  | Done status _ =>
      writer (stateLock (handle w)) = false /\
      exists cfg, taskConfig (handle w) = Some cfg /\ status = snapshot cfg (handle w)
  | Blocked _ => writer (stateLock (handle w)) = true
  | Panic _ => writer (stateLock (handle w)) = false /\ taskConfig (handle w) = None
  end.
Proof.
  destruct w as [h l].
  destruct h as [cid ci [wr rd] cfg ps sa lp ca er cs rm ls].
  cbn [handle stateLock readers]. intros ->.
  destruct wr; [vm_compute; auto|].
  destruct cfg as [cfg|]; destruct ps; vm_compute; repeat split; try reflexivity;
    exists cfg; split; reflexivity.
Qed.

Lemma readers_leave_the_handle_witness :
  handle (state_of (taskStatus (start handle0))) = handle0 /\
  handle (state_of (isRunning (start handle0))) = handle0 /\
  match isRunning (start handle0) with
  | Done running _ => running = true
  | _ => False
  end.
Proof.
  destruct (readers_leave_the_handle (start handle0) eq_refl) as (H1 & H2 & H3 & _).
  split; [exact H1|]. split; [exact H2|].
  destruct (isRunning (start handle0)) as [running w'| |];
    [apply H3 | exact H3 | discriminate H3].
Defined.

(** ** The monitor while the container lives *)

Section Calm.

Variable b : TaskHandle.

Local Abbreviation stays g := (hoare (calm b) g (fun _ => calm b) (calm b)).

Lemma calm_emit o : stays (emit o).
Proof.
  intros w (Hm & Hu & Hl). cbn.
  split; [exact Hm|]. split; [exact Hu|]. constructor; assumption.
Qed.

Lemma calm_read A f (proj : TaskHandle -> A) : stays (read f proj).
Proof.
  intros w (Hm & Hu & Hl). cbn.
  split; [exact Hm|]. split; [exact Hu|]. constructor; assumption.
Qed.

Lemma calm_deref A (p : option A) : stays (deref p).
Proof. destruct p; intros w H; exact H. Qed.

Lemma calm_cache stats :
  stays (Lock ;; write FcontainerStats (set_containerStats stats) ;; Unlock).
Proof.
  intros w (Hm & Hu & Hl). unfold bind, Lock, write, Unlock, step. rewrite Hm. cbn.
  split; [reflexivity|]. split; [exact Hu|].
  repeat (constructor; [exact Hu|]). exact Hl.
Qed.

Lemma calm_cacheStats : forall allStats, stays (cacheStats allStats).
Proof.
  induction allStats as [|p rest IH]; cbn [cacheStats].
  - apply hoare_ret.
  - eapply hoare_bind; [apply calm_deref|]. intros stats.
    eapply hoare_bind; [apply calm_read|]. intros cid.
    destruct (String.eqb _ _); [apply calm_cache | exact IH].
Qed.

Lemma calm_containerMonitorLoop : forall events,
  Forall (fun ev => confirmsDeath ev = false) events ->
  hoare (calm b) (containerMonitorLoop events)
        (fun _ w => calm b w /\ In driver_ctx_Done events) (calm b).
Proof.
  induction events as [|ev rest IH]; intros Hev.
  - intros w H. exact H.
  - apply Forall_cons_iff in Hev. destruct Hev as [Hno Hrest].
    assert (Htail : hoare (calm b) (containerMonitorLoop rest)
                      (fun _ w => calm b w /\ In driver_ctx_Done (ev :: rest)) (calm b)).
    { eapply hoare_consequence; [apply IH, Hrest | auto | | auto].
      intros _ w [H1 H2]. split; [exact H1 | right; exact H2]. }
    destruct ev as [|allStats|err statsErr inspect now]; cbn [containerMonitorLoop].
    + intros w H. split; [exact H | left; reflexivity].
    + eapply hoare_bind; [apply calm_cacheStats | intros ?; exact Htail].
    + eapply hoare_bind; [apply calm_emit|]. intros ?; cbv beta.
      eapply hoare_bind; [apply calm_read|]. intros ?; cbv beta.
      eapply hoare_bind; [apply calm_emit|]. intros ?; cbv beta.
      destruct statsErr as [statsErr|]; [|exact Htail].
      cbn [confirmsDeath] in Hno. rewrite Hno.
      eapply hoare_bind; [apply calm_emit | intros ?; exact Htail].
Qed.

Lemma calm_runContainerMonitor broadcaster events :
  Forall (fun ev => confirmsDeath ev = false) events ->
  hoare (calm b) (runContainerMonitor broadcaster events)
        (fun _ w => calm b w /\ (broadcaster = false \/ In driver_ctx_Done events))
        (calm b).
Proof.
  intros Hev. unfold runContainerMonitor.
  eapply hoare_bind; [apply calm_emit|]. intros ?; cbv beta.
  destruct broadcaster; cbn [negb].
  - eapply hoare_bind; [apply calm_emit|]. intros ?; cbv beta.
    eapply hoare_consequence; [apply calm_containerMonitorLoop, Hev | auto | | auto].
    intros _ w [H1 H2]. auto.
  - eapply hoare_bind; [apply calm_read|]. intros ?; cbv beta.
    eapply hoare_consequence; [apply calm_emit | auto | | auto].
    intros ? w H. auto.
Qed.

End Calm.

Lemma start_calm h : stateLock h = unlockedMutex -> calm h (start h).
Proof. intros Hm. split; [exact Hm|]. split; [repeat split | constructor]. Qed.

(** X3.  As long as no event confirms the container dead (stats
    batches, broadcast errors whose direct probe succeeds or fails for
    another reason than the two sentinels), the monitor writes nothing
    but the cached stats: at every point of the run the other fields of
    the handle are the initial ones, the unknown probe errors are only
    logged, the monitor ends outside any critical section, and it returns
    only when there is no broadcaster or the driver context is done. *)
Theorem monitor_without_death broadcaster events h :
  stateLock h = unlockedMutex ->
  Forall (fun ev => confirmsDeath ev = false) events ->
  let r := runContainerMonitor broadcaster events (start h) in
  Forall (untouched h) (states h r) /\
  untouched h (handle (state_of r)) /\
  stateLock (handle (state_of r)) = unlockedMutex /\
  (returned r = true -> broadcaster = false \/ In driver_ctx_Done events).
Proof.
  intros Hm Hev r.
  pose proof (calm_runContainerMonitor h broadcaster events Hev (start h) (start_calm h Hm)) as H.
  fold r in H.
  assert (Hc : calm h (state_of r)).
  { destruct r as [a w| |]; cbn [state_of]; [apply H | exact H | exact H]. }
  destruct Hc as (Hlock & Hu & Hl).
  split; [|split; [exact Hu | split; [exact Hlock|]]].
  - unfold states, trace. constructor; [repeat split|].
    apply Forall_map, Forall_rev, Hl.
  - destruct r as [a w| |]; cbn [returned]; [intros _; apply H | discriminate | discriminate].
Qed.

Lemma monitor_without_death_witness :
  let r := runContainerMonitor true quietEvents (start handle0) in
  returned r = true /\
  containerStats (handle (state_of r)) = statsOfC1 /\
  untouched handle0 (handle (state_of r)) /\
  Forall (untouched handle0) (states handle0 r).
Proof.
  pose proof (monitor_without_death true quietEvents handle0 eq_refl) as H.
  cbv zeta in H |- *.
  assert (Hev : Forall (fun ev => confirmsDeath ev = false) quietEvents).
  { repeat constructor. }
  destruct (H Hev) as (H1 & H2 & _ & _).
  split; [vm_compute; reflexivity|]. split; [vm_compute; reflexivity|].
  split; [exact H2 | exact H1].
Defined.

(** ** One batch of stats *)

Lemma cacheStats_skip stats rest w :
  api.ContainerID stats <> containerID (handle w) ->
  cacheStats (Some stats :: rest) w =
  cacheStats rest {| handle := handle w;
                     log := {| op := ORead FcontainerID; after := handle w |} :: log w |}.
Proof.
  intros Hne. cbn [cacheStats]. unfold bind at 1 2. cbn [deref ret read].
  apply String.eqb_neq in Hne. rewrite Hne. reflexivity.
Qed.

Lemma cacheStats_hit stats rest w :
  stateLock (handle w) = unlockedMutex ->
  api.ContainerID stats = containerID (handle w) ->
  exists w', cacheStats (Some stats :: rest) w = Done tt w' /\
             handle w' = set_containerStats stats (handle w).
Proof.
  intros Hm He. cbn [cacheStats]. unfold bind at 1 2. cbn [deref ret read].
  apply String.eqb_eq in He. rewrite He.
  unfold bind, Lock, write, Unlock, step. cbn [handle log]. rewrite Hm. cbn.
  eexists. split; [reflexivity|]. cbn [handle].
  destruct w as [h l]. destruct h. cbn in Hm |- *. rewrite Hm. reflexivity.
Qed.

(** X4.  Of a batch the monitor caches the first entry of its own
    container and stops there: entries of other containers before it are
    skipped, whatever follows it is not looked at (later entries of the
    same container, nil entries).  A nil entry met before any entry of
    its own container is dereferenced: the monitor panics, the handle as
    it was.  A batch without an entry of this container changes
    nothing. *)
Theorem cacheStats_first_match pre post w :
  stateLock (handle w) = unlockedMutex ->
  Forall (fun p => exists s, p = Some s /\ api.ContainerID s <> containerID (handle w)) pre ->
  (forall stats, api.ContainerID stats = containerID (handle w) ->
     exists w', cacheStats (pre ++ Some stats :: post) w = Done tt w' /\
                handle w' = set_containerStats stats (handle w)) /\
  (exists w', cacheStats (pre ++ None :: post) w = Panic w' /\ handle w' = handle w) /\
  (exists w', cacheStats pre w = Done tt w' /\ handle w' = handle w).
Proof.
  intros Hm Hpre. revert w Hm Hpre.
  induction pre as [|p pre IH]; intros w Hm Hpre.
  - split; [|split].
    + intros stats He. apply cacheStats_hit; assumption.
    + exists w. split; reflexivity.
    + exists w. split; reflexivity.
  - apply Forall_cons_iff in Hpre. destruct Hpre as [(s & -> & Hne) Hpre].
    destruct (IH {| handle := handle w;
                    log := {| op := ORead FcontainerID; after := handle w |} :: log w |}
                 Hm Hpre) as (H1 & H2 & H3).
    cbn [app]. split; [|split].
    + intros stats He. rewrite cacheStats_skip by exact Hne. apply H1, He.
    + rewrite cacheStats_skip by exact Hne. exact H2.
    + rewrite cacheStats_skip by exact Hne. exact H3.
Qed.

Lemma cacheStats_first_match_witness :
  exists w',
    cacheStats ([Some statsOfC2] ++ Some statsOfC1 :: [None; Some statsOfC2]) (start handle0)
      = Done tt w' /\
    handle w' = set_containerStats statsOfC1 (handle (start handle0)).
Proof.
  refine (proj1 (cacheStats_first_match [Some statsOfC2] [None; Some statsOfC2]
                   (start handle0) eq_refl _) statsOfC1 eq_refl).
  repeat constructor. exists statsOfC2. split; [reflexivity | discriminate].
Defined.

(** ** A container that ended by itself *)

Section Inspected.

Variables (c : Time) (p : drivers.TaskState) (cid : string).

Local Abbreviation sure P g Q := (hoare (exactly P) g (fun _ => exactly Q) nowhere).

(** [ContainerInspect] succeeded and reports no out-of-memory kill. *)
Lemma sure_inspected d now r0 :
  api.OOMKilled (api.State d) = false ->
  sure (facts unlockedMutex (Some r0) c p cid)
       (containerDied (inl d) now)
       (facts unlockedMutex
          (Some {| drivers.ExitCode := api.ExitCode (api.State d);
                   drivers.Signal := drivers.Signal r0;
                   drivers.OOMKilled := drivers.OOMKilled r0;
                   drivers.Err :=
                     match api.Error (api.State d) with
                     | EmptyString => drivers.Err r0
                     | _ => Some (errors_New (api.Error (api.State d)))
                     end |})
          (api.FinishedAt (api.State d)) drivers.TaskStateExited cid).
Proof.
  intros Hoom. unfold containerDied. cbv zeta. rewrite Hoom.
  eapply hoare_bind; [apply sure_logger_c|]. intros ?; cbv beta.
  eapply hoare_bind; [apply sure_read|]. intros ?; cbv beta.
  eapply hoare_bind; [apply sure_emit|]. intros ?; cbv beta.
  eapply hoare_bind; [apply sure_Lock|]. intros ?; cbv beta.
  eapply hoare_bind; [apply sure_completedAt|]. intros ?; cbv beta.
  destruct (api.Error (api.State d)) as [|ch msg] eqn:Emsg.
  - cbn [String.length Z.of_nat Z.ltb Z.compare].
    eapply hoare_bind.
    { eapply hoare_bind; [apply sure_store|]. intros ?; cbv beta.
      eapply hoare_bind; [apply hoare_ret|]. intros ?; cbv beta.
      eapply hoare_bind; [apply sure_completedAt|]. intros ?; cbv beta.
      apply hoare_ret. }
    intros ?; cbv beta.
    eapply hoare_bind; [apply sure_procState|]. intros ?; cbv beta.
    apply sure_Unlock.
  - replace (0 <? Z.of_nat (String.length (String ch msg)))%Z with true
      by (symmetry; apply Z.ltb_lt; cbn [String.length]; lia).
    eapply hoare_bind.
    { eapply hoare_bind; [apply sure_store|]. intros ?; cbv beta.
      eapply hoare_bind.
      { eapply hoare_bind; [apply sure_store|]. intros ?; cbv beta.
        eapply hoare_bind; [apply sure_read|]. intros ?; cbv beta.
        eapply hoare_bind; [apply sure_read|]. intros ?; cbv beta.
        apply sure_emit. }
      intros ?; cbv beta.
      eapply hoare_bind; [apply sure_completedAt|]. intros ?; cbv beta.
      apply hoare_ret. }
    intros ?; cbv beta.
    eapply hoare_bind; [apply sure_procState|]. intros ?; cbv beta.
    apply sure_Unlock.
Qed.

End Inspected.

(** X5.  When the monitor, on a handle with an allocated exit result,
    confirms the container dead, [ContainerInspect] succeeds and reports
    no out-of-memory kill, the monitor returns with the state Exited, the
    exit code of the inspected state and, as completion time, the finish
    time reported by podman (the clock reading written first is
    overwritten).  The error of the exit result is the reported error
    string when there is one and is otherwise left as it was, like the
    signal and the OOM flag. *)
Theorem monitor_inspect_success err statsErr d now rest w r0 :
  stateLock (handle w) = unlockedMutex ->
  exitResult (handle w) = Some r0 ->
  isGone statsErr = true ->
  api.OOMKilled (api.State d) = false ->
  exists w',
    containerMonitorLoop (recv_errChan err (Some statsErr) (inl d) now :: rest) w
      = Done tt w' /\
    exitResult (handle w') =
      Some {| drivers.ExitCode := api.ExitCode (api.State d);
              drivers.Signal := drivers.Signal r0;
              drivers.OOMKilled := drivers.OOMKilled r0;
              drivers.Err :=
                match api.Error (api.State d) with
                | EmptyString => drivers.Err r0
                | _ => Some (errors_New (api.Error (api.State d)))
                end |} /\
    completedAt (handle w') = api.FinishedAt (api.State d) /\
    procState (handle w') = drivers.TaskStateExited /\
    stateLock (handle w') = unlockedMutex.
Proof.
  intros Hm He Hg Hoom.
  destruct (errChan_gone err statsErr (inl d) now rest w Hg) as (w0 & Hh & ->).
  rewrite <- Hh in Hm, He.
  destruct (hoare_returns _ _ _ _ w0
              (sure_inspected (completedAt (handle w0)) (procState (handle w0))
                              (containerID (handle w0)) d now r0 Hoom))
    as ([] & w' & Hr & H0 & H1 & H2 & H3 & _).
  { repeat split; assumption. }
  exists w'. auto.
Qed.

Lemma monitor_inspect_success_witness :
  exists w',
    containerMonitorLoop [recv_errChan None (Some ContainerWrongState) (inl exitedWith3) 500]
                         (start handle0) = Done tt w' /\
    exitResult (handle w') =
      Some {| drivers.ExitCode := 3; drivers.Signal := 0;
              drivers.OOMKilled := false; drivers.Err := None |} /\
    completedAt (handle w') = 450 /\
    procState (handle w') = drivers.TaskStateExited.
Proof.
  destruct (monitor_inspect_success None ContainerWrongState exitedWith3 500 []
              (start handle0) drivers.zeroExitResult eq_refl eq_refl eq_refl eq_refl)
    as (w' & Hr & H1 & H2 & H3 & _).
  exists w'. split; [exact Hr|]. split; [exact H1|]. split; [exact H2 | exact H3].
Defined.

(** ** The exit watcher and the task state *)

Lemma exitWatcherLoop_stopped (Bl : World -> Prop) r rest x :
  isState drivers.TaskStateRunning (interfered (others r) x) = false ->
  waits (standing x []) (exitWatcherLoop (r :: rest))
        (fun _ => standing (interfered (others r) x) []) Bl.
Proof.
  intros Hs. cbn [exitWatcherLoop].
  eapply waits_bind; [apply standing_meanwhile|]. intros ?; cbv beta.
  eapply waits_bind; [apply standing_isRunning|]. intros running w [-> Hw].
  rewrite Hs. exact Hw.
Qed.

(** The deferred function of the watcher, with where it waits. *)
Lemma exitWatcher_deferred_waiting atExit receiver x :
  waits (standing x [])
    (logger_c "Debug" "Stopping exitWatcher" ;;
     meanwhile atExit ;;
     Lock ;;
     result <- read FexitResult exitResult ;;
     Unlock ;;
     send_exitChannel receiver result ;;
     emit OCloseExit)
    (fun _ w =>
       receiver = true /\
       channelLog w = [OCloseExit; OSendExit (exitResult (atExit x))])
    (fun w => receiver = false /\ standing (interfered atExit x) [] w).
Proof.
  eapply waits_bind; [apply standing_logger_c|]. intros ?; cbv beta.
  eapply waits_bind; [apply standing_meanwhile|]. intros ?; cbv beta.
  eapply waits_bind; [apply standing_Lock|]. intros ?; cbv beta.
  eapply waits_bind; [apply holding_read|]. intros result w [-> Hw]. revert w Hw.
  eapply waits_bind; [apply holding_Unlock|]. intros ? w Hw.
  unfold bind, send_exitChannel. destruct receiver.
  - destruct Hw as (Hh & Hl & Hc). cbn. unfold channelLog in *. cbn [log map op].
    split; [reflexivity|]. cbn [exitChannelOps filter]. unfold exitChannelOps in Hc.
    rewrite Hc. reflexivity.
  - split; [reflexivity | exact Hw].
Qed.

(** The watcher that finds the task not running in the turn [r1]. *)
Lemma runExitWatcher_stopped pre r1 rest atExit receiver h :
  keptWatching h pre ->
  isState drivers.TaskStateRunning (interfered (others r1) (seen h pre)) = false ->
  waits (standing h []) (runExitWatcher (pre ++ r1 :: rest) atExit receiver)
        (fun _ w =>
           receiver = true /\
           channelLog w =
             [OCloseExit;
              OSendExit (exitResult (atExit (interfered (others r1) (seen h pre))))])
        (fun w => receiver = false /\ channelLog w = [] /\
                  stateLock (handle w) = unlockedMutex).
Proof.
  intros Hk Hs. unfold runExitWatcher.
  eapply waits_bind; [apply standing_emit; reflexivity|]. intros ?; cbv beta.
  eapply waits_bind; [apply standing_logger_c|]. intros ?; cbv beta.
  eapply waits_defer with
    (Q := fun _ => standing (interfered (others r1) (seen h pre)) []).
  - apply exitWatcherLoop_kept; [exact Hk|].
    apply exitWatcherLoop_stopped, Hs.
  - intros ? w Hw.
    pose proof (exitWatcher_deferred_waiting atExit receiver _ w Hw) as Hd. cbv beta in Hd.
    destruct (bind _ _ w) as [a' w'| |]; [exact Hd | exact Hd |].
    destruct Hd as (Hr & Hh & Hl & Hc). rewrite Hh.
    split; [exact Hr|]. split; [exact Hc | exact Hl].
Qed.

Lemma not_running s :
  procState s <> drivers.TaskStateRunning -> isState drivers.TaskStateRunning s = false.
Proof. unfold isState. destruct (procState s); [reflexivity | contradiction | reflexivity]. Qed.

(** X6.  The watcher leaves its loop in the first turn in which it
    finds a task state other than Running (Exited, but also Unknown),
    whichever case of the [select] would be ready: it does not get to the
    [select].  With a receiver on the exit channel it returns, having
    sent the exit result the handle holds when the deferred function
    takes the lock and closed the channel; without a receiver it stays in
    the send, the lock released, nothing sent and the channel open. *)
Theorem exitWatcher_leaves_when_not_running pre r1 rest atExit receiver h :
  stateLock h = unlockedMutex ->
  keptWatching h pre ->
  procState (interfered (others r1) (seen h pre)) <> drivers.TaskStateRunning ->
  let r := runExitWatcher (pre ++ r1 :: rest) atExit receiver (start h) in
  match r with
  | Done _ w' =>
      receiver = true /\
      exitChannelOps (ops r) =
        [OSendExit (exitResult (atExit (interfered (others r1) (seen h pre))));
         OCloseExit]
  | Blocked w' =>
      receiver = false /\ exitChannelOps (ops r) = [] /\
      stateLock (handle w') = unlockedMutex
  | Panic _ => False
  end.
Proof.
  intros Hm Hk Hs r.
  pose proof (runExitWatcher_stopped pre r1 rest atExit receiver h Hk (not_running _ Hs)
                (start h) (start_standing h Hm)) as H.
  fold r in H.
  pose proof (channel_ops_in_order _ r) as Hc.
  destruct r as [a w'|w'|w']; cbn [state_of] in Hc; [| contradiction |].
  - destruct H as [Hr H]. rewrite Hc, H. split; [exact Hr | reflexivity].
  - destruct H as (Hr & H & Hl). rewrite Hc, H. split; [exact Hr|].
    split; [reflexivity | exact Hl].
Qed.

Lemma exitWatcher_leaves_when_not_running_witness :
  let r := runExitWatcher ([] ++ unknownRound :: [cancelRound]) (fun x => x) true
             (start handle0) in
  match r with
  | Done _ _ =>
      exitChannelOps (ops r) = [OSendExit (Some drivers.zeroExitResult); OCloseExit]
  | _ => False
  end.
Proof.
  pose proof (exitWatcher_leaves_when_not_running [] unknownRound [cancelRound]
                (fun x => x) true handle0 eq_refl I) as H.
  cbv zeta in H |- *.
  assert (Hs : procState (interfered (others unknownRound) (seen handle0 [])) <>
               drivers.TaskStateRunning) by (vm_compute; discriminate).
  specialize (H Hs).
  destruct (runExitWatcher ([] ++ unknownRound :: [cancelRound]) (fun x => x) true
              (start handle0)) as [a w'| |]; [|exact H | destruct H; discriminate].
  destruct H as [_ H]. exact H.
Defined.

(** X7.  The monitor and the watcher together: once the monitor has
    made the handle Exited (it has then returned), a watcher that was
    kept in its loop until then and now sees the handle the monitor left
    returns, and what it sends on the exit channel before closing it is
    the exit result the monitor wrote, never nil. *)
Theorem exitWatcher_delivers_monitor_result broadcaster events h pre r1 rest :
  stateLock h = unlockedMutex ->
  procState h = drivers.TaskStateRunning ->
  let m := runContainerMonitor broadcaster events (start h) in
  (exists s, In s (states h m) /\ procState s = drivers.TaskStateExited) ->
  keptWatching h pre ->
  interfered (others r1) (seen h pre) = handle (state_of m) ->
  let r := runExitWatcher (pre ++ r1 :: rest) (fun x => x) true (start h) in
  returned m = true /\ returned r = true /\
  exists result,
    exitResult (handle (state_of m)) = Some result /\
    exitChannelOps (ops r) = [OSendExit (Some result); OCloseExit].
Proof.
  intros Hm Hrun m (s & Hin & Hex) Hk Hsee r.
  destruct (runContainerMonitor_monitored h broadcaster events (start h)
              (start_resting h Hm)) as [Hq | Hx]; fold m in Hq || fold m in Hx.
  - exfalso. apply quietly_trace in Hq.
    destruct Hin as [<- | Hin]; [congruence|].
    apply in_map_iff in Hin. destruct Hin as (e & <- & Hin).
    rewrite Forall_forall in Hq. destruct (Hq e Hin) as (_ & Hp & _). congruence.
  - apply exited_trace in Hx.
    destruct Hx as (Hret & _ & _ & eU & _ & _ & _ & HU & _ & _ & _ & _ & Hfin).
    destruct HU as (_ & _ & HUp & HUr). rewrite <- Hfin in HUp, HUr.
    split; [exact Hret|].
    assert (Hs : isState drivers.TaskStateRunning (interfered (others r1) (seen h pre))
                 = false).
    { rewrite Hsee. unfold isState. rewrite HUp. reflexivity. }
    pose proof (runExitWatcher_stopped pre r1 rest (fun x => x) true h Hk Hs
                  (start h) (start_standing h Hm)) as H.
    fold r in H. pose proof (channel_ops_in_order _ r) as Hc.
    destruct r as [a w'|w'|w']; cbn [state_of] in Hc;
      [| contradiction | destruct H; discriminate].
    split; [reflexivity|]. destruct H as [_ H].
    destruct (exitResult (handle (state_of m))) as [result|] eqn:He; [|contradiction].
    exists result. split; [reflexivity|].
    rewrite Hc, H, Hsee, He. reflexivity.
Qed.

Lemma exitWatcher_delivers_monitor_result_witness :
  let m := runContainerMonitor true deathEvents (start handle0) in
  let r := runExitWatcher ([] ++ afterDeathRound :: []) (fun x => x) true (start handle0) in
  returned m = true /\ returned r = true /\
  exists result,
    exitResult (handle (state_of m)) = Some result /\
    exitChannelOps (ops r) = [OSendExit (Some result); OCloseExit].
Proof.
  pose proof (exitWatcher_delivers_monitor_result true deathEvents handle0 []
                afterDeathRound [] eq_refl eq_refl) as H.
  cbv zeta in H |- *. apply H.
  - exists (handle (state_of (runContainerMonitor true deathEvents (start handle0)))).
    split; [apply deathEvents_final_state | vm_compute; reflexivity].
  - exact I.
  - vm_compute. reflexivity.
Defined.

(** ** The log streamer: FIFOs and pauses *)

Lemma callsOf_rev l : callsOf (rev l) = rev (callsOf l).
Proof.
  unfold callsOf. induction l as [|o l IH]; [reflexivity|].
  cbn [rev flat_map]. rewrite flat_map_app, IH. cbn [flat_map]. rewrite app_nil_r.
  destruct o; cbn [app rev]; rewrite ?app_nil_r; reflexivity.
Qed.

Lemma sleepsOf_rev l : sleepsOf (rev l) = rev (sleepsOf l).
Proof.
  unfold sleepsOf. induction l as [|o l IH]; [reflexivity|].
  cbn [rev flat_map]. rewrite flat_map_app, IH. cbn [flat_map]. rewrite app_nil_r.
  destruct o; cbn [app rev]; rewrite ?app_nil_r; reflexivity.
Qed.

Section Opened.

Variable cfg : drivers.TaskConfig.
Variable Bl : World -> Prop.

Lemma opened_emit calls o :
  callsOf [o] = [] ->
  waits (opened cfg calls) (emit o) (fun _ => opened cfg calls) Bl.
Proof.
  intros Ho w (Hm & Hc & Hl). cbn. split; [exact Hm|]. split; [exact Hc|].
  destruct o; try discriminate Ho; exact Hl.
Qed.

Lemma opened_call calls fn :
  waits (opened cfg calls) (emit (OCall fn)) (fun _ => opened cfg (fn :: calls)) Bl.
Proof.
  intros w (Hm & Hc & Hl). cbn. split; [exact Hm|]. split; [exact Hc|].
  exact (f_equal (cons fn) Hl).
Qed.

Lemma opened_read A calls f (proj : TaskHandle -> A) :
  waits (opened cfg calls) (read f proj)
        (fun a w => a = proj (handle w) /\ opened cfg calls w) Bl.
Proof.
  intros w (Hm & Hc & Hl). cbn. split; [reflexivity|]. split; [exact Hm|].
  split; [exact Hc | exact Hl].
Qed.

Lemma opened_taskConfig calls :
  waits (opened cfg calls) (cfgp <- read FtaskConfig taskConfig ;; deref cfgp)
        (fun _ => opened cfg calls) Bl.
Proof.
  eapply waits_bind; [apply opened_read|]. intros cfgp w [-> Hw].
  destruct Hw as (Hm & Hc & Hl). rewrite Hc. cbn. split; [exact Hm|].
  split; [exact Hc | exact Hl].
Qed.

Lemma opened_advance calls v :
  waits (opened cfg calls) (Lock ;; write FlogPointer (set_logPointer v) ;; Unlock)
        (fun _ => opened cfg calls) Bl.
Proof.
  intros w (Hm & Hc & Hl). unfold bind, Lock, write, Unlock, step. rewrite Hm. cbn.
  split; [reflexivity|]. split; [exact Hc | exact Hl].
Qed.

End Opened.

Lemma opened_logStreamerLoop cfg calls : forall rounds init since,
  waits (opened cfg calls) (logStreamerLoop init since rounds)
        (fun _ w => opened cfg calls w /\ existsb lastTurn rounds = true)
        (fun w => opened cfg calls w /\ existsb lastTurn rounds = false).
Proof.
  induction rounds as [|r rest IH]; intros init since; cbn [logStreamerLoop existsb].
  - intros w Hw. split; [exact Hw | reflexivity].
  - unfold lastTurn at 1 3. destruct (cancelled r); cbn [orb].
    + intros w Hw. split; [exact Hw | reflexivity].
    + eapply waits_bind.
      { destruct (negb init); [apply opened_emit; reflexivity|].
        intros w Hw. exact Hw. }
      intros ?; cbv beta.
      eapply waits_bind; [apply opened_read|]. intros ? w [_ Hw]. revert w Hw.
      eapply waits_bind; [apply opened_emit; reflexivity|]. intros ?; cbv beta.
      destruct (logsErr r) as [err|]; cbn [orb].
      * eapply waits_bind; [apply opened_emit; reflexivity|]. intros ?; cbv beta.
        cbv zeta.
        change (Lock ;; write FlogPointer (set_logPointer (now r)) ;; Unlock ;;
                logStreamerLoop false (now r) rest)
          with (bind Lock (fun _ => bind (write FlogPointer (set_logPointer (now r)))
                  (fun _ => bind Unlock (fun _ => logStreamerLoop false (now r) rest)))).
        intros w Hw.
        pose proof (opened_advance cfg
                      (fun w => opened cfg calls w /\ existsb lastTurn rest = false)
                      calls (now r) w Hw) as Ha.
        unfold bind in Ha |- *.
        destruct (Lock w) as [? w1| |]; try contradiction; [|exact Ha].
        destruct (write FlogPointer (set_logPointer (now r)) w1) as [? w2| |];
          try contradiction; [|exact Ha].
        destruct (Unlock w2) as [? w3| |]; try contradiction; [|exact Ha].
        apply IH, Ha.
      * intros w Hw.
        pose proof (opened_emit cfg (fun _ => False) calls
                      (OLogger "Trace" "runLogStreamer loop exit") eq_refl w Hw) as He.
        unfold logger. destruct (emit _ w); try contradiction.
        split; [exact He | reflexivity].
Qed.

(** X8.  On a handle with a task config and a free mutex the log
    streamer never panics and closes exactly the FIFOs it opened.  When
    stdout cannot be opened it returns after that one call, when stderr
    cannot be opened it closes stdout and returns; in both cases
    [ContainerLogs] is not called and the handle is left as it was.  With
    both FIFOs open it returns exactly when a turn finds the context
    cancelled or a [ContainerLogs] call ends without error, and then
    closes stderr before stdout; while it waits for its next turn both
    stay open. *)
Theorem logStreamer_closes_what_it_opened openStdout openStderr rounds h cfg :
  stateLock h = unlockedMutex ->
  taskConfig h = Some cfg ->
  let r := runLogStreamer openStdout openStderr rounds (start h) in
  panicked r = false /\
  match openStdout, openStderr with
  | Some _, _ =>
      returned r = true /\ callsOf (ops r) = ["os.OpenFile"] /\
      sinces (ops r) = [] /\ handle (state_of r) = h
  | None, Some _ =>
      returned r = true /\
      callsOf (ops r) = ["os.OpenFile"; "os.OpenFile"; "stdout.Close"] /\
      sinces (ops r) = [] /\ handle (state_of r) = h
  | None, None =>
      returned r = existsb lastTurn rounds /\
      callsOf (ops r) =
        if returned r
        then ["os.OpenFile"; "os.OpenFile"; "stderr.Close"; "stdout.Close"]
        else ["os.OpenFile"; "os.OpenFile"]
  end.
Proof.
  intros Hm Hc r.
  destruct openStdout as [e1|]; [|destruct openStderr as [e2|]].
  - subst r. unfold runLogStreamer, bind, read, start. cbn [handle log].
    rewrite Hc. cbn. repeat split.
  - subst r. unfold runLogStreamer, bind, defer, read, start. cbn [handle log].
    rewrite Hc. cbn. rewrite Hc. cbn. repeat split.
  - assert (H : waits (opened cfg []) (runLogStreamer None None rounds)
                  (fun _ w =>
                     opened cfg ["stdout.Close"; "stderr.Close"; "os.OpenFile"; "os.OpenFile"] w
                     /\ existsb lastTurn rounds = true)
                  (fun w => opened cfg ["os.OpenFile"; "os.OpenFile"] w
                            /\ existsb lastTurn rounds = false)).
    { assert (Hcall : forall calls fn (c : Prop),
                waits (fun w => opened cfg calls w /\ c) (emit (OCall fn))
                      (fun _ w => opened cfg (fn :: calls) w /\ c)
                      (fun w => opened cfg ["os.OpenFile"; "os.OpenFile"] w
                                /\ existsb lastTurn rounds = false)).
      { intros calls fn c w [Hw Hcond].
        pose proof (opened_call cfg (fun _ => False) calls fn w Hw) as He.
        destruct (emit (OCall fn) w); try contradiction. split; assumption. }
      unfold runLogStreamer.
      eapply waits_bind; [apply opened_read|]. intros cfgp w [-> Hw].
      pose proof Hw as (_ & Hcfg & _). unfold bind at 1. rewrite Hcfg. cbn [deref ret].
      clear Hcfg. revert w Hw.
      eapply waits_bind; [apply opened_call|]. intros ?; cbv beta.
      eapply waits_defer with
        (Q := fun _ w => opened cfg ["stderr.Close"; "os.OpenFile"; "os.OpenFile"] w
                         /\ existsb lastTurn rounds = true);
        [|intros ?; apply Hcall].
      eapply waits_bind; [apply opened_read|]. intros cfgp' w [-> Hw].
      pose proof Hw as (_ & Hcfg' & _). unfold bind at 1. rewrite Hcfg'. cbn [deref ret].
      clear Hcfg'. revert w Hw.
      eapply waits_bind; [apply opened_call|]. intros ?; cbv beta.
      eapply waits_defer with
        (Q := fun _ w => opened cfg ["os.OpenFile"; "os.OpenFile"] w
                         /\ existsb lastTurn rounds = true);
        [|intros ?; apply Hcall].
      eapply waits_bind; [apply opened_read|]. intros since w [_ Hw]. revert w Hw.
      apply opened_logStreamerLoop. }
    assert (Hs : opened cfg [] (start h)).
    { split; [exact Hm|]. split; [exact Hc | reflexivity]. }
    specialize (H (start h) Hs). fold r in H.
    assert (Hcalls : callsOf (ops r) = rev (callsOf (map op (log (state_of r))))).
    { unfold ops, trace. rewrite map_rev. apply callsOf_rev. }
    destruct r as [a w'|w'|w']; cbn [state_of panicked returned] in *; try contradiction.
    + destruct H as [(_ & _ & Hl) He]. rewrite He, Hcalls, Hl. repeat split.
    + destruct H as [(_ & _ & Hl) He]. rewrite He, Hcalls, Hl. repeat split.
Qed.

Lemma logStreamer_closes_what_it_opened_witness :
  let r := runLogStreamer None None twoInterruptions (start handle0) in
  panicked r = false /\ returned r = true /\
  callsOf (ops r) = ["os.OpenFile"; "os.OpenFile"; "stderr.Close"; "stdout.Close"].
Proof.
  pose proof (logStreamer_closes_what_it_opened None None twoInterruptions handle0
                _ eq_refl eq_refl) as H.
  cbv zeta in H |- *. destruct H as (H1 & H2 & H3).
  split; [exact H1|]. split; [exact H2|]. rewrite H2 in H3. exact H3.
Defined.

Lemma rhythm_snoc l o : rhythm (l ++ [o]) = rhythm l ++ rhythm [o].
Proof. apply filter_app. Qed.

Lemma paces_snoc c0 cs c :
  paces ((c0 :: cs) ++ [c]) = paces (c0 :: cs) ++ [OSleep (2 * second); OContainerLogs c].
Proof. cbn [app paces]. rewrite flat_map_app. reflexivity. Qed.

Lemma sleepsOf_rhythm : forall l, sleepsOf (rhythm l) = sleepsOf l.
Proof.
  unfold sleepsOf, rhythm. induction l as [|o l IH]; [reflexivity|].
  destruct o; cbn [filter flat_map app]; rewrite ?IH; reflexivity.
Qed.

Lemma sleepsOf_paces cs :
  sleepsOf (paces cs) = repeat (2 * second) (pred (List.length cs)).
Proof.
  destruct cs as [|c rest]; [reflexivity|].
  cbn [paces sleepsOf flat_map app List.length pred].
  induction rest as [|c' rest IH]; [reflexivity|].
  cbn [flat_map app List.length repeat]. rewrite IH. reflexivity.
Qed.

Lemma pacing_quiet init tail o f (E : World -> Prop) :
  rhythm [o] = [] -> sinces [o] = [] ->
  hoare (pacing init tail) (step o f) (fun _ => pacing init tail) E.
Proof.
  intros Hr Hs w [H1 H2]. cbn. unfold pacing. cbn [log map op rev].
  rewrite rhythm_snoc, sinces_app, Hr, Hs, !app_nil_r. split; assumption.
Qed.

Lemma pacing_read A init tail f (proj : TaskHandle -> A) (E : World -> Prop) :
  hoare (pacing init tail) (read f proj) (fun _ => pacing init tail) E.
Proof.
  intros w [H1 H2]. cbn. unfold pacing. cbn [log map op rev].
  rewrite rhythm_snoc, sinces_app. cbn [rhythm filter sinces]. rewrite !app_nil_r.
  split; assumption.
Qed.

(** The pause before a retry. *)
Lemma pacing_sleep (E : World -> Prop) :
  hoare (pacing false []) (emit (OSleep (2 * second)))
        (fun _ => pacing false [OSleep (2 * second)]) E.
Proof.
  intros w [H1 H2]. cbn. unfold pacing. cbn [log map op rev].
  rewrite rhythm_snoc, sinces_app, H1. cbn [rhythm filter sinces]. rewrite !app_nil_r.
  split; [reflexivity | exact H2].
Qed.

(** A [ContainerLogs] call: the first one at once, a later one after
    its pause. *)
Lemma pacing_call init c (E : World -> Prop) :
  hoare (pacing init (if init then [] else [OSleep (2 * second)]))
        (emit (OContainerLogs c)) (fun _ => pacing false []) E.
Proof.
  intros w [H1 H2]. cbn. unfold pacing. cbn [log map op rev].
  rewrite rhythm_snoc, sinces_app, H1. cbn [rhythm filter sinces].
  destruct (sinces (rev (map op (log w)))) as [|c0 cs] eqn:Es.
  - assert (Hi : init = true) by (apply H2; reflexivity). subst init.
    split; [reflexivity|]. split; discriminate.
  - destruct init.
    + destruct H2 as [_ H2]. discriminate (H2 eq_refl).
    + rewrite paces_snoc, app_nil_r, <- app_assoc. split; [reflexivity|].
      split; discriminate.
Qed.

Lemma pacing_advance v :
  hoare (pacing false []) (Lock ;; write FlogPointer (set_logPointer v) ;; Unlock)
        (fun _ => pacing false []) paced.
Proof.
  intros w Hw.
  assert (Hp : forall w', pacing false [] w' -> paced w').
  { intros w' H. exists false. exact H. }
  unfold bind, Lock.
  destruct (_ || _); [apply Hp, Hw|].
  pose proof (pacing_quiet false [] OLock (set_stateLock {| writer := true; readers := 0 |})
                paced eq_refl eq_refl w Hw) as H1.
  destruct (step OLock _ w) as [? w1| |]; try exact H1.
  pose proof (pacing_quiet false [] (OWrite FlogPointer) (set_logPointer v)
                paced eq_refl eq_refl w1 H1) as H2.
  unfold write. destruct (step (OWrite FlogPointer) _ w1) as [? w2| |]; try exact H2.
  unfold Unlock. destruct (writer _); [|apply Hp, H2].
  apply (pacing_quiet false [] OUnlock _ paced eq_refl eq_refl w2 H2).
Qed.

Lemma paced_quiet o f :
  rhythm [o] = [] -> sinces [o] = [] ->
  hoare paced (step o f) (fun _ => paced) paced.
Proof.
  intros Hr Hs w [init Hw]. exists init.
  apply (pacing_quiet init [] o f paced Hr Hs w Hw).
Qed.

Lemma paced_logStreamerLoop : forall rounds init since,
  hoare (pacing init []) (logStreamerLoop init since rounds) (fun _ => paced) paced.
Proof.
  induction rounds as [|r rest IH]; intros init since; cbn [logStreamerLoop].
  - intros w Hw. exists init. exact Hw.
  - destruct (cancelled r); [intros w Hw; exists init; exact Hw|].
    eapply hoare_bind with
      (Q := fun _ => pacing init (if init then [] else [OSleep (2 * second)])).
    { destruct init; cbn [negb]; [apply hoare_ret | apply pacing_sleep]. }
    intros ?; cbv beta.
    eapply hoare_bind; [apply pacing_read|]. intros ?; cbv beta.
    eapply hoare_bind; [apply pacing_call|]. intros ?; cbv beta.
    destruct (logsErr r) as [err|].
    + eapply hoare_bind; [apply pacing_quiet; reflexivity|]. intros ?; cbv beta.
      cbv zeta.
      change (Lock ;; write FlogPointer (set_logPointer (now r)) ;; Unlock ;;
              logStreamerLoop false (now r) rest)
        with (bind Lock (fun _ => bind (write FlogPointer (set_logPointer (now r)))
                (fun _ => bind Unlock (fun _ => logStreamerLoop false (now r) rest)))).
      intros w Hw.
      pose proof (pacing_advance (now r) w Hw) as Ha.
      unfold bind in Ha |- *.
      destruct (Lock w) as [? w1| |]; [|exact Ha | exact Ha].
      destruct (write FlogPointer (set_logPointer (now r)) w1) as [? w2| |];
        [|exact Ha | exact Ha].
      destruct (Unlock w2) as [? w3| |]; [|exact Ha | exact Ha].
      apply (IH false (now r)). exact Ha.
    + intros w Hw. exists false.
      apply (pacing_quiet false [] (OLogger "Trace" "runLogStreamer loop exit")
               (fun x => x) paced eq_refl eq_refl w Hw).
Qed.

Lemma start_pacing h : pacing true [] (start h).
Proof. split; [reflexivity | split; reflexivity]. Qed.

(** X9.  [time.Sleep] throttles the retries and only them.  In every
    run of the log streamer, however it ends, the pauses and the
    [ContainerLogs] calls come in this order: the first call without a
    pause before it, then for every later call one pause of two seconds
    followed by that call; the run never stops between a pause and its
    call.  So there is one pause less than calls (none when there was no
    call). *)
Theorem logStreamer_throttles_retries openStdout openStderr rounds h :
  let r := runLogStreamer openStdout openStderr rounds (start h) in
  rhythm (ops r) = paces (sinces (ops r)) /\
  sleepsOf (ops r) = repeat (2 * second) (pred (List.length (sinces (ops r)))).
Proof.
  intros r.
  assert (H : hoare (pacing true []) (runLogStreamer openStdout openStderr rounds)
                (fun _ => paced) paced).
  { assert (H0 : forall w, pacing true [] w -> paced w) by (intros w Hw; exists true; exact Hw).
    assert (Hq : forall o, rhythm [o] = [] -> sinces [o] = [] ->
                   hoare (pacing true []) (emit o) (fun _ => paced) paced).
    { intros o Hs Hc w Hw. apply H0.
      apply (pacing_quiet true [] o (fun x => x) paced Hs Hc w Hw). }
    unfold runLogStreamer.
    eapply hoare_bind; [apply pacing_read|]. intros cfgp; cbv beta.
    eapply hoare_bind with (Q := fun _ => pacing true []).
    { destruct cfgp; intros w Hw; [exact Hw | apply H0, Hw]. }
    intros ?; cbv beta.
    eapply hoare_bind; [apply pacing_quiet; reflexivity|]. intros ?; cbv beta.
    destruct openStdout as [e1|]; [apply Hq; reflexivity|].
    apply hoare_defer with (Q := fun _ => paced);
      [|intros ?; apply paced_quiet; reflexivity | apply paced_quiet; reflexivity].
    eapply hoare_bind; [apply pacing_read|]. intros cfgp'; cbv beta.
    eapply hoare_bind with (Q := fun _ => pacing true []).
    { destruct cfgp'; intros w Hw; [exact Hw | apply H0, Hw]. }
    intros ?; cbv beta.
    eapply hoare_bind; [apply pacing_quiet; reflexivity|]. intros ?; cbv beta.
    destruct openStderr as [e2|]; [apply Hq; reflexivity|].
    apply hoare_defer with (Q := fun _ => paced);
      [|intros ?; apply paced_quiet; reflexivity | apply paced_quiet; reflexivity].
    eapply hoare_bind; [apply pacing_read|]. intros since; cbv beta.
    apply (paced_logStreamerLoop rounds true since). }
  pose proof (hoare_state _ _ _ _ (start h) H (start_pacing h)) as [init [H1 _]].
  fold r in H1. rewrite app_nil_r in H1.
  assert (Hops : ops r = rev (map op (log (state_of r)))).
  { unfold ops, trace. apply map_rev. }
  rewrite Hops. split; [exact H1|].
  rewrite <- sleepsOf_rhythm, H1. apply sleepsOf_paces.
Qed.

(** Two interruptions: three calls, a pause before the second and
    before the third. *)
Lemma logStreamer_throttles_retries_run :
  rhythm (ops (runLogStreamer None None twoInterruptions (start handle0))) =
    [OContainerLogs 100; OSleep (2 * second); OContainerLogs 200;
     OSleep (2 * second); OContainerLogs 205].
Proof.
  rewrite (proj1 (logStreamer_throttles_retries None None twoInterruptions handle0)).
  vm_compute. reflexivity.
Defined.

(** ** The stats emitter *)

Lemma statsEmitterLoop_sampling interval nows : forall rounds,
  incl (map e_now rounds) nows ->
  waits (sampling nows interval) (statsEmitterLoop interval rounds)
        (fun _ w => sampling nows interval w /\
                    exists round, In round rounds /\ e_fired round = ctx_Done)
        (sampling nows interval).
Proof.
  induction rounds as [|r rest IH]; intros Hin; cbn [statsEmitterLoop].
  - intros w Hw. exact Hw.
  - assert (Hnow : In (e_now r) nows) by (apply Hin; left; reflexivity).
    assert (Hrest : incl (map e_now rest) nows).
    { intros t Ht. apply Hin. right. exact Ht. }
    specialize (IH Hrest).
    destruct (e_fired r) eqn:Hf.
    + intros w Hw. unfold logger_c, logger, bind, read, emit, step. cbn.
      split.
      * repeat (constructor; [exact I|]). exact Hw.
      * exists r. split; [left; reflexivity | exact Hf].
    + intros w Hw. unfold bind at 1 2 3. unfold emit at 1, meanwhile, Lock, step.
      cbn [handle log].
      destruct (writer (stateLock (interfered (e_others r) (handle w)))
                || negb (readers (stateLock (interfered (e_others r) (handle w))) =? 0)%nat).
      { constructor; [right; reflexivity | exact Hw]. }
      cbv zeta. unfold bind, read, Unlock, step. cbn [handle log stateLock set_stateLock writer].
      destruct (e_receiver r).
      * unfold emit, step. cbn [handle log].
        match goal with |- match statsEmitterLoop _ _ ?w' with _ => _ end =>
          specialize (IH w') end.
        match type of IH with ?P -> _ => assert (Hp : P) end.
        { unfold sampling. cbn [log].
          constructor; [cbn; repeat split; exact Hnow|].
          repeat (constructor; [exact I|]).
          constructor; [right; reflexivity | exact Hw]. }
        specialize (IH Hp).
        destruct (statsEmitterLoop interval rest _) as [a w'| |]; [|exact IH | exact IH].
        destruct IH as [H1 (round & H2 & H3)].
        split; [exact H1|]. exists round. split; [right; exact H2 | exact H3].
      * unfold block. unfold sampling. cbn [log].
        repeat (constructor; [exact I|]).
        constructor; [right; reflexivity | exact Hw].
Qed.

Lemma ticks_snoc l o : ticks (l ++ [o]) = ticks l ++ ticks [o].
Proof. unfold ticks. apply flat_map_app. Qed.

Lemma beats_next interval k :
  (beats interval k ++ [Some interval]) ++ [None] = beats interval (S k).
Proof.
  unfold beats. cbn [app]. f_equal. rewrite <- app_assoc. cbn [app].
  induction k as [|k IH]; [reflexivity|].
  cbn [repeat List.concat app]. rewrite IH. reflexivity.
Qed.

Section Beating.

Variable interval : Z.

Local Abbreviation stopped := (fun w => exists k pending, beating interval k pending w).

Lemma beating_quiet k pending o f :
  ticks [o] = [] ->
  hoare (beating interval k pending) (step o f)
        (fun _ => beating interval k pending) stopped.
Proof.
  intros Ho w Hw. cbn. unfold beating in *. cbn [log map op rev].
  rewrite ticks_snoc, Ho, app_nil_r. exact Hw.
Qed.

Lemma beating_read A k pending f (proj : TaskHandle -> A) :
  hoare (beating interval k pending) (read f proj)
        (fun _ => beating interval k pending) stopped.
Proof.
  intros w Hw. cbn. unfold beating in *. cbn [log map op rev].
  rewrite ticks_snoc. cbn [ticks flat_map]. rewrite app_nil_r. exact Hw.
Qed.

Lemma beating_Lock k pending :
  hoare (beating interval k pending) Lock (fun _ => beating interval k pending) stopped.
Proof.
  intros w Hw. unfold Lock. destruct (_ || _); [exists k, pending; exact Hw|].
  apply (beating_quiet k pending OLock _ eq_refl w Hw).
Qed.

Lemma beating_Unlock k pending :
  hoare (beating interval k pending) Unlock (fun _ => beating interval k pending) stopped.
Proof.
  intros w Hw. unfold Unlock. destruct (writer _); [|exists k, pending; exact Hw].
  apply (beating_quiet k pending OUnlock _ eq_refl w Hw).
Qed.

(** The timer is reset at the tick, the sample sent at the end of the
    turn. *)
Lemma beating_tick k :
  hoare (beating interval k false) (emit (OTimer interval))
        (fun _ => beating interval k true) stopped.
Proof.
  intros w Hw. cbn. unfold beating in *. cbn [log map op rev].
  rewrite ticks_snoc, Hw, app_nil_r. reflexivity.
Qed.

Lemma beating_send k usage :
  hoare (beating interval k true) (emit (OSendStats usage))
        (fun _ => beating interval (S k) false) stopped.
Proof.
  intros w Hw. cbn. unfold beating in *. cbn [log map op rev].
  rewrite ticks_snoc, Hw, app_nil_r. apply beats_next.
Qed.

Lemma beating_statsEmitterLoop : forall rounds k,
  hoare (beating interval k false) (statsEmitterLoop interval rounds)
        (fun _ w => exists k', beating interval k' false w) stopped.
Proof.
  induction rounds as [|r rest IH]; intros k; cbn [statsEmitterLoop].
  - intros w Hw. exists k, false. exact Hw.
  - destruct (e_fired r).
    + unfold logger_c, logger.
      eapply hoare_bind; [apply beating_read|]. intros ?; cbv beta.
      intros w Hw. cbn. exists k.
      apply (beating_quiet k false (OLogger "Debug" "Stopping statsEmitter") (fun x => x)
               eq_refl w Hw).
    + cbv zeta.
      eapply hoare_bind; [apply beating_tick|]. intros ?; cbv beta.
      eapply hoare_bind with (Q := fun _ => beating interval k true).
      { intros w Hw. exact Hw. }
      intros ?; cbv beta.
      eapply hoare_bind; [apply beating_Lock|]. intros ?; cbv beta.
      eapply hoare_bind; [apply beating_read|]. intros ?; cbv beta.
      eapply hoare_bind; [apply beating_read|]. intros ?; cbv beta.
      eapply hoare_bind; [apply beating_read|]. intros ?; cbv beta.
      eapply hoare_bind; [apply beating_read|]. intros ?; cbv beta.
      eapply hoare_bind; [apply beating_read|]. intros ?; cbv beta.
      eapply hoare_bind; [apply beating_Unlock|]. intros ?; cbv beta.
      eapply hoare_bind with (Q := fun _ => beating interval (S k) false).
      { destruct (e_receiver r); [apply beating_send|].
        intros w Hw. exists k, true. exact Hw. }
      intros ?; cbv beta. apply IH.
Qed.

Lemma beating_runStatsEmitter rounds :
  hoare (fun w => log w = []) (runStatsEmitter interval rounds)
        (fun _ w => exists k', beating interval k' false w) stopped.
Proof.
  unfold runStatsEmitter.
  eapply hoare_bind with (Q := fun _ => beating interval 0 false).
  { intros w Hw. cbn. unfold beating. cbn [log map op rev]. rewrite Hw. reflexivity. }
  intros ?; cbv beta. unfold logger_c, logger.
  eapply hoare_bind.
  { eapply hoare_bind; [apply beating_read|]. intros ?; cbv beta.
    apply beating_quiet. reflexivity. }
  intros ?; cbv beta.
  eapply hoare_bind; [apply beating_quiet; reflexivity|]. intros ?; cbv beta.
  apply beating_statsEmitterLoop.
Qed.

End Beating.

(** X10.  The stats emitter never panics and returns only when it
    finds its context cancelled.  It writes no field of the handle but
    [collectionInterval].  Its timer is set to one second first; then,
    turn by turn, it is reset to the collection interval at the tick and
    one sample is sent at the end of the turn, so that timers and
    samples alternate; when the emitter has returned every reset was
    followed by its sample.  Every sample it sends is computed from the
    stats cached in the handle in that turn: the memory limit as maximum
    usage, the memory usage both as usage and as RSS, the total CPU
    percentage from the CPU nanoseconds, the system mode percentage from
    the system nanoseconds, and the total ticks from the tracker of the
    system CPU applied to the total percentage; each is stamped with a
    clock reading of one of the turns. *)
Theorem statsEmitter_samples interval rounds h :
  let r := runStatsEmitter interval rounds (start h) in
  panicked r = false /\
  (returned r = true -> exists round, In round rounds /\ e_fired round = ctx_Done) /\
  Forall (sampleOk (map e_now rounds) interval) (trace r) /\
  exists (k : nat) (pending : bool),
    ticks (ops r) = beats interval k ++ (if pending then [Some interval] else []) /\
    (returned r = true -> pending = false).
Proof.
  intros r.
  assert (H : waits (sampling (map e_now rounds) interval) (runStatsEmitter interval rounds)
                (fun _ w => sampling (map e_now rounds) interval w /\
                            exists round, In round rounds /\ e_fired round = ctx_Done)
                (sampling (map e_now rounds) interval)).
  { unfold runStatsEmitter.
    intros w Hw. unfold bind at 1 2 3. unfold logger_c, logger, bind, emit, read, write, step.
    cbn [handle log].
    match goal with |- match statsEmitterLoop _ _ ?w' with _ => _ end =>
      apply (statsEmitterLoop_sampling interval (map e_now rounds) rounds
               (incl_refl _) w') end.
    unfold sampling. cbn [log].
    constructor; [reflexivity|].
    repeat (constructor; [exact I|]).
    constructor; [left; reflexivity | exact Hw]. }
  specialize (H (start h) (Forall_nil _)). fold r in H.
  pose proof (beating_runStatsEmitter interval rounds (start h) eq_refl) as Hb.
  fold r in Hb.
  assert (Hops : ops r = rev (map op (log (state_of r)))).
  { unfold ops, trace. apply map_rev. }
  rewrite Hops. unfold trace.
  destruct r as [a w'|w'|w']; cbn [state_of panicked returned] in *; try contradiction.
  - destruct H as [H1 H2]. split; [reflexivity|]. split; [intros _; exact H2|].
    split; [apply Forall_rev, H1|].
    destruct Hb as [k Hb]. exists k, false. split; [exact Hb | reflexivity].
  - split; [reflexivity|]. split; [discriminate|]. split; [apply Forall_rev, H|].
    destruct Hb as (k & pending & Hb). exists k, pending. split; [exact Hb | discriminate].
Qed.

(** Two turns and the cancellation, at an interval of five seconds. *)
Lemma statsEmitter_samples_run :
  let r := runStatsEmitter (5 * second) twoTicks (start handle0) in
  panicked r = false /\
  ticks (ops r) =
    [Some (1 * second); Some (5 * second); None; Some (5 * second); None].
Proof.
  cbv zeta. split.
  - apply (statsEmitter_samples (5 * second) twoTicks handle0).
  - vm_compute. reflexivity.
Defined.

(** ** The broadcaster over its whole life *)

Lemma is_closed_In T c (s : broadcaster.Hub T) :
  broadcaster.is_closed c s = true <-> In c (broadcaster.closed s).
Proof.
  unfold broadcaster.is_closed. rewrite existsb_exists. split.
  - intros (x & Hx & He). apply chan_eqb_eq in He. subst x. exact Hx.
  - intros H. exists c. split; [exact H | apply chan_eqb_refl].
Qed.

Lemma is_closed_not_In T c (s : broadcaster.Hub T) :
  broadcaster.is_closed c s = false -> ~ In c (broadcaster.closed s).
Proof. intros H Hin. apply is_closed_In in Hin. congruence. Qed.

Lemma hubTurn_remove T remove (s : broadcaster.Hub T) :
  broadcaster.hub_ok s ->
  exists s', broadcaster.removeListener remove s = Done tt s' /\
             broadcaster.hub_ok s' /\ hubTurn s s'.
Proof.
  intros Hs. destruct (chan_in_dec remove (broadcaster.listeners s)) as [Hin | Hn].
  - destruct (removeListener_present T remove s Hs Hin) as (l1 & l2 & Hl & _ & Ho & Hr & Hk).
    eexists. split; [exact Hr|]. split; [exact Hk|].
    eapply turn_remove; [exact Hl | exact Ho | reflexivity].
  - exists s. split; [apply removeListener_absent, Hn|]. split; [exact Hs|].
    apply turn_none. reflexivity.
Qed.

Lemma hubTurn_broadcast T ready (v : T) (s : broadcaster.Hub T) :
  broadcaster.hub_ok s ->
  exists s',
    broadcaster.broadcast ready (broadcaster.listeners s) v s = Done tt s' /\
    broadcaster.hub_ok s' /\ hubTurn s s'.
Proof.
  intros (Hd & Hnil & Hopen). rewrite (broadcast_delivers T ready v _ s Hnil Hopen).
  eexists. split; [reflexivity|]. split.
  - split; [exact Hd | split; [exact Hnil | exact Hopen]].
  - eapply turn_broadcast. reflexivity.
Qed.

(** Every turn of the serve loop, hub by hub. *)
Lemma serve_turn m b :
  broadcaster.state_ok b -> freshListener m b ->
  exists b', broadcaster.handleMsg m b = Done tt b' /\ broadcaster.state_ok b' /\
             hubTurn (broadcaster.statsHub b) (broadcaster.statsHub b') /\
             hubTurn (broadcaster.errHub b) (broadcaster.errHub b').
Proof.
  intros [Hs He] Hf. destruct m as [|l|l|ch|errCh|stats ready|err ready];
    cbn [broadcaster.handleMsg freshListener] in *.
  - exists b. split; [reflexivity|]. split; [split; assumption|].
    split; apply turn_none; reflexivity.
  - destruct Hf as (H1 & H2 & H3). eexists. split; [reflexivity|].
    split; [split; [apply hub_ok_add; assumption | exact He]|].
    split; [eapply turn_add; [exact H1 | exact H3 | reflexivity]
           | apply turn_none; reflexivity].
  - destruct Hf as (H1 & H2 & H3). eexists. split; [reflexivity|].
    split; [split; [exact Hs | apply hub_ok_add; assumption]|].
    split; [apply turn_none; reflexivity
           | eapply turn_add; [exact H1 | exact H3 | reflexivity]].
  - destruct (hubTurn_remove _ ch _ Hs) as (s' & Hr & Hk & Ht).
    unfold broadcaster.onStats. rewrite Hr. eexists. split; [reflexivity|].
    split; [split; assumption|]. split; [exact Ht | apply turn_none; reflexivity].
  - destruct (hubTurn_remove _ errCh _ He) as (s' & Hr & Hk & Ht).
    unfold broadcaster.onErrs. rewrite Hr. eexists. split; [reflexivity|].
    split; [split; assumption|]. split; [apply turn_none; reflexivity | exact Ht].
  - destruct (hubTurn_broadcast _ ready stats _ Hs) as (s' & Hr & Hk & Ht).
    unfold broadcaster.onStats. rewrite Hr. eexists. split; [reflexivity|].
    split; [split; assumption|]. split; [exact Ht | apply turn_none; reflexivity].
  - destruct (hubTurn_broadcast _ ready err _ He) as (s' & Hr & Hk & Ht).
    unfold broadcaster.onErrs. rewrite Hr. eexists. split; [reflexivity|].
    split; [split; assumption|]. split; [apply turn_none; reflexivity | exact Ht].
Qed.

(** An invariant of the turns is an invariant of the loop, which ends
    only by cancellation. *)
Lemma serveLoop_invariant (J : broadcaster.State -> Prop) :
  (forall b b',
     broadcaster.state_ok b -> J b ->
     hubTurn (broadcaster.statsHub b) (broadcaster.statsHub b') ->
     hubTurn (broadcaster.errHub b) (broadcaster.errHub b') -> J b') ->
  forall msgs b,
    broadcaster.state_ok b -> J b -> wellFed msgs b ->
    match broadcaster.serveLoop msgs b with
    | Done _ b' => broadcaster.state_ok b' /\ J b' /\ In broadcaster.ctx_Done msgs
    | Blocked b' => broadcaster.state_ok b' /\ J b' /\ ~ In broadcaster.ctx_Done msgs
    | Panic _ => False
    end.
Proof.
  intros HJ. induction msgs as [|m rest IH]; intros b Hok Hb Hfed.
  - cbn. auto.
  - destruct Hfed as [Hf Hfed].
    destruct (serve_turn m b Hok Hf) as (b' & Hr & Hok' & Ht1 & Ht2).
    rewrite Hr in Hfed.
    assert (Hstep : broadcaster.serveLoop (m :: rest) b =
                    match m with
                    | broadcaster.ctx_Done => Done tt b
                    | _ => broadcaster.serveLoop rest b'
                    end).
    { destruct m; cbn [broadcaster.serveLoop]; unfold bind; rewrite ?Hr; reflexivity. }
    rewrite Hstep.
    specialize (IH b' Hok' (HJ b b' Hok Hb Ht1 Ht2) Hfed).
    destruct m;
      try (destruct (broadcaster.serveLoop rest b') as [a b''| |]; [| exact IH |];
           (destruct IH as (H1 & H2 & H3); split; [exact H1|]; split; [exact H2|];
            first [right; exact H3
                  | intros [Hd | Hd]; [discriminate Hd | exact (H3 Hd)]])).
    split; [exact Hok|]. split; [exact Hb | left; reflexivity].
Qed.

Lemma closeAll_closes T : forall ls (s : broadcaster.Hub T),
  NoDup ls -> ~ In broadcaster.chan_nil ls ->
  (forall c, In c ls -> broadcaster.is_closed c s = false) ->
  broadcaster.closeAll ls s =
  Done tt {| broadcaster.listeners := broadcaster.listeners s;
             broadcaster.closed := rev ls ++ broadcaster.closed s;
             broadcaster.delivered := broadcaster.delivered s |}.
Proof.
  induction ls as [|l rest IH]; intros s Hd Hnil Hopen.
  - destruct s; reflexivity.
  - cbn [broadcaster.closeAll]. unfold bind.
    destruct l as [|i]; [exfalso; apply Hnil; left; reflexivity|].
    cbn [broadcaster.chan_eqb negb]. unfold broadcaster.close.
    rewrite (Hopen (broadcaster.chan_at i) (or_introl eq_refl)).
    apply NoDup_cons_iff in Hd. destruct Hd as [Hni Hd].
    rewrite IH.
    + cbn [broadcaster.listeners broadcaster.closed broadcaster.delivered rev].
      rewrite <- app_assoc. reflexivity.
    + exact Hd.
    + intros H. apply Hnil. right. exact H.
    + intros c Hc. unfold broadcaster.is_closed. cbn [broadcaster.closed existsb].
      rewrite chan_eqb_neq; [|intros ->; contradiction].
      apply Hopen. right. exact Hc.
Qed.

(** The deferred function of [serve] on a well-formed state. *)
Lemma serve_deferred b :
  broadcaster.state_ok b ->
  (broadcaster.onStats (fun s => broadcaster.closeAll (broadcaster.listeners s) s) ;;
   broadcaster.onErrs (fun s => broadcaster.closeAll (broadcaster.listeners s) s)) b =
  Done tt
    {| broadcaster.statsHub :=
         {| broadcaster.listeners := broadcaster.statsListeners b;
            broadcaster.closed :=
              rev (broadcaster.statsListeners b)
              ++ broadcaster.closed (broadcaster.statsHub b);
            broadcaster.delivered := broadcaster.delivered (broadcaster.statsHub b) |};
       broadcaster.errHub :=
         {| broadcaster.listeners := broadcaster.errListeners b;
            broadcaster.closed :=
              rev (broadcaster.errListeners b)
              ++ broadcaster.closed (broadcaster.errHub b);
            broadcaster.delivered := broadcaster.delivered (broadcaster.errHub b) |} |}.
Proof.
  intros [(Hd1 & Hn1 & Ho1) (Hd2 & Hn2 & Ho2)].
  unfold bind, broadcaster.onStats, broadcaster.onErrs.
  rewrite (closeAll_closes _ _ _ Hd1 Hn1 Ho1). cbn [broadcaster.errHub broadcaster.statsHub].
  rewrite (closeAll_closes _ _ _ Hd2 Hn2 Ho2). reflexivity.
Qed.

Lemma hubTurn_closedOnce T (s s' : broadcaster.Hub T) :
  hubTurn s s' -> NoDup (broadcaster.closed s) -> NoDup (broadcaster.closed s').
Proof.
  intros [->|l _ _ ->|c l1 l2 _ Ho ->|ready v ->] Hn; cbn [broadcaster.closed];
    try exact Hn.
  constructor; [apply is_closed_not_In, Ho | exact Hn].
Qed.

Lemma closed_listeners_NoDup T (s : broadcaster.Hub T) :
  broadcaster.hub_ok s -> NoDup (broadcaster.closed s) ->
  NoDup (rev (broadcaster.listeners s) ++ broadcaster.closed s).
Proof.
  intros (Hd & _ & Hopen) Hn. apply NoDup_app.
  - apply NoDup_rev, Hd.
  - exact Hn.
  - intros c Hc. apply in_rev in Hc. apply is_closed_not_In, Hopen, Hc.
Qed.

Lemma turns_closedOnce b b' :
  broadcaster.state_ok b -> closedOnce b ->
  hubTurn (broadcaster.statsHub b) (broadcaster.statsHub b') ->
  hubTurn (broadcaster.errHub b) (broadcaster.errHub b') -> closedOnce b'.
Proof.
  intros _ [H1 H2] Ht1 Ht2.
  split; [exact (hubTurn_closedOnce _ _ _ Ht1 H1) | exact (hubTurn_closedOnce _ _ _ Ht2 H2)].
Qed.

(** What the deferred function makes of the way the loop ended. *)
Lemma serve_ends msgs b :
  match broadcaster.serveLoop msgs b with
  | Done _ b1 => broadcaster.state_ok b1 /\ closedOnce b1 /\ In broadcaster.ctx_Done msgs
  | Blocked b1 => broadcaster.state_ok b1 /\ closedOnce b1 /\ ~ In broadcaster.ctx_Done msgs
  | Panic _ => False
  end ->
  match broadcaster.serve msgs b with
  | Done _ b' =>
      In broadcaster.ctx_Done msgs /\
      (forall c, In c (broadcaster.statsListeners b') ->
                 broadcaster.is_closed c (broadcaster.statsHub b') = true) /\
      (forall c, In c (broadcaster.errListeners b') ->
                 broadcaster.is_closed c (broadcaster.errHub b') = true) /\
      closedOnce b'
  | Blocked b' =>
      ~ In broadcaster.ctx_Done msgs /\ broadcaster.state_ok b' /\ closedOnce b'
  | Panic _ => False
  end.
Proof.
  intros H. unfold broadcaster.serve, defer.
  destruct (broadcaster.serveLoop msgs b) as [a b1| |]; [|contradiction|].
  - destruct H as (Hok1 & [Hc1 Hc2] & Hin).
    rewrite (serve_deferred b1 Hok1).
    split; [exact Hin|].
    unfold broadcaster.statsListeners, broadcaster.errListeners.
    cbn [broadcaster.statsHub broadcaster.errHub broadcaster.listeners].
    split; [|split].
    + intros c Hl. apply is_closed_In. cbn [broadcaster.closed].
      apply in_or_app. left. apply in_rev in Hl. exact Hl.
    + intros c Hl. apply is_closed_In. cbn [broadcaster.closed].
      apply in_or_app. left. apply in_rev in Hl. exact Hl.
    + destruct Hok1 as [Hs He]. split; cbn [broadcaster.statsHub broadcaster.errHub
                                           broadcaster.closed];
        apply closed_listeners_NoDup; assumption.
  - destruct H as (Hok1 & Hc1 & Hin). auto.
Qed.

(** X11.  Started on a state in which no listener is nil, closed or
    listed twice and no channel was closed twice (the one
    [NewContainerStatsBroadcaster] makes is such a state), and fed with
    listeners that are fresh when they are announced, [serve] never
    panics: it sends on no closed channel and closes no channel twice.
    It returns only on cancellation, and then every listener still
    registered has been closed by the deferred function, each channel
    once over the whole life of the broadcaster; the deliveries made are
    not touched.  Without cancellation it waits for its next event in a
    well-formed state. *)
Theorem serve_closes_every_listener msgs b :
  broadcaster.state_ok b -> closedOnce b -> wellFed msgs b ->
  match broadcaster.serve msgs b with
  | Done _ b' =>
      In broadcaster.ctx_Done msgs /\
      (forall c, In c (broadcaster.statsListeners b') ->
                 broadcaster.is_closed c (broadcaster.statsHub b') = true) /\
      (forall c, In c (broadcaster.errListeners b') ->
                 broadcaster.is_closed c (broadcaster.errHub b') = true) /\
      closedOnce b'
  | Blocked b' =>
      ~ In broadcaster.ctx_Done msgs /\ broadcaster.state_ok b' /\ closedOnce b'
  | Panic _ => False
  end.
Proof.
  intros Hok Hc Hfed. apply serve_ends.
  apply (serveLoop_invariant closedOnce turns_closedOnce msgs b Hok Hc Hfed).
Qed.

Lemma busyMsgs_wellFed : wellFed busyMsgs threeListeners.
Proof. vm_compute. intuition discriminate. Qed.

Lemma serve_closes_every_listener_witness :
  match broadcaster.serve busyMsgs threeListeners with
  | Done _ b' =>
      (forall c, In c (broadcaster.statsListeners b') ->
                 broadcaster.is_closed c (broadcaster.statsHub b') = true) /\
      closedOnce b'
  | _ => False
  end.
Proof.
  pose proof (serve_closes_every_listener busyMsgs threeListeners threeListeners_ok
                (conj (NoDup_nil _) (NoDup_nil _)) busyMsgs_wellFed) as H.
  destruct (broadcaster.serve busyMsgs threeListeners) as [a b'| |].
  - destruct H as (_ & H1 & _ & H2). split; [exact H1 | exact H2].
  - exact H.
  - destruct H as [H _]. apply H. do 4 right. left. reflexivity.
Defined.

Lemma serveLoop_step m rest b b' :
  m <> broadcaster.ctx_Done -> broadcaster.handleMsg m b = Done tt b' ->
  broadcaster.serveLoop (m :: rest) b = broadcaster.serveLoop rest b'.
Proof.
  intros Hm Hr. destruct m; [contradiction| | | | | |];
    cbn [broadcaster.serveLoop]; unfold bind; rewrite Hr; reflexivity.
Qed.

Lemma silent_for T (ready : broadcaster.chan -> bool) (v : T) ch : forall ls,
  ~ In ch ls ->
  filter (fun d : broadcaster.chan * T => broadcaster.chan_eqb (fst d) ch)
         (rev (map (fun l => (l, v)) (filter ready ls))) = [].
Proof.
  intros ls Hn. rewrite filter_rev.
  replace (filter _ (map _ (filter ready ls))) with (@nil (broadcaster.chan * T));
    [reflexivity|].
  symmetry. induction ls as [|l rest IH]; [reflexivity|].
  assert (Hl : broadcaster.chan_eqb l ch = false).
  { apply chan_eqb_neq. intros ->. apply Hn. left. reflexivity. }
  assert (Hrest : ~ In ch rest) by (intros H; apply Hn; right; exact H).
  cbn [filter]. destruct (ready l); cbn [map filter fst]; rewrite ?Hl; apply IH, Hrest.
Qed.

(** A closed channel stays closed and gets nothing in a turn. *)
Lemma hubTurn_silent T ch (s s' : broadcaster.Hub T) :
  broadcaster.hub_ok s -> hubTurn s s' ->
  broadcaster.is_closed ch s = true ->
  broadcaster.is_closed ch s' = true /\ sentTo ch s' = sentTo ch s.
Proof.
  intros (_ & _ & Hopen) [->|l _ _ ->|c l1 l2 _ _ ->|ready v ->] Hc.
  - split; [exact Hc | reflexivity].
  - split; [exact Hc | reflexivity].
  - split; [|reflexivity]. unfold broadcaster.is_closed in *.
    cbn [broadcaster.closed existsb]. rewrite Hc. apply orb_true_r.
  - split; [exact Hc|]. unfold sentTo. cbn [broadcaster.delivered].
    rewrite filter_app, silent_for; [reflexivity|].
    intros Hin. specialize (Hopen ch Hin). congruence.
Qed.

(** X12.  After a subscription is cancelled its channels get nothing
    any more: whatever the broadcaster receives afterwards, until and
    including its shutdown, what went through to the receiver of a
    cancelled stats channel, and of a cancelled error channel, is what had
    gone through before the cancellation. *)
Theorem serve_no_delivery_after_cancel ch errCh msgs b :
  broadcaster.state_ok b ->
  (In ch (broadcaster.statsListeners b) ->
   wellFed (broadcaster.removeStatsListener ch :: msgs) b ->
   sentTo ch (broadcaster.statsHub
                (state_of (broadcaster.serve (broadcaster.removeStatsListener ch :: msgs) b)))
   = sentTo ch (broadcaster.statsHub b)) /\
  (In errCh (broadcaster.errListeners b) ->
   wellFed (broadcaster.removeErrListener errCh :: msgs) b ->
   sentTo errCh (broadcaster.errHub
                   (state_of (broadcaster.serve (broadcaster.removeErrListener errCh :: msgs) b)))
   = sentTo errCh (broadcaster.errHub b)).
Proof.
  intros Hok.
  assert (Hend : forall (J : broadcaster.State -> Prop) (f : broadcaster.State -> Prop) b2,
            (forall b0 b1, broadcaster.state_ok b0 -> J b0 ->
               hubTurn (broadcaster.statsHub b0) (broadcaster.statsHub b1) ->
               hubTurn (broadcaster.errHub b0) (broadcaster.errHub b1) -> J b1) ->
            (forall b0, J b0 -> f b0) ->
            (forall b0, broadcaster.state_ok b0 -> f b0 ->
               forall b1, (broadcaster.onStats
                             (fun s => broadcaster.closeAll (broadcaster.listeners s) s) ;;
                           broadcaster.onErrs
                             (fun s => broadcaster.closeAll (broadcaster.listeners s) s)) b0
                          = Done tt b1 -> f b1) ->
            broadcaster.state_ok b2 -> J b2 -> wellFed msgs b2 ->
            f (state_of (defer
                 (broadcaster.onStats
                    (fun s => broadcaster.closeAll (broadcaster.listeners s) s) ;;
                  broadcaster.onErrs
                    (fun s => broadcaster.closeAll (broadcaster.listeners s) s))
                 (broadcaster.serveLoop msgs) b2))).
  { intros J f b2 HJ Hf Hd Hok2 HJ2 Hfed.
    pose proof (serveLoop_invariant J HJ msgs b2 Hok2 HJ2 Hfed) as H.
    unfold defer. destruct (broadcaster.serveLoop msgs b2) as [a b3| |]; [|contradiction|].
    - destruct H as (Hok3 & HJ3 & _).
      pose proof (Hd b3 Hok3 (Hf b3 HJ3)) as Hd3.
      rewrite (serve_deferred b3 Hok3) in Hd3 |- *. cbn [state_of]. apply Hd3. reflexivity.
    - destruct H as (_ & HJ3 & _). cbn [state_of]. apply Hf, HJ3. }
  destruct Hok as [Hs He]. split.
  - intros Hin [_ Hfed].
    destruct (removeListener_present _ ch _ Hs Hin) as (l1 & l2 & _ & _ & _ & Hr & Hk).
    cbn [broadcaster.handleMsg] in Hfed. unfold broadcaster.onStats in Hfed.
    rewrite Hr in Hfed.
    unfold broadcaster.serve. 
    match type of Hfed with wellFed _ ?b2 =>
      replace (defer _ (broadcaster.serveLoop (broadcaster.removeStatsListener ch :: msgs)) b)
        with (defer
                (broadcaster.onStats
                   (fun s => broadcaster.closeAll (broadcaster.listeners s) s) ;;
                 broadcaster.onErrs
                   (fun s => broadcaster.closeAll (broadcaster.listeners s) s))
                (broadcaster.serveLoop msgs) b2);
      [apply (Hend (fun b0 => broadcaster.is_closed ch (broadcaster.statsHub b0) = true /\
                              sentTo ch (broadcaster.statsHub b0)
                              = sentTo ch (broadcaster.statsHub b))
                   (fun b0 => sentTo ch (broadcaster.statsHub b0)
                              = sentTo ch (broadcaster.statsHub b)) b2)|]
    end.
    + intros b0 b1 [Hs0 _] [Hc0 Hd0] Ht _.
      destruct (hubTurn_silent _ ch _ _ Hs0 Ht Hc0) as [H1 H2].
      split; [exact H1 | congruence].
    + intros b0 [_ H]. exact H.
    + intros b0 Hok0 H0 b1 Hb1. rewrite (serve_deferred b0 Hok0) in Hb1.
      injection Hb1 as <-. exact H0.
    + split; [exact Hk | exact He].
    + split; [|reflexivity]. unfold broadcaster.is_closed.
      cbn [broadcaster.statsHub broadcaster.closed existsb].
      rewrite chan_eqb_refl. reflexivity.
    + exact Hfed.
    + unfold defer.
      rewrite (serveLoop_step (broadcaster.removeStatsListener ch) msgs b _
                 ltac:(discriminate)
                 ltac:(cbn [broadcaster.handleMsg]; unfold broadcaster.onStats;
                       rewrite Hr; reflexivity)).
      reflexivity.
  - intros Hin [_ Hfed].
    destruct (removeListener_present _ errCh _ He Hin) as (l1 & l2 & _ & _ & _ & Hr & Hk).
    cbn [broadcaster.handleMsg] in Hfed. unfold broadcaster.onErrs in Hfed.
    rewrite Hr in Hfed.
    unfold broadcaster.serve.
    match type of Hfed with wellFed _ ?b2 =>
      replace (defer _ (broadcaster.serveLoop (broadcaster.removeErrListener errCh :: msgs)) b)
        with (defer
                (broadcaster.onStats
                   (fun s => broadcaster.closeAll (broadcaster.listeners s) s) ;;
                 broadcaster.onErrs
                   (fun s => broadcaster.closeAll (broadcaster.listeners s) s))
                (broadcaster.serveLoop msgs) b2);
      [apply (Hend (fun b0 => broadcaster.is_closed errCh (broadcaster.errHub b0) = true /\
                              sentTo errCh (broadcaster.errHub b0)
                              = sentTo errCh (broadcaster.errHub b))
                   (fun b0 => sentTo errCh (broadcaster.errHub b0)
                              = sentTo errCh (broadcaster.errHub b)) b2)|]
    end.
    + intros b0 b1 [_ He0] [Hc0 Hd0] _ Ht.
      destruct (hubTurn_silent _ errCh _ _ He0 Ht Hc0) as [H1 H2].
      split; [exact H1 | congruence].
    + intros b0 [_ H]. exact H.
    + intros b0 Hok0 H0 b1 Hb1. rewrite (serve_deferred b0 Hok0) in Hb1.
      injection Hb1 as <-. exact H0.
    + split; [exact Hs | exact Hk].
    + split; [|reflexivity]. unfold broadcaster.is_closed.
      cbn [broadcaster.errHub broadcaster.closed existsb].
      rewrite chan_eqb_refl. reflexivity.
    + exact Hfed.
    + unfold defer.
      rewrite (serveLoop_step (broadcaster.removeErrListener errCh) msgs b _
                 ltac:(discriminate)
                 ltac:(cbn [broadcaster.handleMsg]; unfold broadcaster.onErrs;
                       rewrite Hr; reflexivity)).
      reflexivity.
Qed.

Lemma serve_no_delivery_after_cancel_witness :
  sentTo (broadcaster.chan_at 1)
    (broadcaster.statsHub
       (state_of (broadcaster.serve
                    (broadcaster.removeStatsListener (broadcaster.chan_at 1) :: laterMsgs)
                    threeListeners)))
  = sentTo (broadcaster.chan_at 1) (broadcaster.statsHub threeListeners).
Proof.
  apply (proj1 (serve_no_delivery_after_cancel (broadcaster.chan_at 1) (broadcaster.chan_at 1)
                  laterMsgs threeListeners threeListeners_ok)).
  - right. left. reflexivity.
  - vm_compute. intuition discriminate.
Defined.

Lemma removeListener_last T l (s : broadcaster.Hub T) :
  l <> broadcaster.chan_nil -> ~ In l (broadcaster.listeners s) ->
  broadcaster.is_closed l s = false ->
  broadcaster.removeListener l
    {| broadcaster.listeners := broadcaster.listeners s ++ [l];
       broadcaster.closed := broadcaster.closed s;
       broadcaster.delivered := broadcaster.delivered s |} =
  Done tt {| broadcaster.listeners := broadcaster.listeners s;
             broadcaster.closed := l :: broadcaster.closed s;
             broadcaster.delivered := broadcaster.delivered s |}.
Proof.
  intros Hnil Hn Hc. unfold broadcaster.removeListener. cbn [broadcaster.listeners].
  pose proof (removeFrom_present T l [] (broadcaster.listeners s) []
                {| broadcaster.listeners := broadcaster.listeners s ++ [l];
                   broadcaster.closed := broadcaster.closed s;
                   broadcaster.delivered := broadcaster.delivered s |}
                Hn eq_refl Hnil Hc) as H.
  cbn [List.length app broadcaster.closed broadcaster.delivered] in H.
  rewrite app_nil_r in H. exact H.
Qed.

Lemma hub_ok_closed T l (s : broadcaster.Hub T) :
  broadcaster.hub_ok s -> ~ In l (broadcaster.listeners s) ->
  broadcaster.hub_ok {| broadcaster.listeners := broadcaster.listeners s;
                        broadcaster.closed := l :: broadcaster.closed s;
                        broadcaster.delivered := broadcaster.delivered s |}.
Proof.
  intros (Hd & Hnil & Hopen) Hn. split; [exact Hd|]. split; [exact Hnil|].
  cbn [broadcaster.listeners]. intros c Hc. unfold broadcaster.is_closed.
  cbn [broadcaster.closed existsb]. rewrite chan_eqb_neq; [apply Hopen, Hc|].
  intros ->. contradiction.
Qed.

(** X13.  [Subscribe] followed by [CancelSubscription] of the channels
    it returned is a round trip for the broadcaster: in the state [serve]
    is left in after the four messages the two listener lists are again
    what they were, in the same order, nothing was delivered, and the
    only trace is that the two new channels are closed, so that the
    subscriber's receive loop ends.  Whatever comes after is handled from
    that state. *)
Theorem Subscribe_CancelSubscription_round_trip n rest b :
  broadcaster.state_ok b ->
  freshListener (broadcaster.addStatsListener (broadcaster.chan_at n)) b ->
  freshListener (broadcaster.addErrListener (broadcaster.chan_at n)) b ->
  let sub := broadcaster.Subscribe n in
  let ch := fst (fst sub) in
  let errCh := snd (fst sub) in
  let b' := state_of (broadcaster.serveLoop
                        (snd sub ++ broadcaster.CancelSubscription ch errCh) b) in
  broadcaster.serveLoop (snd sub ++ broadcaster.CancelSubscription ch errCh ++ rest) b
    = broadcaster.serveLoop rest b' /\
  broadcaster.statsListeners b' = broadcaster.statsListeners b /\
  broadcaster.errListeners b' = broadcaster.errListeners b /\
  broadcaster.delivered (broadcaster.statsHub b')
    = broadcaster.delivered (broadcaster.statsHub b) /\
  broadcaster.delivered (broadcaster.errHub b')
    = broadcaster.delivered (broadcaster.errHub b) /\
  broadcaster.closed (broadcaster.statsHub b')
    = ch :: broadcaster.closed (broadcaster.statsHub b) /\
  broadcaster.closed (broadcaster.errHub b')
    = errCh :: broadcaster.closed (broadcaster.errHub b) /\
  broadcaster.state_ok b'.
Proof.
  intros [Hs He] (Hn1 & Hi1 & Hc1) (Hn2 & Hi2 & Hc2) sub ch errCh.
  subst sub ch errCh. cbn [broadcaster.Subscribe broadcaster.CancelSubscription fst snd].
  assert (Hrun : forall rest0,
            broadcaster.serveLoop
              ([broadcaster.addStatsListener (broadcaster.chan_at n);
                broadcaster.addErrListener (broadcaster.chan_at n)]
               ++ [broadcaster.removeStatsListener (broadcaster.chan_at n);
                   broadcaster.removeErrListener (broadcaster.chan_at n)] ++ rest0) b =
            broadcaster.serveLoop rest0
              {| broadcaster.statsHub :=
                   {| broadcaster.listeners := broadcaster.statsListeners b;
                      broadcaster.closed :=
                        broadcaster.chan_at n :: broadcaster.closed (broadcaster.statsHub b);
                      broadcaster.delivered := broadcaster.delivered (broadcaster.statsHub b) |};
                 broadcaster.errHub :=
                   {| broadcaster.listeners := broadcaster.errListeners b;
                      broadcaster.closed :=
                        broadcaster.chan_at n :: broadcaster.closed (broadcaster.errHub b);
                      broadcaster.delivered := broadcaster.delivered (broadcaster.errHub b) |} |}).
  { intros rest0. cbn [app].
    assert (Hne : forall c, broadcaster.addStatsListener c <> broadcaster.ctx_Done /\
                            broadcaster.addErrListener c <> broadcaster.ctx_Done /\
                            broadcaster.removeStatsListener c <> broadcaster.ctx_Done /\
                            broadcaster.removeErrListener c <> broadcaster.ctx_Done).
    { intros c. repeat split; discriminate. }
    rewrite (serveLoop_step _ _ b _ (proj1 (Hne _)) eq_refl).
    cbn [broadcaster.handleMsg].
    rewrite (serveLoop_step _ _ _ _ (proj1 (proj2 (Hne _))) eq_refl).
    erewrite (serveLoop_step _ _ _ _ (proj1 (proj2 (proj2 (Hne _))))).
    2: { cbn [broadcaster.handleMsg]. unfold broadcaster.onStats, broadcaster.onErrs,
           broadcaster.addListener. cbn [broadcaster.statsHub broadcaster.errHub].
         rewrite (removeListener_last _ _ (broadcaster.statsHub b) Hn1 Hi1 Hc1).
         reflexivity. }
    erewrite (serveLoop_step _ _ _ _ (proj2 (proj2 (proj2 (Hne _))))).
    2: { cbn [broadcaster.handleMsg]. unfold broadcaster.onErrs.
         cbn [broadcaster.statsHub broadcaster.errHub].
         rewrite (removeListener_last _ _ (broadcaster.errHub b) Hn2 Hi2 Hc2).
         reflexivity. }
    reflexivity. }
  assert (Hb' : state_of (broadcaster.serveLoop
                            ([broadcaster.addStatsListener (broadcaster.chan_at n);
                              broadcaster.addErrListener (broadcaster.chan_at n)]
                             ++ [broadcaster.removeStatsListener (broadcaster.chan_at n);
                                 broadcaster.removeErrListener (broadcaster.chan_at n)]) b) =
                {| broadcaster.statsHub :=
                     {| broadcaster.listeners := broadcaster.statsListeners b;
                        broadcaster.closed :=
                          broadcaster.chan_at n :: broadcaster.closed (broadcaster.statsHub b);
                        broadcaster.delivered := broadcaster.delivered (broadcaster.statsHub b) |};
                   broadcaster.errHub :=
                     {| broadcaster.listeners := broadcaster.errListeners b;
                        broadcaster.closed :=
                          broadcaster.chan_at n :: broadcaster.closed (broadcaster.errHub b);
                        broadcaster.delivered := broadcaster.delivered (broadcaster.errHub b) |} |}).
  { pose proof (Hrun []) as H0. rewrite app_nil_r in H0. rewrite H0. reflexivity. }
  cbv zeta. unfold broadcaster.CancelSubscription.
  rewrite Hb'. split; [apply Hrun|].
  unfold broadcaster.statsListeners, broadcaster.errListeners.
  cbn [broadcaster.statsHub broadcaster.errHub broadcaster.listeners
       broadcaster.closed broadcaster.delivered].
  repeat (split; [reflexivity|]).
  split; apply hub_ok_closed; assumption.
Qed.

Lemma Subscribe_CancelSubscription_round_trip_witness :
  let b' := state_of (broadcaster.serveLoop
                        (snd (broadcaster.Subscribe 3)
                         ++ broadcaster.CancelSubscription (broadcaster.chan_at 3)
                                                           (broadcaster.chan_at 3))
                        threeListeners) in
  broadcaster.statsListeners b' = broadcaster.statsListeners threeListeners /\
  broadcaster.errListeners b' = broadcaster.errListeners threeListeners /\
  broadcaster.closed (broadcaster.statsHub b') = [broadcaster.chan_at 3] /\
  broadcaster.closed (broadcaster.errHub b') = [broadcaster.chan_at 3].
Proof.
  destruct (Subscribe_CancelSubscription_round_trip 3 [] threeListeners threeListeners_ok)
    as (_ & H2 & H3 & _ & _ & H4 & H5 & _).
  - vm_compute. intuition discriminate.
  - vm_compute. intuition discriminate.
  - cbv zeta. split; [exact H2|]. split; [exact H3|]. split; [exact H4 | exact H5].
Defined.

(** ** The direct probe and the monitor *)

(** X14.  [ContainerStats] of the api package always returns, and
    closes the response body exactly when [c.Get] gave a response.  Read
    with the test the monitor applies to its error, the probe says "gone"
    exactly for a status 404, a status 409, and a status 200 whose body is
    empty or carries the cause "container is stopped"; any other status
    is an error that only mentions the code and is not taken for "gone",
    like the errors of the transport and of the decoder as long as these
    do not wrap one of the two sentinels.  It returns no error only for a
    status 200 with a non-empty body that decodes. *)
Theorem ContainerStats_says_gone (Stats : Type) (zeroStats : Stats) cause decode get calls :
  (forall e, get = inr e -> isGone e = false) ->
  (forall res e, get = inl res -> Body res = inr e -> isGone e = false) ->
  (forall body s e, decode body = (s, Some e) -> isGone e = false) ->
  exists stats err calls',
    API_ContainerStats Stats zeroStats cause decode get calls = Done (stats, err) calls' /\
    calls' = match get with inl _ => "Body.Close" :: calls | inr _ => calls end /\
    (saysGone err = true <->
     exists res, get = inl res /\
       (StatusCode res = 404 \/ StatusCode res = 409 \/
        (StatusCode res = 200 /\
         exists body, Body res = inl body /\
           (body = "" \/ cause body = "container is stopped")))) /\
    (err = None ->
     exists res body, get = inl res /\ StatusCode res = 200 /\ Body res = inl body /\
                      body <> "" /\ decode body = (stats, None)).
Proof.
  intros Hget Hread Hdec. destruct get as [res|e]; cbn [API_ContainerStats].
  2: { do 3 eexists. split; [reflexivity|]. split; [reflexivity|]. split; [|discriminate].
       cbn [saysGone]. rewrite (Hget e eq_refl). split; [discriminate|].
       intros (res & Hres & _). discriminate. }
  specialize (Hread res). unfold defer, ignoreClose.
  destruct (StatusCode res =? 404)%Z eqn:E404.
  { apply Z.eqb_eq in E404. do 3 eexists. split; [reflexivity|]. split; [reflexivity|].
    split; [|discriminate]. split; [|reflexivity]. intros _. exists res. auto. }
  destruct (StatusCode res =? 409)%Z eqn:E409.
  { apply Z.eqb_eq in E409. do 3 eexists. split; [reflexivity|]. split; [reflexivity|].
    split; [|discriminate]. split; [|reflexivity]. intros _. exists res. auto. }
  apply Z.eqb_neq in E404, E409.
  destruct (StatusCode res =? 200)%Z eqn:E200; cbn [negb].
  2: { apply Z.eqb_neq in E200. do 3 eexists. split; [reflexivity|]. split; [reflexivity|].
       split; [|discriminate]. split; [discriminate|].
       intros (res' & Hres & H). injection Hres as <-.
       destruct H as [H | [H | [H _]]]; contradiction. }
  apply Z.eqb_eq in E200.
  assert (Hiff : forall P : Prop,
            (P <-> exists body, Body res = inl body /\
                     (body = "" \/ cause body = "container is stopped")) ->
            (P <-> exists res', @inl Response error res = inl res' /\
                     (StatusCode res' = 404 \/ StatusCode res' = 409 \/
                      (StatusCode res' = 200 /\
                       exists body, Body res' = inl body /\
                         (body = "" \/ cause body = "container is stopped"))))).
  { intros P HP. rewrite HP. split.
    - intros H. exists res. auto.
    - intros (res' & Hres & H). injection Hres as <-.
      destruct H as [H | [H | [_ H]]]; [contradiction | contradiction | exact H]. }
  destruct (Body res) as [body|e] eqn:Ebody.
  2: { do 3 eexists. split; [reflexivity|]. split; [reflexivity|]. split; [|discriminate].
       apply Hiff. cbn [saysGone]. rewrite (Hread e eq_refl eq_refl).
       split; [discriminate|]. intros (body & Hb & _). discriminate. }
  destruct (String.length body =? 0)%nat eqn:Elen.
  { do 3 eexists. split; [reflexivity|]. split; [reflexivity|]. split; [|discriminate].
    apply Hiff. split; [|reflexivity]. intros _. exists body. split; [reflexivity|].
    left. apply Nat.eqb_eq in Elen. destruct body; [reflexivity | discriminate]. }
  assert (Hne : body <> "").
  { intros ->. discriminate. }
  destruct (String.eqb (cause body) "container is stopped") eqn:Ecause.
  { do 3 eexists. split; [reflexivity|]. split; [reflexivity|]. split; [|discriminate].
    apply Hiff. split; [|reflexivity]. intros _. exists body. split; [reflexivity|].
    right. apply String.eqb_eq, Ecause. }
  apply String.eqb_neq in Ecause.
  assert (Hno : ~ exists body0, @inl string error body = inl body0 /\
                  (body0 = "" \/ cause body0 = "container is stopped")).
  { intros (body0 & Hb & H). injection Hb as <-. destruct H; contradiction. }
  destruct (decode body) as [stats' [e|]] eqn:Edec.
  - do 3 eexists. split; [reflexivity|]. split; [reflexivity|]. split; [|discriminate].
    apply Hiff. cbn [saysGone]. rewrite (Hdec body stats' e Edec).
    split; [discriminate | intros H; contradiction].
  - do 3 eexists. split; [reflexivity|]. split; [reflexivity|]. split.
    + apply Hiff. cbn [saysGone]. split; [discriminate | intros H; contradiction].
    + intros _. exists res, body. auto.
Qed.

Lemma ContainerStats_says_gone_witness :
  exists stats err calls',
    API_ContainerStats nat 0%nat
      (fun _ => "container is stopped") (fun _ => (1%nat, None)) stoppedAnswer []
      = Done (stats, err) calls' /\
    calls' = ["Body.Close"] /\ saysGone err = true.
Proof.
  destruct (ContainerStats_says_gone nat 0%nat
              (fun _ => "container is stopped") (fun _ => (1%nat, None)) stoppedAnswer [])
    as (stats & err & calls' & H1 & H2 & H3 & _).
  - intros e He. discriminate He.
  - intros res e Hres Hb. injection Hres as <-. discriminate Hb.
  - intros body s e He. discriminate He.
  - exists stats, err, calls'. split; [exact H1|]. split; [exact H2|].
    apply H3. eexists. split; [reflexivity|]. right. right. split; [reflexivity|].
    eexists. split; [reflexivity|]. right. reflexivity.
Defined.

(** ** The poller *)

Lemma poller_loop : forall events s,
  poller.closed s = [] ->
  match poller.loop events s with
  | Done _ s' =>
      In poller.ctx_Done events /\
      poller.closed s' = ["errChan"; "statsChan"] /\
      poller.errs s' = rev (poller.errorsOf events) ++ poller.errs s /\
      poller.batches s' = rev (poller.takenOf events) ++ poller.batches s
  | Blocked s' =>
      poller.closed s' = [] /\
      (exists n, poller.errs s' = rev (firstn n (poller.errorsOf events)) ++ poller.errs s) /\
      (exists n, poller.batches s' = rev (firstn n (poller.takenOf events))
                                     ++ poller.batches s) /\
      (In poller.ctx_Done events ->
       poller.pending s' = true /\
       List.length (poller.errs s') < List.length (poller.errorsOf events ++ poller.errs s))%nat
  | Panic _ => False
  end.
Proof.
  induction events as [|ev rest IH]; intros s Hc.
  - cbn. split; [exact Hc|]. split; [exists 0%nat; reflexivity|].
    split; [exists 0%nat; reflexivity | contradiction].
  - destruct ev as [|answer errTaken statsReady]; cbn [poller.loop].
    + unfold bind, poller.call, poller.close. cbn [poller.closed]. rewrite Hc. cbn.
      split; [left; reflexivity|]. repeat split.
    + assert (Hlater : forall s1,
                poller.closed s1 = [] ->
                forall (es : list error) (bs : list broadcaster.Batch),
                  poller.errs s1 = rev es ++ poller.errs s ->
                  poller.batches s1 = rev bs ++ poller.batches s ->
                  (List.length es <= 1)%nat ->
                  match poller.loop rest s1 with
                  | Done _ s' =>
                      In poller.ctx_Done (poller.timer_C answer errTaken statsReady :: rest) /\
                      poller.closed s' = ["errChan"; "statsChan"] /\
                      poller.errs s' = rev (es ++ poller.errorsOf rest) ++ poller.errs s /\
                      poller.batches s' = rev (bs ++ poller.takenOf rest) ++ poller.batches s
                  | Blocked s' =>
                      poller.closed s' = [] /\
                      (exists n, poller.errs s' =
                                 rev (firstn n (es ++ poller.errorsOf rest)) ++ poller.errs s) /\
                      (exists n, poller.batches s' =
                                 rev (firstn n (bs ++ poller.takenOf rest))
                                 ++ poller.batches s) /\
                      (In poller.ctx_Done (poller.timer_C answer errTaken statsReady :: rest) ->
                       poller.pending s' = true /\
                       List.length (poller.errs s') <
                       List.length ((es ++ poller.errorsOf rest) ++ poller.errs s))%nat
                  | Panic _ => False
                  end).
      { intros s1 Hc1 es bs He Hb Hlen. specialize (IH s1 Hc1).
        destruct (poller.loop rest s1) as [a s'|s'|s']; [|exact IH|].
        - destruct IH as (H1 & H2 & H3 & H4). split; [right; exact H1|].
          split; [exact H2|]. rewrite H3, H4, He, Hb, !rev_app_distr, !app_assoc.
          split; reflexivity.
        - destruct IH as (H2 & (n & H3) & (m & H4) & H5). split; [exact H2|].
          split; [|split].
          + exists (List.length es + n)%nat. rewrite H3, He, firstn_app_2, rev_app_distr, app_assoc.
            reflexivity.
          + exists (List.length bs + m)%nat. rewrite H4, Hb, firstn_app_2, rev_app_distr, app_assoc.
            reflexivity.
          + intros [Hd | Hd]; [discriminate Hd|]. destruct (H5 Hd) as [Hp Hl].
            split; [exact Hp|]. rewrite He in Hl. rewrite !length_app in *.
            rewrite length_rev in Hl. lia. }
      assert (Hwait : forall s1 (err : error),
                poller.closed s1 = [] -> poller.errs s1 = poller.errs s ->
                poller.batches s1 = poller.batches s -> poller.pending s1 = true ->
                poller.closed s1 = [] /\
                (exists n, poller.errs s1 =
                           rev (firstn n (err :: poller.errorsOf rest)) ++ poller.errs s) /\
                (exists n, poller.batches s1 =
                           rev (firstn n (poller.takenOf rest)) ++ poller.batches s) /\
                (In poller.ctx_Done (poller.timer_C answer errTaken statsReady :: rest) ->
                 poller.pending s1 = true /\
                 List.length (poller.errs s1) <
                 List.length ((err :: poller.errorsOf rest) ++ poller.errs s))%nat).
      { intros s1 err Hc1 He Hb Hp. split; [exact Hc1|].
        split; [exists 0%nat; exact He|]. split; [exists 0%nat; exact Hb|].
        intros _. split; [exact Hp|]. rewrite He. cbn [app List.length].
        rewrite length_app. lia. }
      unfold bind at 1 2. unfold poller.call at 1 2.
      destruct answer as [err|err|stats].
      * cbn [poller.errorsOf poller.takenOf].
        unfold bind at 1 2. unfold poller.call at 1. unfold poller.send_errChan.
        cbn [poller.closed poller.pending]. rewrite Hc. cbn [existsb].
        destruct (poller.pending s && negb errTaken) eqn:Hfull.
        { apply Hwait; try reflexivity. cbn [poller.pending].
          apply andb_true_iff in Hfull. apply Hfull. }
        refine (Hlater _ _ [err] [] _ _ _); [reflexivity | reflexivity | reflexivity | cbn; lia].
      * cbn [poller.errorsOf poller.takenOf].
        unfold bind at 1 2 3. unfold poller.call at 1 2. unfold poller.send_errChan.
        cbn [poller.closed poller.pending]. rewrite Hc. cbn [existsb].
        destruct (poller.pending s && negb errTaken) eqn:Hfull.
        { apply Hwait; try reflexivity. cbn [poller.pending].
          apply andb_true_iff in Hfull. apply Hfull. }
        refine (Hlater _ _ [err] [] _ _ _); [reflexivity | reflexivity | reflexivity | cbn; lia].
      * unfold bind at 1 2. unfold poller.call at 1. unfold poller.trySend_statsChan.
        cbn [poller.closed]. rewrite Hc. cbn [existsb].
        destruct statsReady; cbn [poller.errorsOf poller.takenOf].
        { refine (Hlater _ _ [] [stats] _ _ _); [reflexivity | reflexivity | reflexivity | cbn; lia]. }
        refine (Hlater _ _ [] [] _ _ _); [reflexivity | reflexivity | reflexivity | cbn; lia].
Qed.

(** X15.  The goroutine of [ContainerStatsStream] never panics: it
    sends on no closed channel and closes each of its two channels at
    most once.  It returns only on cancellation, and then it has closed
    [statsChan] and then [errChan]; by then every error of a poll (of
    [c.Get] or of the decoder) was put on [errChan], in order and none
    dropped, while of the decoded batches exactly those were sent for
    which a receiver was waiting.  As long as it has not returned it has
    closed nothing and the values sent are the first so many of these.
    The send on [errChan] takes no part in the [select] on the context:
    when an error finds the buffer full the goroutine waits there, also
    when the cancellation would come next, and this error is not
    sent. *)
Theorem poller_hands_over_every_error events :
  match poller.loop events poller.start with
  | Done _ s' =>
      In poller.ctx_Done events /\
      poller.closed s' = ["errChan"; "statsChan"] /\
      rev (poller.errs s') = poller.errorsOf events /\
      rev (poller.batches s') = poller.takenOf events
  | Blocked s' =>
      poller.closed s' = [] /\
      (exists n, rev (poller.errs s') = firstn n (poller.errorsOf events)) /\
      (exists n, rev (poller.batches s') = firstn n (poller.takenOf events)) /\
      (In poller.ctx_Done events ->
       poller.pending s' = true /\
       List.length (poller.errs s') < List.length (poller.errorsOf events))%nat
  | Panic _ => False
  end.
Proof.
  pose proof (poller_loop events poller.start eq_refl) as H.
  destruct (poller.loop events poller.start) as [a s'|s'|s']; [|exact H|].
  - destruct H as (H1 & H2 & H3 & H4). split; [exact H1|]. split; [exact H2|].
    rewrite H3, H4. cbn [poller.start poller.errs poller.batches].
    rewrite !app_nil_r, !rev_involutive. split; reflexivity.
  - destruct H as (H2 & (n & H3) & (m & H4) & H5). split; [exact H2|].
    cbn [poller.start poller.errs poller.batches] in *. rewrite app_nil_r in *.
    split; [exists n; rewrite H3; apply rev_involutive|].
    split; [exists m; rewrite H4; apply rev_involutive|].
    exact H5.
Qed.

Lemma poller_hands_over_every_error_witness :
  match poller.loop twoErrors poller.start with
  | Blocked s' =>
      poller.closed s' = [] /\ poller.pending s' = true /\
      poller.errs s' = [errors_New "connection refused"]
  | _ => False
  end.
Proof.
  pose proof (poller_hands_over_every_error twoErrors) as H.
  vm_compute in H |- *. destruct H as (H1 & _ & _ & H2).
  split; [exact H1|]. split; [apply H2; do 2 right; left; reflexivity | reflexivity].
Defined.

(** ** Listeners that come from Subscribe *)

Lemma below_add T n (s : broadcaster.Hub T) :
  below n s ->
  below (S n) {| broadcaster.listeners := broadcaster.listeners s ++ [broadcaster.chan_at n];
                 broadcaster.closed := broadcaster.closed s;
                 broadcaster.delivered := broadcaster.delivered s |}.
Proof.
  intros Hb i Hi. cbn [broadcaster.listeners broadcaster.closed] in Hi.
  apply in_app_or in Hi. destruct Hi as [Hi | Hi].
  - apply in_app_or in Hi. destruct Hi as [Hi | [Hi | []]].
    + apply Nat.lt_lt_succ_r, Hb, in_or_app. left. exact Hi.
    + injection Hi as <-. apply Nat.lt_succ_diag_r.
  - apply Nat.lt_lt_succ_r, Hb, in_or_app. right. exact Hi.
Qed.

Lemma below_fresh T n (s : broadcaster.Hub T) :
  below n s ->
  broadcaster.chan_at n <> broadcaster.chan_nil /\
  ~ In (broadcaster.chan_at n) (broadcaster.listeners s) /\
  broadcaster.is_closed (broadcaster.chan_at n) s = false.
Proof.
  intros Hb. split; [discriminate|]. split.
  - intros Hi. apply (Nat.lt_irrefl n), Hb, in_or_app. left. exact Hi.
  - destruct (broadcaster.is_closed (broadcaster.chan_at n) s) eqn:E; [|reflexivity].
    apply is_closed_In in E. exfalso.
    apply (Nat.lt_irrefl n), Hb, in_or_app. right. exact E.
Qed.

Lemma below_remove T n remove (s : broadcaster.Hub T) :
  broadcaster.hub_ok s -> below n s ->
  exists s', broadcaster.removeListener remove s = Done tt s' /\
             broadcaster.hub_ok s' /\ below n s'.
Proof.
  intros Hs Hb. destruct (chan_in_dec remove (broadcaster.listeners s)) as [Hin | Hn].
  - destruct (removeListener_present T remove s Hs Hin) as (l1 & l2 & Hl & _ & _ & Hr & Hk).
    eexists. split; [exact Hr|]. split; [exact Hk|].
    intros i Hi. apply Hb. rewrite Hl.
    cbn [broadcaster.listeners broadcaster.closed] in Hi.
    apply in_app_or in Hi. apply in_or_app. destruct Hi as [Hi | [Hi | Hi]].
    + left. apply in_app_or in Hi. apply in_or_app.
      destruct Hi as [Hi | Hi]; [left | right; right]; exact Hi.
    + left. apply in_or_app. right. left. exact Hi.
    + right. exact Hi.
  - exists s. split; [apply removeListener_absent, Hn|]. split; [exact Hs | exact Hb].
Qed.

Lemma below_broadcast T n ready (v : T) (s : broadcaster.Hub T) :
  broadcaster.hub_ok s -> below n s ->
  exists s',
    broadcaster.broadcast ready (broadcaster.listeners s) v s = Done tt s' /\
    broadcaster.hub_ok s' /\ below n s'.
Proof.
  intros (Hd & Hnil & Hopen) Hb. rewrite (broadcast_delivers T ready v _ s Hnil Hopen).
  eexists. split; [reflexivity|]. split.
  - split; [exact Hd | split; [exact Hnil | exact Hopen]].
  - exact Hb.
Qed.

(** Channels that come from [Subscribe] are fresh when [serve] takes
    them. *)
Lemma madeBySubscribe_wellFed : forall msgs ns ne b,
  broadcaster.state_ok b ->
  below ns (broadcaster.statsHub b) -> below ne (broadcaster.errHub b) ->
  madeBySubscribe ns ne msgs -> wellFed msgs b.
Proof.
  induction msgs as [|m rest IH]; intros ns ne b [Hs He] Hbs Hbe Hmade; [exact I|].
  destruct m as [|l|l|ch|errCh|stats ready|err ready];
    cbn [madeBySubscribe wellFed freshListener broadcaster.handleMsg] in *.
  - split; [exact I|]. apply (IH ns ne); [split| | |]; assumption.
  - destruct Hmade as [-> Hmade]. split; [apply below_fresh, Hbs|].
    destruct (below_fresh _ _ _ Hbs) as (H1 & H2 & H3).
    apply (IH (S ns) ne); [split; [apply hub_ok_add; assumption | exact He] | | |].
    + apply below_add, Hbs.
    + exact Hbe.
    + exact Hmade.
  - destruct Hmade as [-> Hmade]. split; [apply below_fresh, Hbe|].
    destruct (below_fresh _ _ _ Hbe) as (H1 & H2 & H3).
    apply (IH ns (S ne)); [split; [exact Hs | apply hub_ok_add; assumption] | | |].
    + exact Hbs.
    + apply below_add, Hbe.
    + exact Hmade.
  - split; [exact I|].
    destruct (below_remove _ ns ch _ Hs Hbs) as (s' & Hr & Hk & Hb').
    unfold broadcaster.onStats. rewrite Hr.
    apply (IH ns ne); [split| | |]; assumption.
  - split; [exact I|].
    destruct (below_remove _ ne errCh _ He Hbe) as (s' & Hr & Hk & Hb').
    unfold broadcaster.onErrs. rewrite Hr.
    apply (IH ns ne); [split| | |]; assumption.
  - split; [exact I|].
    destruct (below_broadcast _ ns ready stats _ Hs Hbs) as (s' & Hr & Hk & Hb').
    unfold broadcaster.onStats. rewrite Hr.
    apply (IH ns ne); [split| | |]; assumption.
  - split; [exact I|].
    destruct (below_broadcast _ ne ready err _ He Hbe) as (s' & Hr & Hk & Hb').
    unfold broadcaster.onErrs. rewrite Hr.
    apply (IH ns ne); [split| | |]; assumption.
Qed.

(** X16.  A broadcaster made by [NewContainerStatsBroadcaster] whose
    listeners all come from [Subscribe] never panics, whatever the order
    of subscriptions, cancellations (also repeated, or of channels it
    does not know), batches and errors it is given, and whichever
    receivers are ready: [serve] sends on no closed channel and closes no
    channel twice.  It returns only on cancellation, with every listener
    still registered closed; until then it waits for its next event in a
    well-formed state. *)
Theorem serve_of_subscribers_never_panics msgs :
  madeBySubscribe 0 0 msgs ->
  match broadcaster.serve msgs broadcaster.NewContainerStatsBroadcaster with
  | Done _ b' =>
      In broadcaster.ctx_Done msgs /\
      (forall c, In c (broadcaster.statsListeners b') ->
                 broadcaster.is_closed c (broadcaster.statsHub b') = true) /\
      (forall c, In c (broadcaster.errListeners b') ->
                 broadcaster.is_closed c (broadcaster.errHub b') = true) /\
      closedOnce b'
  | Blocked b' =>
      ~ In broadcaster.ctx_Done msgs /\ broadcaster.state_ok b' /\ closedOnce b'
  | Panic _ => False
  end.
Proof.
  intros Hmade. apply serve_ends.
  apply (serveLoop_invariant closedOnce turns_closedOnce).
  - apply new_broadcaster_ok.
  - split; constructor.
  - apply (madeBySubscribe_wellFed msgs 0 0);
      [apply new_broadcaster_ok | intros i [] | intros i [] | exact Hmade].
Qed.

Lemma twoSubscribers_made : madeBySubscribe 0 0 twoSubscribers.
Proof. vm_compute. repeat split. Qed.

Lemma serve_of_subscribers_never_panics_witness :
  match broadcaster.serve twoSubscribers broadcaster.NewContainerStatsBroadcaster with
  | Done _ b' =>
      (forall c, In c (broadcaster.statsListeners b') ->
                 broadcaster.is_closed c (broadcaster.statsHub b') = true) /\
      closedOnce b'
  | _ => False
  end.
Proof.
  pose proof (serve_of_subscribers_never_panics twoSubscribers twoSubscribers_made) as H.
  destruct (broadcaster.serve twoSubscribers broadcaster.NewContainerStatsBroadcaster)
    as [a b'| |].
  - destruct H as (_ & H1 & _ & H2). split; [exact H1 | exact H2].
  - exact H.
  - destruct H as [H _]. apply H. vm_compute. do 9 right. left. reflexivity.
Defined.

(** ** What a subscriber receives *)

Lemma sent_once T (ready : broadcaster.chan -> bool) (v : T) c : forall ls,
  NoDup ls ->
  filter (fun d : broadcaster.chan * T => broadcaster.chan_eqb (fst d) c)
         (rev (map (fun l => (l, v)) (filter ready ls))) = [] \/
  filter (fun d : broadcaster.chan * T => broadcaster.chan_eqb (fst d) c)
         (rev (map (fun l => (l, v)) (filter ready ls))) = [(c, v)].
Proof.
  induction ls as [|l rest IH]; intros Hd; [left; reflexivity|].
  apply NoDup_cons_iff in Hd. destruct Hd as [Hl Hd].
  cbn [filter]. destruct (ready l); [|apply IH, Hd].
  cbn [map rev]. rewrite filter_app. cbn [filter fst].
  destruct (broadcaster.chan_eqb l c) eqn:E.
  - apply chan_eqb_eq in E. subst l. right.
    rewrite (silent_for T ready v c rest Hl). reflexivity.
  - rewrite app_nil_r. apply IH, Hd.
Qed.

(** One turn of the serve loop gives a receiver nothing, or the event
    of that turn. *)
Lemma serve_turn_sent m b c errC :
  broadcaster.state_ok b -> freshListener m b ->
  exists b',
    broadcaster.handleMsg m b = Done tt b' /\ broadcaster.state_ok b' /\
    (sentTo c (broadcaster.statsHub b') = sentTo c (broadcaster.statsHub b) \/
     exists stats ready,
       m = broadcaster.statsChan stats ready /\
       sentTo c (broadcaster.statsHub b') = stats :: sentTo c (broadcaster.statsHub b)) /\
    (sentTo errC (broadcaster.errHub b') = sentTo errC (broadcaster.errHub b) \/
     exists err ready,
       m = broadcaster.errStatsChan err ready /\
       sentTo errC (broadcaster.errHub b') = err :: sentTo errC (broadcaster.errHub b)).
Proof.
  intros Hok Hf.
  assert (Hrem : forall T remove (s : broadcaster.Hub T) (x : broadcaster.chan),
            broadcaster.hub_ok s ->
            exists s', broadcaster.removeListener remove s = Done tt s' /\
                       broadcaster.hub_ok s' /\ sentTo x s' = sentTo x s).
  { intros T remove s x Hs.
    destruct (chan_in_dec remove (broadcaster.listeners s)) as [Hin | Hn].
    - destruct (removeListener_present T remove s Hs Hin) as (l1 & l2 & _ & _ & _ & Hr & Hk).
      eexists. split; [exact Hr|]. split; [exact Hk | reflexivity].
    - exists s. split; [apply removeListener_absent, Hn|]. split; [exact Hs | reflexivity]. }
  assert (Hcast : forall T ready (v : T) (s : broadcaster.Hub T) (x : broadcaster.chan),
            broadcaster.hub_ok s ->
            exists s',
              broadcaster.broadcast ready (broadcaster.listeners s) v s = Done tt s' /\
              broadcaster.hub_ok s' /\
              (sentTo x s' = sentTo x s \/ sentTo x s' = v :: sentTo x s)).
  { intros T ready v s x (Hd & Hnil & Hopen).
    rewrite (broadcast_delivers T ready v _ s Hnil Hopen).
    eexists. split; [reflexivity|]. split.
    - split; [exact Hd | split; [exact Hnil | exact Hopen]].
    - unfold sentTo. cbn [broadcaster.delivered]. rewrite filter_app, map_app.
      destruct (sent_once T ready v x (broadcaster.listeners s) Hd) as [-> | ->];
        [left | right]; reflexivity. }
  destruct Hok as [Hs He].
  destruct m as [|l|l|ch|errCh|stats ready|err ready];
    cbn [broadcaster.handleMsg freshListener] in *.
  - exists b. split; [reflexivity|]. split; [split; assumption|]. split; left; reflexivity.
  - destruct Hf as (H1 & H2 & H3). eexists. split; [reflexivity|].
    split; [split; [apply hub_ok_add; assumption | exact He]|]. split; left; reflexivity.
  - destruct Hf as (H1 & H2 & H3). eexists. split; [reflexivity|].
    split; [split; [exact Hs | apply hub_ok_add; assumption]|]. split; left; reflexivity.
  - destruct (Hrem _ ch _ c Hs) as (s' & Hr & Hk & Hsent).
    unfold broadcaster.onStats. rewrite Hr. eexists. split; [reflexivity|].
    split; [split; assumption|]. split; left; [exact Hsent | reflexivity].
  - destruct (Hrem _ errCh _ errC He) as (s' & Hr & Hk & Hsent).
    unfold broadcaster.onErrs. rewrite Hr. eexists. split; [reflexivity|].
    split; [split; assumption|]. split; left; [reflexivity | exact Hsent].
  - destruct (Hcast _ ready stats _ c Hs) as (s' & Hr & Hk & Hsent).
    unfold broadcaster.onStats. rewrite Hr. eexists. split; [reflexivity|].
    split; [split; assumption|]. split; [|left; reflexivity].
    destruct Hsent as [Hsent | Hsent]; [left; exact Hsent|].
    right. exists stats, ready. split; [reflexivity | exact Hsent].
  - destruct (Hcast _ ready err _ errC He) as (s' & Hr & Hk & Hsent).
    unfold broadcaster.onErrs. rewrite Hr. eexists. split; [reflexivity|].
    split; [split; assumption|]. split; [left; reflexivity|].
    destruct Hsent as [Hsent | Hsent]; [left; exact Hsent|].
    right. exists err, ready. split; [reflexivity | exact Hsent].
Qed.

Lemma serveLoop_in_order c errC : forall msgs b,
  broadcaster.state_ok b -> wellFed msgs b ->
  exists got gotErrs,
    sentTo c (broadcaster.statsHub (state_of (broadcaster.serve msgs b)))
      = rev got ++ sentTo c (broadcaster.statsHub b) /\
    subseq got (statsOf msgs) /\
    sentTo errC (broadcaster.errHub (state_of (broadcaster.serve msgs b)))
      = rev gotErrs ++ sentTo errC (broadcaster.errHub b) /\
    subseq gotErrs (errsOf msgs).
Proof.
  assert (Hstop : forall msgs b,
            broadcaster.state_ok b ->
            broadcaster.serveLoop msgs b = Done tt b \/
            broadcaster.serveLoop msgs b = Blocked b ->
            exists got gotErrs,
              sentTo c (broadcaster.statsHub (state_of (broadcaster.serve msgs b)))
                = rev got ++ sentTo c (broadcaster.statsHub b) /\
              subseq got (statsOf msgs) /\
              sentTo errC (broadcaster.errHub (state_of (broadcaster.serve msgs b)))
                = rev gotErrs ++ sentTo errC (broadcaster.errHub b) /\
              subseq gotErrs (errsOf msgs)).
  { intros msgs b Hok Hr. exists [], []. unfold broadcaster.serve, defer.
    destruct Hr as [-> | ->].
    - rewrite (serve_deferred b Hok). cbn [state_of].
      repeat split; constructor.
    - cbn [state_of]. repeat split; constructor. }
  induction msgs as [|m rest IH]; intros b Hok Hfed.
  - apply Hstop; [exact Hok | right; reflexivity].
  - destruct Hfed as [Hf Hfed].
    destruct (serve_turn_sent m b c errC Hok Hf) as (b' & Hr & Hok' & Hs & He).
    rewrite Hr in Hfed.
    destruct (IH b' Hok' Hfed) as (got & gotErrs & H1 & H2 & H3 & H4).
    assert (Hstep : m <> broadcaster.ctx_Done ->
                    broadcaster.serve (m :: rest) b = broadcaster.serve rest b').
    { intros Hm. unfold broadcaster.serve, defer.
      rewrite (serveLoop_step m rest b b' Hm Hr). reflexivity. }
    destruct m as [|l|l|ch|errCh|stats ready|err ready];
      try (rewrite (Hstep ltac:(discriminate));
           cbn [statsOf errsOf]).
    + apply Hstop; [exact Hok | left; reflexivity].
    + destruct Hs as [Hs | (? & ? & Hm & _)]; [|discriminate Hm].
      destruct He as [He | (? & ? & Hm & _)]; [|discriminate Hm].
      exists got, gotErrs. rewrite H1, H3, Hs, He. auto.
    + destruct Hs as [Hs | (? & ? & Hm & _)]; [|discriminate Hm].
      destruct He as [He | (? & ? & Hm & _)]; [|discriminate Hm].
      exists got, gotErrs. rewrite H1, H3, Hs, He. auto.
    + destruct Hs as [Hs | (? & ? & Hm & _)]; [|discriminate Hm].
      destruct He as [He | (? & ? & Hm & _)]; [|discriminate Hm].
      exists got, gotErrs. rewrite H1, H3, Hs, He. auto.
    + destruct Hs as [Hs | (? & ? & Hm & _)]; [|discriminate Hm].
      destruct He as [He | (? & ? & Hm & _)]; [|discriminate Hm].
      exists got, gotErrs. rewrite H1, H3, Hs, He. auto.
    + destruct He as [He | (? & ? & Hm & _)]; [|discriminate Hm].
      destruct Hs as [Hs | (stats' & ready' & Hm & Hs)].
      * exists got, gotErrs. rewrite H1, H3, Hs, He.
        split; [reflexivity|]. split; [apply subseq_skip, H2 | auto].
      * injection Hm as <- <-. exists (stats :: got), gotErrs.
        rewrite H1, H3, Hs, He. cbn [rev]. rewrite <- app_assoc.
        split; [reflexivity|]. split; [apply subseq_take, H2 | auto].
    + destruct Hs as [Hs | (? & ? & Hm & _)]; [|discriminate Hm].
      destruct He as [He | (err' & ready' & Hm & He)].
      * exists got, gotErrs. rewrite H1, H3, Hs, He.
        split; [reflexivity|]. split; [exact H2|].
        split; [reflexivity | apply subseq_skip, H4].
      * injection Hm as <- <-. exists got, (err :: gotErrs).
        rewrite H1, H3, Hs, He. cbn [rev]. rewrite <- app_assoc.
        split; [reflexivity|]. split; [exact H2|].
        split; [reflexivity | apply subseq_take, H4].
Qed.

(** X17.  No subscriber gets an event twice or out of order: over a
    whole run of [serve] on a well-formed state, fed with fresh
    listeners, what is delivered on any stats channel is, in order, a
    selection of the batches the broadcaster received before the
    cancellation, each at most once, and what is delivered on any error
    channel is such a selection of the errors it received; the deferred
    closing of the listeners delivers nothing. *)
Theorem serve_delivers_in_order msgs b c errC :
  broadcaster.state_ok b -> wellFed msgs b ->
  let b' := state_of (broadcaster.serve msgs b) in
  (exists got,
     rev (sentTo c (broadcaster.statsHub b'))
       = rev (sentTo c (broadcaster.statsHub b)) ++ got /\
     subseq got (statsOf msgs)) /\
  (exists got,
     rev (sentTo errC (broadcaster.errHub b'))
       = rev (sentTo errC (broadcaster.errHub b)) ++ got /\
     subseq got (errsOf msgs)).
Proof.
  intros Hok Hfed b'.
  destruct (serveLoop_in_order c errC msgs b Hok Hfed) as (got & gotErrs & H1 & H2 & H3 & H4).
  fold b' in H1, H3. split.
  - exists got. rewrite H1, rev_app_distr, rev_involutive. split; [reflexivity | exact H2].
  - exists gotErrs. rewrite H3, rev_app_distr, rev_involutive. split; [reflexivity | exact H4].
Qed.

Lemma serve_delivers_in_order_witness :
  exists got,
    rev (sentTo (broadcaster.chan_at 1)
           (broadcaster.statsHub (state_of (broadcaster.serve threeBatches threeListeners))))
      = rev (sentTo (broadcaster.chan_at 1) (broadcaster.statsHub threeListeners)) ++ got /\
    subseq got (statsOf threeBatches).
Proof.
  apply (serve_delivers_in_order threeBatches threeListeners
           (broadcaster.chan_at 1) (broadcaster.chan_at 1) threeListeners_ok).
  vm_compute. intuition discriminate.
Defined.
